(** * abkhazia: the AIC corpus preparator and the language-model recipe

    A shallow embedding of

    - [abkhazia/prepare/aic_preparator.py]  ([AICPreparator])
    - [abkhazia/core/language_model.py]     ([LanguageModel])
    - [abkhazia/commands/abkhazia_align.py] ([AbkhaziaAlign.run])

    followed by the properties proved about them.  Python byte strings are
    [string]s, Python integers are [Z], files are read as one [string] and
    iterated line by line (terminators kept), exceptions are explicit
    results, and the external speech tools are an oracle on the file
    system. *)

From Stdlib Require Import List String Ascii Bool Arith ZArith NArith Lia.
From Stdlib Require Decimal DecimalPos DecimalN DecimalZ.
From Stdlib Require Import DecimalString.
From Stdlib Require Import QArith Permutation Sorted.
Import ListNotations.

Set Implicit Arguments.
Close Scope Q_scope.
Open Scope list_scope.
Open Scope string_scope.

(* ================================================================== *)
(** * Part I.  Definitions                                              *)
(* ================================================================== *)

(** ** Python string primitives ([str] of Python 2, i.e. byte strings) *)

Module Py.

Definition tab : ascii := "009"%char.
Definition nl  : ascii := "010"%char.

(** [string.whitespace] of the C locale, also what [\s] matches. *)
Definition is_space (c : ascii) : bool :=
  let n := N_of_ascii c in
  ((9 <=? n) && (n <=? 13))%N || (n =? 32)%N.

Definition is_upper (c : ascii) : bool :=
  let n := N_of_ascii c in ((65 <=? n) && (n <=? 90))%N.

Definition is_lower (c : ascii) : bool :=
  let n := N_of_ascii c in ((97 <=? n) && (n <=? 122))%N.

Definition is_digit (c : ascii) : bool :=
  let n := N_of_ascii c in ((48 <=? n) && (n <=? 57))%N.

Definition chr_lower (c : ascii) : ascii :=
  if is_upper c then ascii_of_N (N_of_ascii c + 32) else c.

Definition chr_upper (c : ascii) : ascii :=
  if is_lower c then ascii_of_N (N_of_ascii c - 32) else c.

Fixpoint smap (f : ascii -> ascii) (s : string) : string :=
  match s with
  | EmptyString => EmptyString
  | String c s' => String (f c) (smap f s')
  end.

Fixpoint sall (p : ascii -> bool) (s : string) : bool :=
  match s with
  | EmptyString => true
  | String c s' => p c && sall p s'
  end.

(** [s.lower()] and [s.upper()] *)
Definition lower (s : string) : string := smap chr_lower s.
Definition upper (s : string) : string := smap chr_upper s.

Definition snoc (s : string) (c : ascii) : string := s ++ String c "".

Definition is_empty (s : string) : bool :=
  match s with EmptyString => true | _ => false end.

(** [s.startswith(p)] *)
Fixpoint startswith (p s : string) : bool :=
  match p with
  | EmptyString => true
  | String a p' =>
      match s with
      | EmptyString => false
      | String b s' => Ascii.eqb a b && startswith p' s'
      end
  end.

(** [s.replace(old, new)]: leftmost, non-overlapping occurrences.  [skip]
    counts the characters of a match that are still to be dropped. *)
Fixpoint replace_from (old new : string) (skip : nat) (s : string) : string :=
  match s with
  | EmptyString => EmptyString
  | String c s' =>
      match skip with
      | S k => replace_from old new k s'
      | O =>
          if startswith old s
          then new ++ replace_from old new (String.length old - 1) s'
          else String c (replace_from old new 0 s')
      end
  end.

Fixpoint intersperse (new s : string) : string :=
  match s with
  | EmptyString => EmptyString
  | String c s' => String c (new ++ intersperse new s')
  end.

Definition replace (old new s : string) : string :=
  match old with
  | EmptyString => new ++ intersperse new s
  | _ => replace_from old new 0 s
  end.

(** [s.split()]: runs of whitespace separate, none is kept. *)
Fixpoint split_ws_from (cur s : string) : list string :=
  match s with
  | EmptyString => if is_empty cur then [] else [cur]
  | String c s' =>
      if is_space c
      then (if is_empty cur then split_ws_from "" s'
            else cur :: split_ws_from "" s')
      else split_ws_from (snoc cur c) s'
  end.

Definition split_ws (s : string) : list string := split_ws_from "" s.

(** [s.split(sep)] for a one-character separator. *)
Fixpoint split_from (sep : ascii) (cur s : string) : list string :=
  match s with
  | EmptyString => [cur]
  | String c s' =>
      if Ascii.eqb c sep then cur :: split_from sep "" s'
      else split_from sep (snoc cur c) s'
  end.

Definition split (sep : ascii) (s : string) : list string :=
  split_from sep "" s.

(** The text of successive [write] calls. *)
Definition cat (parts : list string) : string :=
  fold_right append "" parts.

(** [sep.join(parts)] *)
Fixpoint join (sep : string) (parts : list string) : string :=
  match parts with
  | [] => ""
  | [p] => p
  | p :: ps => p ++ sep ++ join sep ps
  end.

(** [for line in open(f)]: the lines of a file, terminators kept. *)
Fixpoint lines_from (cur s : string) : list string :=
  match s with
  | EmptyString => if is_empty cur then [] else [cur]
  | String c s' =>
      if Ascii.eqb c nl then snoc cur c :: lines_from "" s'
      else lines_from (snoc cur c) s'
  end.

Definition readlines (content : string) : list string :=
  lines_from "" content.

(** [s.strip()] *)
Fixpoint lstrip (s : string) : string :=
  match s with
  | String c s' => if is_space c then lstrip s' else s
  | EmptyString => EmptyString
  end.

Fixpoint rstrip (s : string) : string :=
  match s with
  | EmptyString => EmptyString
  | String c s' =>
      let r := rstrip s' in
      if is_space c && is_empty r then EmptyString else String c r
  end.

Definition strip (s : string) : string := rstrip (lstrip s).

(** [str(n)] for an integer. *)
Definition str_of_int (n : Z) : string :=
  NilZero.string_of_int (Z.to_int n).

Definition digit_value (c : ascii) : Z := Z.of_N (N_of_ascii c) - 48.

Fixpoint parse_digits (acc : Z) (s : string) : option Z :=
  match s with
  | EmptyString => Some acc
  | String c s' =>
      if is_digit c then parse_digits (10 * acc + digit_value c) s'
      else None
  end.

Definition parse_unsigned (s : string) : option Z :=
  if is_empty s then None else parse_digits 0 s.

(** [int(s)]: surrounding whitespace is dropped, one sign is allowed, the
    rest must be a non-empty run of decimal digits; [None] stands for
    [ValueError]. *)
Definition int_of_str (s : string) : option Z :=
  match strip s with
  | String "-" r => option_map Z.opp (parse_unsigned r)
  | String "+" r => parse_unsigned r
  | t => parse_unsigned t
  end.

End Py.


(** ** The fragment of Python's [re] the preparator uses

    A pattern is a sequence of atoms; an atom is a character class under a
    quantifier, captured as a group or not.  Matching is the ordered
    backtracking search of [re.match]: anchored at the start of the string,
    a greedy quantifier tries the longest run first, a lazy one the
    shortest, and the first complete match wins. *)

Module Re.

Inductive quant := Once | Star | LazyStar | Plus.

Record atom := Atom {
  a_class : ascii -> bool;
  a_quant : quant;
  a_group : bool
}.

Section Search.
Variable R : Type.
Variable cls : ascii -> bool.
(** [k cap rest]: the rest of the pattern, given the text [cap] this atom
    consumed and the text [rest] that remains. *)
Variable k : string -> string -> option R.

Fixpoint greedy (cap s : string) : option R :=
  match s with
  | String c s' =>
      if cls c
      then match greedy (Py.snoc cap c) s' with
           | Some r => Some r
           | None => k cap s
           end
      else k cap s
  | EmptyString => k cap s
  end.

Fixpoint lazy (cap s : string) : option R :=
  match k cap s with
  | Some r => Some r
  | None =>
      match s with
      | String c s' => if cls c then lazy (Py.snoc cap c) s' else None
      | EmptyString => None
      end
  end.
End Search.

(** [re.match(pat, s)]: the captured groups in order, or [None]. *)
Fixpoint rmatch (pat : list atom) (s : string) : option (list string) :=
  match pat with
  | [] => Some []
  | a :: pat' =>
      let k (cap rest : string) :=
        option_map (fun gs => if a_group a then cap :: gs else gs)
                   (rmatch pat' rest) in
      match a_quant a with
      | Once =>
          match s with
          | String c s' =>
              if a_class a c then k (String c "") s' else None
          | EmptyString => None
          end
      | Star => greedy (a_class a) k "" s
      | LazyStar => lazy (a_class a) k "" s
      | Plus =>
          match s with
          | String c s' =>
              if a_class a c then greedy (a_class a) k (String c "") s'
              else None
          | EmptyString => None
          end
      end
  end.

(** Character classes *)
Definition dot (c : ascii) : bool := negb (Ascii.eqb c Py.nl).
Definition chr (x : ascii) (c : ascii) : bool := Ascii.eqb c x.
Definition space : ascii -> bool := Py.is_space.
Definition one_of (xs : string) (c : ascii) : bool :=
  negb (Py.sall (fun x => negb (Ascii.eqb c x)) xs).

Definition lit (p : ascii -> bool) : atom := Atom p Once false.
Definition grp (p : ascii -> bool) (q : quant) : atom := Atom p q true.

(** [group(i)] of a match object, [i >= 1]. *)
Definition group (gs : list string) (i : nat) : string :=
  nth (i - 1) gs "".

End Re.

(** ** [aic_preparator.py]: the lexicon stages *)

Module AIC.

(** A Python [dict] with string keys, as the list of its items. *)
Definition dict (V : Type) := list (string * V).

Fixpoint dict_get {V} (d : dict V) (key : string) : option V :=
  match d with
  | [] => None
  | (k, v) :: d' => if String.eqb k key then Some v else dict_get d' key
  end.

(** [d[key] = v] *)
Fixpoint dict_set {V} (d : dict V) (key : string) (v : V) : dict V :=
  match d with
  | [] => [(key, v)]
  | (k, w) :: d' =>
      if String.eqb k key then (k, v) :: d'
      else (k, w) :: dict_set d' key v
  end.

(** [sorted(items, key=lambda kv: kv[1], reverse=True)]: a stable sort,
    larger counts first, equal counts in the order they come. *)
Fixpoint insert_desc (x : string * Z) (l : list (string * Z)) :=
  match l with
  | [] => [x]
  | y :: l' =>
      if (snd y <=? snd x)%Z then x :: l else y :: insert_desc x l'
  end.

Definition sorted_desc (l : list (string * Z)) : list (string * Z) :=
  fold_right insert_desc [] l.

(** The pattern of a CMU dictionary line, [( .* ) \s \s ( .* )]. *)
Definition re_cmu : list Re.atom :=
  [Re.grp Re.dot Re.Star; Re.lit Re.space; Re.lit Re.space;
   Re.grp Re.dot Re.Star].

(** The pattern of a transcription line,
    [( [fm0-9]+ ) _ ( [ps] ) _ ( .*? ) \s ( .* )]. *)
Definition re_transcription : list Re.atom :=
  [Re.grp (fun c => Re.one_of "fm" c || Py.is_digit c) Re.Plus;
   Re.lit (Re.chr "_");
   Re.grp (Re.one_of "ps") Re.Once;
   Re.lit (Re.chr "_");
   Re.grp Re.dot Re.LazyStar; Re.lit Re.space;
   Re.grp Re.dot Re.Star].

(** The pattern of a temporary lexicon line, [( .*? ) \s ( .* )]. *)
Definition re_lexicon : list Re.atom :=
  [Re.grp Re.dot Re.LazyStar; Re.lit Re.space; Re.grp Re.dot Re.Star].

(** The pattern of a temporary OOV line, [( .* ) \t ( .* )]. *)
Definition re_oov : list Re.atom :=
  [Re.grp Re.dot Re.Star; Re.lit (Re.chr Py.tab); Re.grp Re.dot Re.Star].

Definition newline : string := String Py.nl "".
Definition tabulation : string := String Py.tab "".

(** *** [temp_cmu_lexicon] *)

(** The three [phn.replace] calls that drop the stress digits. *)
Definition strip_stress (phn : string) : string :=
  Py.replace "2" "" (Py.replace "1" "" (Py.replace "0" "" phn)).

(** Body of the loop over the CMU dictionary. *)
Definition cmu_step (cmu_dict : dict string) (line : string) : dict string :=
  match Re.rmatch re_cmu line with
  | Some gs =>
      let entry := Re.group gs 1 in
      let phn := strip_stress (Re.group gs 2) in
      dict_set cmu_dict entry phn
  | None => cmu_dict
  end.

Definition count_word (dict_word : dict Z) (word : string) : dict Z :=
  dict_set dict_word word
    (match dict_get dict_word word with
     | None => 1
     | Some n => n + 1
     end)%Z.

(** Body of the loop over the transcription file. *)
Definition transcription_step (dict_word : dict Z) (line : string) : dict Z :=
  match Re.rmatch re_transcription line with
  | Some gs =>
      fold_left count_word (Py.split_ws (Py.upper (Re.group gs 4))) dict_word
  | None => dict_word
  end.

Definition lex_line (word phn : string) : string :=
  word ++ " " ++ phn ++ newline.

Definition oov_line (word : string) (freq : Z) : string :=
  word ++ tabulation ++ Py.str_of_int freq ++ newline.

(** Body of the loop over the words by descending frequency; the state is
    the text written so far to the temporary lexicon and to the temporary
    OOV file. *)
Definition lookup_step (cmu_dict : dict string)
    (out : string * string) (item : string * Z) : string * string :=
  let (word, freq) := item in
  match dict_get cmu_dict word with
  | Some phn => (fst out ++ lex_line word phn, snd out)
  | None => (fst out, snd out ++ oov_line word freq)
  end.

Section TempLexicon.
(** [dict_word.items()]: Python 2 fixes no order on the items of a
    dictionary, so the order is left to the caller. *)
Variable items : dict Z -> list (string * Z).

Definition read_cmu_dict (cmu_file : string) : dict string :=
  fold_left cmu_step (Py.readlines cmu_file) [].

Definition count_words (transcription_file : string) : dict Z :=
  fold_left transcription_step (Py.readlines transcription_file) [].

(** Returns the contents of [out_temp_lex] and of [out_oov]. *)
Definition temp_cmu_lexicon (cmu_file transcription_file : string)
  : string * string :=
  let cmu_dict := read_cmu_dict cmu_file in
  let dict_word := count_words transcription_file in
  fold_left (lookup_step cmu_dict) (sorted_desc (items dict_word)) ("", "").
End TempLexicon.

(** *** [make_lexicon_aux] *)

(** The substitutions of [make_lexicon_aux], in the order they are made. *)
Definition cmu_to_aic_table : list (string * string) :=
  [("AA", "a");  ("AE", "xq"); ("AH", "xa"); ("AO", "c");  ("AW", "xw");
   ("AY", "xy"); ("DH", "xd"); ("EH", "xe"); ("ER", "xr"); ("EY", "e");
   ("CH", "xc"); ("HH", "h");  ("IH", "xi"); ("IY", "i");  ("JH", "xj");
   ("NG", "xg"); ("OW", "o");  ("OY", "xo"); ("SH", "xs"); ("TH", "xt");
   ("UH", "xu"); ("UW", "u");  ("ZH", "xz");
   ("D", "d"); ("B", "b"); ("F", "f"); ("G", "g"); ("K", "k"); ("L", "l");
   ("M", "m"); ("N", "n"); ("P", "p"); ("R", "r"); ("S", "s"); ("T", "t");
   ("V", "v"); ("W", "w"); ("Y", "y"); ("Z", "z")].

(** The codes of the CMU phone set, by length. *)
Definition two_letter_codes : list string :=
  ["AA"; "AE"; "AH"; "AO"; "AW"; "AY"; "DH"; "EH"; "ER"; "EY"; "CH"; "HH";
   "IH"; "IY"; "JH"; "NG"; "OW"; "OY"; "SH"; "TH"; "UH"; "UW"; "ZH"].

Definition one_letter_codes : list string :=
  ["D"; "B"; "F"; "G"; "K"; "L"; "M"; "N"; "P"; "R"; "S"; "T"; "V"; "W";
   "Y"; "Z"].

(** The AIC symbol of one CMU code taken as a whole: its entry in the
    table.  This is the code-by-code reading of the remapping, against
    which the chain of [replace] calls is compared. *)
Definition aic_symbol (code : string) : string :=
  match dict_get cmu_to_aic_table code with
  | Some symbol => symbol
  | None => code
  end.

Definition substitute (table : list (string * string)) (s : string)
  : string :=
  fold_left (fun acc kv => Py.replace (fst kv) (snd kv) acc) table s.

Definition cmu_to_aic (phn_trs : string) : string :=
  substitute cmu_to_aic_table phn_trs.

(** Body of the loop over the temporary lexicon: the text it writes. *)
Definition lexicon_step (line : string) : string :=
  match Re.rmatch re_lexicon line with
  | Some gs =>
      let word := Py.lower (Re.group gs 1) in
      let phn_trs := cmu_to_aic (Re.group gs 2) in
      word ++ " " ++ phn_trs ++ newline
  | None => ""
  end.

Inductive oov_action :=
| Written (text : string)    (* the three [outfile.write] *)
| Logged (sound : string)    (* [self.log.debug(sound)] *)
| Skipped                    (* the line did not match *)
| ValueError.                (* [int(freq)] raised *)

(** The line written for a retained sound. *)
Definition sound_line (sound : string) : string :=
  let array_phn := Py.split ":" sound in
  sound ++ Py.cat (map (fun phn => " " ++ phn) array_phn) ++ newline.

(** Body of the loop over the temporary OOV file. *)
Definition oov_step (line : string) : oov_action :=
  match Re.rmatch re_oov line with
  | Some gs =>
      let sound := Py.lower (Re.group gs 1) in
      match Py.int_of_str (Re.group gs 2) with
      | Some freq => if (1 <? freq)%Z then Written (sound_line sound)
                     else Logged sound
      | None => ValueError
      end
  | None => Skipped
  end.

Inductive result (A : Type) :=
| Ok (a : A)
| Raised.
Arguments Raised {A}.

Definition lexicon_loop (lines : list string) : string :=
  Py.cat (map lexicon_step lines).

Fixpoint oov_loop (lines : list string) (out : string) : result string :=
  match lines with
  | [] => Ok out
  | line :: rest =>
      match oov_step line with
      | Written text => oov_loop rest (out ++ text)
      | Logged _ | Skipped => oov_loop rest out
      | ValueError => Raised
      end
  end.

(** Returns the content of the lexicon file. *)
Definition make_lexicon_aux (temp_lex oov : string) : result string :=
  oov_loop (Py.readlines oov) (lexicon_loop (Py.readlines temp_lex)).

(** *** [make_lexicon] *)
Definition make_lexicon (items : dict Z -> list (string * Z))
    (cmu_file transcription_file : string) : result string :=
  let (temp_lex, oov) := temp_cmu_lexicon items cmu_file transcription_file in
  make_lexicon_aux temp_lex oov.

(** *** The lexicon as a list of entries

    The same two loops read as producing (word, pronunciation) pairs, one
    for each line that is written; used to state what the lexicon file
    holds. *)
Definition lexicon_entry (line : string) : option (string * string) :=
  match Re.rmatch re_lexicon line with
  | Some gs => Some (Py.lower (Re.group gs 1), cmu_to_aic (Re.group gs 2))
  | None => None
  end.

Definition oov_entry (line : string) : option (string * string) :=
  match oov_step line with
  | Written _ =>
      match Re.rmatch re_oov line with
      | Some gs =>
          let sound := Py.lower (Re.group gs 1) in
          Some (sound, Py.join " " (Py.split ":" sound))
      | None => None
      end
  | _ => None
  end.

Fixpoint choose {A B} (f : A -> option B) (l : list A) : list B :=
  match l with
  | [] => []
  | x :: l' =>
      match f x with
      | Some y => y :: choose f l'
      | None => choose f l'
      end
  end.

Definition lexicon_entries (temp_lex oov : string) : list (string * string) :=
  (choose lexicon_entry (Py.readlines temp_lex) ++
   choose oov_entry (Py.readlines oov))%list.

Definition render (entries : list (string * string)) : string :=
  Py.cat (map (fun e => lex_line (fst e) (snd e)) entries).

End AIC.

(** ** [language_model.py]: the [LanguageModel] recipe *)

Module LM.

(** *** Paths and the file system *)

(** A path is the list of its components; [os.path.join(p, 'a/b')] with a
    literal relative second argument is [p ++ ["a"; "b"]]. *)
Definition path := list string.

Inductive node :=
| File (content : string)
| Dir.

Definition filesystem := path -> option node.

Fixpoint path_eqb (p q : path) : bool :=
  match p, q with
  | [], [] => true
  | x :: p', y :: q' => String.eqb x y && path_eqb p' q'
  | _, _ => false
  end.

(** [strip_prefix d p = Some rel] when [p] is [d ++ rel]. *)
Fixpoint strip_prefix (d p : path) : option path :=
  match d with
  | [] => Some p
  | x :: d' =>
      match p with
      | [] => None
      | y :: p' => if String.eqb x y then strip_prefix d' p' else None
      end
  end.

(** [p] is [d] or lies below it. *)
Definition under (d p : path) : bool :=
  match strip_prefix d p with Some _ => true | None => false end.

Definition exists_ (fs : filesystem) (p : path) : bool :=
  match fs p with Some _ => true | None => false end.

Definition isfile (fs : filesystem) (p : path) : bool :=
  match fs p with Some (File _) => true | _ => false end.

Definition isdir (fs : filesystem) (p : path) : bool :=
  match fs p with Some Dir => true | _ => false end.

Definition put (fs : filesystem) (p : path) (n : node) : filesystem :=
  fun q => if path_eqb q p then Some n else fs q.

(** Delete [d] and everything below it. *)
Definition rmtree (fs : filesystem) (d : path) : filesystem :=
  fun q => if under d q then None else fs q.

(** [os.rename(src, dst)] of a file or a directory tree. *)
Definition rename (fs : filesystem) (src dst : path) : filesystem :=
  fun q =>
    match strip_prefix dst q with
    | Some rel => fs (src ++ rel)%list
    | None => if under src q then None else fs q
    end.

Definition basename (p : path) : path :=
  match List.rev p with
  | [] => []
  | x :: _ => [x]
  end.

(** *** Parameters of the recipe *)

(** What [self.order] may hold: the configuration file gives a string, a
    caller may assign an integer.  [Int n] stands for a Python [int];
    an integer beyond [sys.maxint] is a [long] in Python 2, which is not
    an instance of [int], and is outside what [Int] stands for. *)
Inductive value :=
| Int (n : Z)
| Str (s : string).

Record recipe := Recipe {
  corpus_dir : path;
  output_dir : path;            (* also read as [self._output_dir] *)
  recipe_dir : path;
  local_path : path;            (* [self.a2k._local_path()] *)
  share_dir : path;             (* the [abkhazia/share] resource directory *)
  level : string;
  order : value;
  silence_probability : Q;      (* a number: the float NaN is left out *)
  position_dependent_phones : bool
}.

(** *** External programs *)

(** One constructor for each command line the recipe builds, with the
    arguments it formats into it. *)
Inductive call :=
| PrepareLang (script : path) (position_dependent : bool) (sil_prob : Q)
              (dict_src tmp lang : path)
| FstCompile (symbols g_txt : path)
| FstArcSort (input : path)
| AddStartEnd (stdin : path)
| BuildLm (input : path) (n : value) (output : path)
| CompileLm (input output : path)
| FormatLmSri (lang arpa out : path).

(** The [stdout] argument of [utils.jobs.run]: the method that is given
    what the program prints.  A file opened in the call itself,
    [open(p, 'w').write], is released and so closed when the call
    returns: all that was printed is then in the file.  The [write] of a
    file object the caller keeps open goes through the buffer of that
    object: only what the buffer has let through is in the file. *)
Inductive sink :=
| ToLog                       (* [self.log.debug] *)
| ToFile (p : path)           (* [open(p, 'w').write] *)
| ToOpenFile (p : path).      (* [f.write] of a file object that stays open *)

(** What a program did: its exit status, what it printed, and the file
    system it left behind. *)
Record job := Job {
  job_ok : bool;
  job_stdout : string;
  job_files : filesystem
}.

Record system := System {
  gateway : call -> filesystem -> job;      (* the external programs *)
  mkdtemp : filesystem -> path;             (* [tempfile.mkdtemp()] *)
  mktemp : filesystem -> path;              (* [NamedTemporaryFile] name *)
  gzip : string -> string;                  (* [gzip] compression *)
  (** What has reached the file of a text written through a file object
      that is neither flushed nor closed: the part its buffer let
      through. *)
  flushed : string -> string
}.

(** *** State, log and exceptions *)

Inductive exn :=
| RuntimeError
| IOError
| OSError.

Inductive severity := INFO | WARNING | DEBUG.

Inductive message :=
| Preprocessing_corpus
| Compiling_text_FST
| Computing_ngram (lvl : string) (n : value)
| Converting_ngram (n : value)
| Position_dependent_on_word_level
| Running (c : call) (target : path)
| Output (text : string).

Inductive event :=
| Log (s : severity) (m : message)
| Exec (c : call) (out : sink)
| Reopen_log_files.

Record world := World {
  files : filesystem;
  trace : list event
}.

Inductive outcome (A : Type) :=
| Return (a : A)
| Raise (e : exn).
Arguments Raise {A}.

Definition M (A : Type) := world -> outcome A * world.

Definition ret {A} (a : A) : M A := fun w => (Return a, w).

Definition bind {A B} (m : M A) (k : A -> M B) : M B :=
  fun w =>
    match m w with
    | (Return a, w') => k a w'
    | (Raise e, w') => (Raise e, w')
    end.

Definition raise {A} (e : exn) : M A := fun w => (Raise e, w).

(** [try: body finally: cleanup] *)
Definition try_finally {A} (body : M A) (cleanup : M unit) : M A :=
  fun w =>
    let (r, w1) := body w in
    match cleanup w1 with
    | (Return _, w2) => (r, w2)
    | (Raise e, w2) => (Raise e, w2)
    end.

Declare Scope lm_scope.
Delimit Scope lm_scope with lm.
Notation "x <- m ;; k" := (bind m (fun x => k))
  (at level 61, m at next level, right associativity) : lm_scope.
Notation "m ;; k" := (bind m (fun _ => k))
  (at level 61, right associativity) : lm_scope.
Open Scope lm_scope.

Definition emit (e : event) : M unit :=
  fun w => (Return tt, World (files w) (trace w ++ [e])%list).

Definition log (s : severity) (m : message) : M unit := emit (Log s m).

Definition get_files : M filesystem := fun w => (Return (files w), w).

Definition set_files (fs : filesystem) : M unit :=
  fun w => (Return tt, World fs (trace w)).

(** [open(p, 'w')], and writing [content] through it. *)
Definition write_file (p : path) (content : string) : M unit :=
  fs <- get_files ;; set_files (put fs p (File content)).

(** [open(p, 'r').read()] *)
Definition read_file (p : path) : M string :=
  fs <- get_files ;;
  match fs p with
  | Some (File content) => ret content
  | _ => raise IOError
  end.

Fixpoint for_each {A} (l : list A) (body : A -> M unit) : M unit :=
  match l with
  | [] => ret tt
  | x :: l' => body x ;; for_each l' body
  end.

(** *** Helpers of the standard library and of [abkhazia.utils] *)

(** Modelled from the spec: [abkhazia.utils.remove] is not among the
    sources.  The specification has temporary files and directories
    removed or cleaned up, the output directory removed before the move,
    and removal failures swallowed where the call asks for it: the path
    and all below it is deleted; a missing path raises unless [safe]. *)
Definition remove (p : path) (safe : bool) : M unit :=
  fs <- get_files ;;
  if exists_ fs p then set_files (rmtree fs p)
  else if safe then ret tt
  else raise OSError.

(** [shutil.move(src, dst)] *)
Definition move (src dst : path) : M unit :=
  fs <- get_files ;;
  if negb (exists_ fs src) then raise IOError
  else if isdir fs dst then
    let real_dst := (dst ++ basename src)%list in
    if exists_ fs real_dst then raise OSError
    else set_files (rename fs src real_dst)
  else if isfile fs dst && isdir fs src then raise OSError
  else set_files (rename fs src dst).

Section Recipe.
Variable S : system.
Variable self : recipe.

(** [tempfile.mkdtemp()] *)
Definition make_temp_dir : M path :=
  fs <- get_files ;;
  let d := mkdtemp S fs in
  set_files (put fs d Dir) ;;
  ret d.

(** [tempfile.NamedTemporaryFile('w', delete=False)]: its [name]. *)
Definition named_temporary_file : M path :=
  fs <- get_files ;;
  let t := mktemp S fs in
  set_files (put fs t (File "")) ;;
  ret t.

(** Modelled from the spec: [abkhazia.utils.jobs.run] is not among the
    sources.  The specification describes it as a runner that takes a
    command, its standard input, a sink for its output, a working
    directory and an environment, and has the failure of an external
    tool propagated as fatal: the program runs on the file system, what
    it printed goes to the sink, and a failure raises. *)
Definition run_job (c : call) (out : sink) : M unit :=
  fs <- get_files ;;
  let j := gateway S c fs in
  emit (Exec c out) ;;
  set_files (job_files j) ;;
  match out with
  | ToLog => log DEBUG (Output (job_stdout j))
  | ToFile p => write_file p (job_stdout j)
  | ToOpenFile p => write_file p (flushed S (job_stdout j))
  end ;;
  if job_ok j then ret tt else raise RuntimeError.

(** *** The methods of [LanguageModel] *)

Definition _check_level : M unit :=
  let level_choices := ["word"; "phone"] in
  if negb (existsb (String.eqb (level self)) level_choices)
  then raise RuntimeError
  else ret tt.

Definition _check_order : M unit :=
  match order self with
  | Int n => if (n <? 1)%Z then raise RuntimeError else ret tt
  | Str _ => raise RuntimeError
  end.

Definition _check_silence_probability : M unit :=
  let p := silence_probability self in
  if negb (Qle_bool p 1) || negb (Qle_bool 0 p)
  then raise RuntimeError
  else ret tt.

Definition _check_position_dependent : M unit :=
  if String.eqb (level self) "word" && position_dependent_phones self
  then log WARNING Position_dependent_on_word_level
  else ret tt.

(** The script [_prepare_lang] runs. *)
Definition prepare_lang_script : path :=
  let script_prepare_lm :=
    (recipe_dir self ++ ["utils"; "prepare_lang.sh"])%list in
  let script_prepare_lm_wpdpl :=
    (share_dir self ++ ["prepare_lang_wpdpl.sh"])%list in
  if String.eqb (level self) "phone" && position_dependent_phones self
  then script_prepare_lm_wpdpl
  else script_prepare_lm.

(** Prepare the corpus data for language modeling. *)
Definition _prepare_lang : M unit :=
  log INFO Preprocessing_corpus ;;
  run_job
    (PrepareLang prepare_lang_script
       (position_dependent_phones self)
       (silence_probability self)
       (local_path self)
       (output_dir self ++ ["local"])%list
       (output_dir self))
    ToLog.

(** Compile and sort a text FST to a binary FST.  The method reads
    [self._log] and [self._output_dir], attributes the base class (not
    among the sources) has to provide: they are taken to be the
    recipe's log and output directory.  The compiler prints through
    [temp.write], and [temp] is neither flushed nor closed before the
    sorter is run on [temp.name]: the sorter finds in the file what the
    buffer has let through. *)
Definition _compile_fst (G_txt G_fst : path) : M unit :=
  log INFO Compiling_text_FST ;;
  temp <- named_temporary_file ;;
  (* txt to temp *)
  let command1 :=
    FstCompile (output_dir self ++ ["words.txt"])%list G_txt in
  log DEBUG (Running command1 temp) ;;
  run_job command1 (ToOpenFile temp) ;;
  (* temp to fst *)
  let command2 := FstArcSort temp in
  log DEBUG (Running command2 G_fst) ;;
  write_file G_fst "" ;;
  run_job command2 (ToFile G_fst) ;;
  remove temp false.

(** [cut -d' ' -f2-] of every line, the lines joined by a newline. *)
Definition text_ready_of (lm_text : string) : string :=
  Py.join AIC.newline
    (map (fun line => Py.join " " (tl (Py.split_ws line)))
         (Py.readlines lm_text)).

(** Generate an ARPA n-gram from the text of the corpus; the temporary
    files are removed whether the stage succeeds or raises. *)
Definition _compute_lm (G_arpa : path) : M unit :=
  log INFO (Computing_ngram (level self) (order self)) ;;
  let lm_text := (local_path self ++ ["lm_text.txt"])%list in
  let text_ready := (local_path self ++ ["text_ready.txt"])%list in
  let text_se := (local_path self ++ ["text_se.txt"])%list in
  let text_lm := (local_path self ++ ["text_lm.gz"])%list in
  let text_blm := (local_path self ++ ["text_blm.gz"])%list in
  try_finally
    (write_file text_ready "" ;;
     text <- read_file lm_text ;;
     write_file text_ready (text_ready_of text) ;;
     _ <- read_file text_ready ;;
     write_file text_se "" ;;
     run_job (AddStartEnd text_ready) (ToFile text_se) ;;
     run_job (BuildLm text_se (order self) text_lm) ToLog ;;
     run_job (CompileLm text_lm text_blm) ToLog ;;
     (* gzip the compiled lm *)
     blm <- read_file text_blm ;;
     write_file G_arpa (gzip S blm))
    (for_each [text_ready; text_se; text_lm; text_blm]
       (fun f => remove f true)).

(** Generate the FST from the ARPA model, in a temporary directory that
    replaces the output directory on success.  [G_fst] is not used. *)
Definition _format_lm (G_arpa G_fst : path) : M unit :=
  log INFO (Converting_ngram (order self)) ;;
  tmp_dir <- make_temp_dir ;;
  try_finally
    (run_job (FormatLmSri (output_dir self) G_arpa tmp_dir) ToLog ;;
     remove (output_dir self) false ;;
     move tmp_dir (output_dir self))
    (remove tmp_dir true ;;
     emit Reopen_log_files).

(** Raise if the language modeling parameters are not correct. *)
Definition check_parameters : M unit :=
  _check_level ;;
  _check_order ;;
  _check_silence_probability ;;
  _check_position_dependent.

(** Run the created recipe and compute the language model. *)
Definition run : M unit :=
  check_parameters ;;
  _prepare_lang ;;
  let local := local_path self in
  let G_txt := (local ++ ["G.txt"])%list in
  let G_fst := (local ++ ["G.fst"])%list in
  let G_arpa := (local ++ ["G.arpa.gz"])%list in
  fs <- get_files ;;
  if isfile fs G_txt then _compile_fst G_txt G_fst
  else
    ((if negb (isfile fs G_arpa) then _compute_lm G_arpa else ret tt) ;;
     _format_lm G_arpa G_fst).

End Recipe.

(** *** Vocabulary of the statements *)

(** The events of the n-gram computation stage: its announcement in the
    log and its three programs (start/end markers, n-gram builder,
    n-gram compiler). *)
Definition is_ngram_event (e : event) : bool :=
  match e with
  | Log _ (Computing_ngram _ _) => true
  | Exec (AddStartEnd _) _ => true
  | Exec (BuildLm _ _ _) _ => true
  | Exec (CompileLm _ _) _ => true
  | _ => false
  end.

Definition is_exec (e : event) : bool :=
  match e with
  | Exec _ _ => true
  | _ => false
  end.

(** [m] relates every world to the world it leaves. *)
Definition keeps {A} (R : world -> world -> Prop) (m : M A) : Prop :=
  forall w, R w (snd (m w)).

(** The trace grows by events that satisfy [P]. *)
Definition extends (P : event -> Prop) (w w' : world) : Prop :=
  exists added, trace w' = (trace w ++ added)%list /\ Forall P added.

(** The file at [a], when there is one, is left as it is. *)
Definition preserves (a : path) (w w' : world) : Prop :=
  isfile (files w) a = true -> files w' a = files w a.

(** The three paths [run] computes. *)
Definition G_txt (self : recipe) : path :=
  (local_path self ++ ["G.txt"])%list.
Definition G_fst (self : recipe) : path :=
  (local_path self ++ ["G.fst"])%list.
Definition G_arpa (self : recipe) : path :=
  (local_path self ++ ["G.arpa.gz"])%list.

(** What [run] does once the parameters are checked and the corpus is
    prepared: the choice between the stages. *)
Definition stages (S : system) (self : recipe) : M unit :=
  fs <- get_files ;;
  if isfile fs (G_txt self)
  then _compile_fst S self (G_txt self) (G_fst self)
  else
    ((if negb (isfile fs (G_arpa self))
      then _compute_lm S self (G_arpa self) else ret tt) ;;
     _format_lm S self (G_arpa self) (G_fst self)).

(** The events found in [w'] beyond those of [w]. *)
Definition since (w w' : world) : list event :=
  skipn (List.length (trace w)) (trace w').

(** An event that does not belong to the n-gram computation. *)
Definition quiet (e : event) : Prop := is_ngram_event e = false.

(** Idempotent staging, as the specification words it: after a run that
    succeeded, a second run on the files it left adds nothing of the
    n-gram computation to the trace and leaves the same G.fst. *)
Definition idempotent_staging (S : system) (self : recipe) (w0 : world)
  : Prop :=
  forall w1,
    run S self w0 = (Return tt, w1) ->
    Forall quiet (since w1 (snd (run S self w1))) /\
    files (snd (run S self w1)) (G_fst self) = files w1 (G_fst self).

(** The calls of the recipe outside the n-gram computation: the
    preparation into the output directory, the compiler on G.txt, the
    sorter on a temporary file and the formatter of G.arpa.gz into a
    temporary directory. *)
Inductive staging_call (S : system) (self : recipe) : call -> Prop :=
| prepare_call :
    staging_call S self
      (PrepareLang (prepare_lang_script self)
         (position_dependent_phones self) (silence_probability self)
         (local_path self) (output_dir self ++ ["local"])%list
         (output_dir self))
| compile_call :
    staging_call S self
      (FstCompile (output_dir self ++ ["words.txt"])%list (G_txt self))
| sort_call fs : staging_call S self (FstArcSort (mktemp S fs))
| format_call fs :
    staging_call S self
      (FormatLmSri (output_dir self) (G_arpa self) (mkdtemp S fs)).

(** The artifact [a] is out of the way of the recipe: it lies neither in
    the output directory, which the formatting stage replaces, nor under
    a temporary name, and none of the four calls above, none of which
    is told to write there, removes or rewrites it. *)
Definition sheltered (S : system) (self : recipe) (a : path) : Prop :=
  under (output_dir self) a = false /\
  (forall fs, under (mkdtemp S fs) a = false) /\
  (forall fs, under (mktemp S fs) a = false) /\
  (forall c fs, staging_call S self c ->
     isfile fs a = true -> job_files (gateway S c fs) a = fs a).

(** The programs that make G.fst, as the stages run them from the files
    [fs]: in [_compile_fst] the compiler, once the temporary file is
    created, and then the sorter, with in the temporary file what has
    been let through of the compiler's output and the FST file opened
    empty; in [_format_lm] the formatter, once the temporary directory
    is made. *)
Definition fstcompile_job (S : system) (self : recipe) (txt : path)
    (fs : filesystem) : job :=
  gateway S (FstCompile (output_dir self ++ ["words.txt"])%list txt)
    (put fs (mktemp S fs) (File "")).

Definition fstarcsort_job (S : system) (self : recipe) (txt fst_path : path)
    (fs : filesystem) : job :=
  let temp := mktemp S fs in
  let compiler := fstcompile_job S self txt fs in
  gateway S (FstArcSort temp)
    (put (put (job_files compiler) temp
            (File (flushed S (job_stdout compiler))))
       fst_path (File "")).

Definition format_job (S : system) (self : recipe) (arpa : path)
    (fs : filesystem) : job :=
  let tmp_dir := mkdtemp S fs in
  gateway S (FormatLmSri (output_dir self) arpa tmp_dir) (put fs tmp_dir Dir).

(** The temporary names are away from what the stages make: the
    temporary file is not G.fst nor a directory above it, and the
    temporary directory is neither inside the output directory nor above
    it. *)
Definition temporaries_apart (S : system) (self : recipe) : Prop :=
  (forall fs, under (mktemp S fs) (G_fst self) = false) /\
  (forall fs, under (output_dir self) (mkdtemp S fs) = false) /\
  (forall fs, under (mkdtemp S fs) (output_dir self) = false).

End LM.

(** ** Test doubles: a file system given by its entries and stub programs *)

Module Stub.
Import LM.

Fixpoint mkfs (entries : list (path * node)) : filesystem :=
  fun p =>
    match entries with
    | [] => None
    | (q, n) :: rest => if path_eqb p q then Some n else mkfs rest p
    end.

Definition read (fs : filesystem) (p : path) : string :=
  match fs p with
  | Some (File content) => content
  | _ => ""
  end.

(** Create [p] unless something is there already. *)
Definition put_new (fs : filesystem) (p : path) (n : node) : filesystem :=
  if exists_ fs p then fs else put fs p n.

(** Programs that succeed, write where they are told to and replace
    nothing; the formatter needs its ARPA input. *)
Definition tools (c : call) (fs : filesystem) : job :=
  match c with
  | PrepareLang _ _ _ _ tmp lang =>
      Job true "prepare_lang: done"
        (put_new (put_new (put_new fs lang Dir) tmp Dir)
           (lang ++ ["words.txt"])%list (File "<eps> 0"))
  | FstCompile _ g => Job true ("compiled " ++ read fs g) fs
  | FstArcSort i => Job true ("sorted " ++ read fs i) fs
  | AddStartEnd i => Job true ("<s> " ++ read fs i ++ " </s>") fs
  | BuildLm i _ o => Job true "" (put_new fs o (File ("lm " ++ read fs i)))
  | CompileLm i o => Job true "" (put_new fs o (File ("blm " ++ read fs i)))
  | FormatLmSri lang arpa o =>
      Job (isfile fs arpa) ""
        (put_new (put_new fs (o ++ ["words.txt"])%list
                    (File (read fs (lang ++ ["words.txt"])%list)))
           (o ++ ["G.fst"])%list (File ("fst " ++ read fs arpa)))
  end.

(** The same programs with a formatter that fails half way. *)
Definition broken_tools (c : call) (fs : filesystem) : job :=
  match c with
  | FormatLmSri _ _ o =>
      Job false "format_lm_sri.sh: error"
        (put_new fs (o ++ ["words.txt"])%list (File "<eps>"))
  | _ => tools c fs
  end.

Definition temp_dir : path := ["tmp"; "tmpdir"].
Definition temp_file : path := ["tmp"; "tmpfile"].

(** The texts the stub programs print are shorter than the buffer of a
    file object: nothing of them is let through before the file is
    flushed or closed. *)
Definition machine : system :=
  System tools (fun _ => temp_dir) (fun _ => temp_file)
         (fun s => "gz " ++ s) (fun _ => "").

Definition broken_machine : system :=
  System broken_tools (fun _ => temp_dir) (fun _ => temp_file)
         (fun s => "gz " ++ s) (fun _ => "").

(** A recipe whose working directory lies beside its output directory. *)
Definition trigram : recipe :=
  Recipe ["corpus"] ["out"] ["recipe"] ["recipe"; "local"] ["share"]
         "word" (Int 3) (1 # 2) false.

(** A recipe laid out as the specification lists the artifacts, with the
    working directory inside the output directory. *)
Definition nested : recipe :=
  Recipe ["corpus"] ["out"] ["recipe"] ["out"; "local"] ["share"]
         "word" (Int 3) (1 # 2) false.

Definition lm_text : string :=
  "utt1 hello world" ++ AIC.newline ++ "utt2 hello" ++ AIC.newline.

(** The state [create] leaves: the directories and the text to model. *)
Definition created (self : recipe) : world :=
  World (mkfs [ (output_dir self, Dir);
                (local_path self, Dir);
                ((local_path self ++ ["lm_text.txt"])%list, File lm_text) ])
        [].

(** The same with a grammar, or an ARPA model, provided by hand. *)
Definition with_file (name content : string) (self : recipe) : world :=
  World (put (files (created self)) (local_path self ++ [name])%list
             (File content))
        [].

Definition with_grammar : world := with_file "G.txt" "0 1 a a" trigram.
Definition with_arpa : world := with_file "G.arpa.gz" "arpa" trigram.

(** The world after the validation and the preparation of the corpus. *)
Definition prepared (w : world) : world :=
  snd ((check_parameters trigram ;; _prepare_lang machine trigram) w).

(** The world a first run leaves, from the text alone. *)
Definition after_first_run : world :=
  snd (run machine trigram (created trigram)).

End Stub.

(** ** Vocabulary of the statements *)

(** A substitution whose key is not empty and has no space. *)
Definition clean_key (kv : string * string) : bool :=
  negb (Py.is_empty (fst kv)) &&
  Py.sall (fun c => negb (Ascii.eqb c " ")) (fst kv).

(** The text [v] does not begin with a character of the class. *)
Definition stops (cls : ascii -> bool) (v : string) : Prop :=
  match v with
  | EmptyString => True
  | String c _ => cls c = false
  end.

(** Neither a newline nor a tabulation; not a whitespace. *)
Definition no_tab_nl (c : ascii) : bool :=
  Re.dot c && negb (Ascii.eqb c Py.tab).

Definition plain (c : ascii) : bool := negb (Py.is_space c).

(** An OOV candidate is a token with its frequency; its line in the
    temporary OOV file; whether the filter retains it; and its line in the
    lexicon: the lowercased token, then its parts between colons. *)
Definition candidate_line (candidate : string * Z) : string :=
  AIC.oov_line (fst candidate) (snd candidate).

Definition retained (candidate : string * Z) : bool :=
  (1 <? snd candidate)%Z.

Definition pseudo_entry (candidate : string * Z) : string :=
  let sound := Py.lower (fst candidate) in
  AIC.lex_line sound (Py.join " " (Py.split ":" sound)).

(** No upper case letter, no lower case letter (of ASCII, as [lower] and
    [upper] of a byte string know no other). *)
Definition lowercase (w : string) : Prop :=
  Py.sall (fun c => negb (Py.is_upper c)) w = true.

Definition uppercase (w : string) : Prop :=
  Py.sall (fun c => negb (Py.is_lower c)) w = true.

Definition any (e : LM.event) : Prop := True.

(** One of the two artifacts that spare the n-gram computation is there. *)
Definition seeded (self : LM.recipe) (w : LM.world) : Prop :=
  LM.isfile (LM.files w) (LM.G_txt self) = true \/
  LM.isfile (LM.files w) (LM.G_arpa self) = true.

(** ** [os.path] on POSIX path names, as [posixpath] of Python 2 has them *)

Module Os.

(** [os.path.basename(p)], that is [p[p.rfind('/') + 1:]]: what follows
    the last slash. *)
Definition basename (p : string) : string :=
  last (Py.split "/" p) "".

(** [p[:p.rfind('/') + 1]]: [p] up to its last slash, the slash kept. *)
Fixpoint head (p : string) : string :=
  match p with
  | EmptyString => EmptyString
  | String c p' =>
      let h := head p' in
      if Py.is_empty h
      then (if Ascii.eqb c "/" then String c "" else "")
      else String c h
  end.

(** [s.rstrip('/')] *)
Fixpoint rstrip_slash (s : string) : string :=
  match s with
  | EmptyString => EmptyString
  | String c s' =>
      let r := rstrip_slash s' in
      if Ascii.eqb c "/" && Py.is_empty r then EmptyString else String c r
  end.

(** [os.path.dirname(p)] *)
Definition dirname (p : string) : string :=
  let head := head p in
  if negb (Py.is_empty head) &&
     negb (Py.sall (fun c => Ascii.eqb c "/") head)
  then rstrip_slash head
  else head.

(** [s.endswith('/')] *)
Fixpoint ends_with_slash (s : string) : bool :=
  match s with
  | EmptyString => false
  | String c EmptyString => Ascii.eqb c "/"
  | String _ s' => ends_with_slash s'
  end.

(** [os.path.join(a, b)] *)
Definition join (a b : string) : string :=
  if Py.startswith "/" b then b
  else if Py.is_empty a || ends_with_slash a then a ++ b
  else a ++ "/" ++ b.

End Os.

(** ** [aic_preparator.py]: the inventory and the other files of the corpus *)

Module AICCorpus.

(** The class attribute [phones]: the AIC symbols with their IPA
    transcription (a [unicode] object in the source, here its UTF-8
    bytes), in the order of the source. *)
Definition phones : AIC.dict string :=
  [("a", "ɑː"); ("xq", "æ"); ("xa", "ʌ"); ("c", "ɔː"); ("xw", "aʊ");
   ("xy", "aɪ"); ("xr", "ɝ"); ("xe", "ɛ"); ("e", "eɪ"); ("xi", "ɪ");
   ("i", "iː"); ("o", "oʊ"); ("xo", "ɔɪ"); ("xu", "ʊ"); ("u", "uː");
   ("b", "b"); ("xc", "ʧ"); ("d", "d"); ("xd", "ð"); ("f", "f");
   ("g", "g"); ("h", "h"); ("xj", "ʤ"); ("k", "k"); ("l", "l");
   ("m", "m"); ("n", "n"); ("xg", "ŋ"); ("p", "p"); ("r", "r");
   ("s", "s"); ("xs", "ʃ"); ("t", "t"); ("xt", "θ"); ("v", "v");
   ("w", "w"); ("y", "j"); ("z", "z"); ("xz", "ʒ")].

Definition silences : list string := ["NSN"].

Definition variants : list string := [].

(** [list_audio_files]; [flacs] is what [list_files_with_extension]
    finds in the input directory. *)
Definition list_audio_files (flacs : list string)
  : list string * list string :=
  let wavs :=
    map (fun flac => Py.replace ".flac" ".wav" (Os.basename flac)) flacs in
  (flacs, wavs).

(** Body of the loop of [make_segment]: the line it writes. *)
Definition segment_line (wav : string) : string :=
  let bname := Os.basename wav in
  let utt_id := Py.replace ".wav" "" bname in
  utt_id ++ " " ++ bname ++ AIC.newline.

(** [make_segment]: the content of the segments file; [wavs] is what
    [list_files_with_extension] finds in the wavs directory. *)
Definition make_segment (wavs : list string) : string :=
  Py.cat (map segment_line wavs).

(** Body of the loop of [make_speaker]: the line it writes. *)
Definition speaker_line (wav : string) : string :=
  let bname := Os.basename wav in
  let utt_id := Py.replace ".wav" "" bname in
  let speaker_id := nth 0 (Py.split "_" bname) "" in
  utt_id ++ " " ++ speaker_id ++ AIC.newline.

(** [make_speaker]: the content of the utt2spk file. *)
Definition make_speaker (wavs : list string) : string :=
  Py.cat (map speaker_line wavs).

(** [make_transcription]: the content of the transcription file, from
    the contents of [data/text/normal.txt] and [data/text/weird.txt]. *)
Definition make_transcription (input_file1 input_file2 : string) : string :=
  Py.cat (Py.readlines input_file1) ++ Py.cat (Py.readlines input_file2).

End AICCorpus.

(** ** [abkhazia_align.py]: the [align] command *)

Module Align.

(** The parsed command line, as far as [run] reads it once the corpus
    is loaded. *)
Record args := Args {
  njobs : Z;
  acoustic_scale : Q;
  post : bool;
  no_lattice : bool;
  phones_only : bool;
  words_only : bool;
  language_model : option string;
  features : option string;
  acoustic_model : option string;
  recipe : bool
}.

(** The two recipe classes of [abkhazia.align]. *)
Inductive recipe_class :=
| Align
| AlignNoLattice.

(** The recipe object with the attributes [run] assigns. *)
Record aligner := Aligner {
  class : recipe_class;
  r_njobs : Z;
  level : string;
  with_posteriors : bool;
  r_acoustic_scale : Q;
  lm_dir : string;
  feat_dir : string;
  am_dir : string;
  delete_recipe : bool
}.

Inductive outcome :=
| Configured (r : aligner)      (* [create], [run] and [export] follow *)
| NotImplementedError.

Section Run.
(** [os.path.abspath] depends on the working directory: left open. *)
Variable abspath : string -> string.

(** [run], from the corpus directory [_parse_io_dirs] returned up to the
    recipe as it is configured. *)
Definition run (corpus_dir : string) (a : args) : outcome :=
  (* get back the language model directory *)
  let lang :=
    match language_model a with
    | None => Os.join (Os.dirname corpus_dir) "language"
    | Some d => abspath d
    end in
  (* get back the acoustic model directory *)
  let acoustic :=
    match acoustic_model a with
    | None => Os.join (Os.dirname corpus_dir) "acoustic"
    | Some d => abspath d
    end in
  (* get back the features directory *)
  let feat :=
    match features a with
    | None => Os.join (Os.dirname corpus_dir) "features"
    | Some d => abspath d
    end in
  (* parse the alignment level *)
  let level :=
    if words_only a then "words"
    else if phones_only a then "phones"
    else "both" in
  if String.eqb level "words" && post a then NotImplementedError
  else
    Configured
      (Aligner (if no_lattice a then AlignNoLattice else Align)
               (njobs a) level (post a) (acoustic_scale a)
               lang feat acoustic
               (if recipe a then false else true)).
End Run.

(** What [argparse] enforces before [run] is called: the two groups of
    [add_parser] that are mutually exclusive. *)
Definition parsed (a : args) : Prop :=
  (post a && no_lattice a = false) /\
  (phones_only a && words_only a = false).

End Align.

(** ** More test doubles *)

Module Fixture.
Import LM.

(** A recipe directory where [create] has left no text to model. *)
Definition without_text : world :=
  World (Stub.mkfs [ (output_dir Stub.trigram, Dir);
                     (local_path Stub.trigram, Dir) ])
        [].

(** Programs that all fail and touch nothing. *)
Definition failing_tools (c : call) (fs : filesystem) : job :=
  Job false "error" fs.

Definition failing_machine : system :=
  System failing_tools (fun _ => Stub.temp_dir) (fun _ => Stub.temp_file)
         (fun s => "gz " ++ s) (fun _ => "").

End Fixture.

(** ** More vocabulary of the statements *)

(** [s] without the characters that satisfy [drop]. *)
Fixpoint without (drop : ascii -> bool) (s : string) : string :=
  match s with
  | EmptyString => EmptyString
  | String c s' =>
      if drop c then without drop s' else String c (without drop s')
  end.

(** No two whitespace characters in a row. *)
Fixpoint single_spaced (s : string) : bool :=
  match s with
  | String a (String b _ as t) =>
      negb (Py.is_space a && Py.is_space b) && single_spaced t
  | _ => true
  end.

(** A token: not empty and without whitespace. *)
Definition token (t : string) : bool :=
  negb (Py.is_empty t) && Py.sall plain t.

(** How many times [w] is in [ws]. *)
Definition occurrences (w : string) (ws : list string) : Z :=
  Z.of_nat (count_occ string_dec ws w).

(** The words a transcription line contributes to the count, and those
    of a whole transcription file. *)
Definition words_of_line (line : string) : list string :=
  match Re.rmatch AIC.re_transcription line with
  | Some gs => Py.split_ws (Py.upper (Re.group gs 4))
  | None => []
  end.

Definition spoken_words (transcription_file : string) : list string :=
  flat_map words_of_line (Py.readlines transcription_file).

(** Counts from larger to smaller. *)
Definition descending (l : list (string * Z)) : Prop :=
  StronglySorted (fun x y => (snd y <= snd x)%Z) l.

(** Whether the CMU dictionary has the word of [item]; the line of the
    temporary lexicon for it; and its line in the lexicon. *)
Definition known (cmu_dict : AIC.dict string) (item : string * Z) : bool :=
  match AIC.dict_get cmu_dict (fst item) with
  | Some _ => true
  | None => false
  end.

Definition unknown (cmu_dict : AIC.dict string) (item : string * Z) : bool :=
  negb (known cmu_dict item).

Definition pronunciation (cmu_dict : AIC.dict string) (item : string * Z)
  : string :=
  match AIC.dict_get cmu_dict (fst item) with
  | Some phn => phn
  | None => ""
  end.

Definition temp_entry (cmu_dict : AIC.dict string) (item : string * Z)
  : string :=
  AIC.lex_line (fst item) (pronunciation cmu_dict item).

Definition dictionary_entry (cmu_dict : AIC.dict string) (item : string * Z)
  : string :=
  AIC.lex_line (Py.lower (fst item))
               (AIC.cmu_to_aic (pronunciation cmu_dict item)).

(** The parameters [check_parameters] accepts. *)
(** An order that is a string or, on every platform, a Python [int]:
    [sys.maxint] is at least 2^31 - 1. *)
Definition str_or_int (v : LM.value) : Prop :=
  match v with
  | LM.Int n => (- 2 ^ 31 <= n <= 2 ^ 31 - 1)%Z
  | LM.Str _ => True
  end.

Definition valid_parameters (self : LM.recipe) : Prop :=
  (LM.level self = "word" \/ LM.level self = "phone") /\
  (exists n, LM.order self = LM.Int n /\ (1 <= n)%Z) /\
  (0 <= LM.silence_probability self /\ LM.silence_probability self <= 1)%Q.

(** The temporary files of the n-gram computation and the programs it
    runs. *)
Definition ngram_temporaries (self : LM.recipe) : list LM.path :=
  [ (LM.local_path self ++ ["text_ready.txt"])%list;
    (LM.local_path self ++ ["text_se.txt"])%list;
    (LM.local_path self ++ ["text_lm.gz"])%list;
    (LM.local_path self ++ ["text_blm.gz"])%list ].

Definition ngram_calls (self : LM.recipe) : list LM.call :=
  [ LM.AddStartEnd (LM.local_path self ++ ["text_ready.txt"])%list;
    LM.BuildLm (LM.local_path self ++ ["text_se.txt"])%list (LM.order self)
               (LM.local_path self ++ ["text_lm.gz"])%list;
    LM.CompileLm (LM.local_path self ++ ["text_lm.gz"])%list
                 (LM.local_path self ++ ["text_blm.gz"])%list ].

(** A line of the text to model: an utterance id, then its words. *)
Definition utterance_line (utt : string * list string) : string :=
  Py.join " " (fst utt :: snd utt) ++ AIC.newline.

(** The character [x] is not in [s]. *)
Definition free_of (x : ascii) (s : string) : bool :=
  Py.sall (fun c => negb (Ascii.eqb c x)) s.

(** An audio file of the corpus: the speaker, then what tells the
    utterance, joined by an underscore into the name of the file without
    its extension. *)
Definition stem (u : string * string) : string :=
  fst u ++ "_" ++ snd u.

(** Names the preparator can take apart: no dot and no slash in the
    name, no underscore in the speaker. *)
Definition well_named (u : string * string) : bool :=
  free_of "_" (fst u) && free_of "." (stem u) && free_of "/" (stem u).

(** What is not at [a] before is not there after. *)
Definition stays_absent (a : LM.path) (w w' : LM.world) : Prop :=
  LM.files w a = None -> LM.files w' a = None.

(** [m] relates every world to the world it leaves when it raises. *)
Definition keeps_on_raise {A} (R : LM.world -> LM.world -> Prop)
    (m : LM.M A) : Prop :=
  forall w e w', m w = (LM.Raise e, w') -> R w w'.

(** The command line of the preparation script. *)
Definition prepare_lang_call (self : LM.recipe) : LM.call :=
  LM.PrepareLang (LM.prepare_lang_script self)
    (LM.position_dependent_phones self) (LM.silence_probability self)
    (LM.local_path self) (LM.output_dir self ++ ["local"])%list
    (LM.output_dir self).

(** A text that is empty or ends with a newline: whole lines. *)
Definition whole_lines (s : string) : Prop :=
  s = "" \/ exists a, s = a ++ AIC.newline.

(** The characters that may begin a transcription line: the speaker. *)
Definition speaker_char (c : ascii) : bool :=
  Re.one_of "fm" c || Py.is_digit c.

(** A line of the transcription: the speaker, the kind of the prompt,
    the rest of the utterance id, and the text. *)
Definition transcription_line (speaker : string) (kind : ascii)
    (id text : string) : string :=
  speaker ++ "_" ++ String kind ("_" ++ id ++ " " ++ text ++ AIC.newline).

(* ================================================================== *)
(** * Part II.  Properties                                              *)
(* ================================================================== *)

(** ** Strings *)

Section StringFacts.

Lemma append_nil_r (s : string) : s ++ "" = s.
Proof. induction s; simpl; congruence. Qed.

Lemma append_assoc (a b c : string) : (a ++ b) ++ c = a ++ (b ++ c).
Proof. induction a; simpl; congruence. Qed.

Lemma snoc_append (s : string) (c : ascii) (t : string) :
  Py.snoc s c ++ t = s ++ String c t.
Proof. unfold Py.snoc. now rewrite append_assoc. Qed.

Lemma sall_append p (a b : string) :
  Py.sall p (a ++ b) = Py.sall p a && Py.sall p b.
Proof.
  induction a as [|c a IH]; simpl; [reflexivity|].
  now rewrite IH, andb_assoc.
Qed.

Lemma sall_smap p f (s : string) :
  Py.sall p (Py.smap f s) = Py.sall (fun c => p (f c)) s.
Proof. induction s; simpl; congruence. Qed.

Lemma sall_impl (p q : ascii -> bool) (s : string) :
  (forall c, p c = true -> q c = true) ->
  Py.sall p s = true -> Py.sall q s = true.
Proof.
  intros Hpq. induction s as [|c s IH]; simpl; [reflexivity|].
  rewrite !andb_true_iff. intros [Hc Hs]. split; auto.
Qed.

Lemma cat_app (l1 l2 : list string) :
  Py.cat (l1 ++ l2) = Py.cat l1 ++ Py.cat l2.
Proof.
  induction l1 as [|x l1 IH]; simpl; [reflexivity|].
  now rewrite IH, append_assoc.
Qed.

End StringFacts.

(** ** [str.replace] on space-separated tokens *)

Lemma startswith_before_space (old t r : string) :
  Py.sall (fun c => negb (Ascii.eqb c " ")) old = true ->
  Py.startswith old (t ++ String " " r) = Py.startswith old t.
Proof.
  revert t. induction old as [|a o IH]; intros t Hns; [reflexivity|].
  simpl in Hns. apply andb_true_iff in Hns as [Ha Ho].
  destruct t as [|b t]; simpl.
  - apply negb_true_iff in Ha. now rewrite Ha.
  - now rewrite IH.
Qed.

Lemma startswith_length (p s : string) :
  Py.startswith p s = true -> String.length p <= String.length s.
Proof.
  revert s. induction p as [|a p IH]; intros s; simpl; [lia|].
  destruct s as [|b s]; [discriminate|].
  rewrite andb_true_iff. intros [_ H]. apply IH in H. simpl. lia.
Qed.

Lemma startswith_empty (old : string) :
  old <> "" -> Py.startswith old "" = false.
Proof. destruct old; [congruence | reflexivity]. Qed.

Lemma replace_nonempty (old new s : string) :
  old <> "" -> Py.replace old new s = Py.replace_from old new 0 s.
Proof. destruct old; [congruence | reflexivity]. Qed.

Section Replace.
Variables old new : string.
Hypothesis old_nonempty : old <> "".
Hypothesis old_no_space :
  Py.sall (fun c => negb (Ascii.eqb c " ")) old = true.

Lemma replace_from_token (tok : string) :
  forall (k : nat) (rest : string),
    k <= String.length tok ->
    Py.replace_from old new k (tok ++ String " " rest) =
    Py.replace_from old new k tok ++
    String " " (Py.replace_from old new 0 rest).
Proof.
  induction tok as [|c tok IH]; intros k rest Hk.
  - assert (k = 0) by (simpl in Hk; lia). subst k. simpl.
    change (String " " rest) with ("" ++ String " " rest).
    rewrite startswith_before_space by assumption.
    now rewrite startswith_empty.
  - destruct k as [|k].
    + cbn [append Py.replace_from].
      change (String c (tok ++ String " " rest))
        with (String c tok ++ String " " rest).
      rewrite startswith_before_space by assumption.
      destruct (Py.startswith old (String c tok)) eqn:E.
      * apply startswith_length in E. simpl in E.
        rewrite IH by lia. now rewrite append_assoc.
      * rewrite IH by lia. reflexivity.
    + cbn [append Py.replace_from]. apply IH. simpl in Hk. lia.
Qed.

Lemma replace_token (tok rest : string) :
  Py.replace old new (tok ++ String " " rest) =
  Py.replace old new tok ++ String " " (Py.replace old new rest).
Proof.
  rewrite !replace_nonempty by assumption.
  apply replace_from_token. lia.
Qed.

End Replace.

(** ** The CMU to AIC remapping *)

Lemma is_empty_false (s : string) : Py.is_empty s = false -> s <> "".
Proof. destruct s; [discriminate | congruence]. Qed.

Lemma substitute_token (table : list (string * string)) :
  forallb clean_key table = true ->
  forall tok rest,
    AIC.substitute table (tok ++ String " " rest) =
    AIC.substitute table tok ++ String " " (AIC.substitute table rest).
Proof.
  unfold AIC.substitute.
  induction table as [|[old new] table IH]; intros Hk tok rest;
    [reflexivity|].
  simpl in Hk. apply andb_true_iff in Hk as [Hkv Hk].
  apply andb_true_iff in Hkv as [Hne Hns]. simpl in Hne, Hns.
  apply negb_true_iff, is_empty_false in Hne.
  simpl. rewrite replace_token by assumption. now apply IH.
Qed.

Lemma substitute_join (table : list (string * string)) :
  forallb clean_key table = true ->
  forall codes,
    AIC.substitute table (Py.join " " codes) =
    Py.join " " (map (AIC.substitute table) codes).
Proof.
  intros Hk. induction codes as [|c [|c' codes] IH].
  - simpl. unfold AIC.substitute.
    induction table as [|[old new] table IHt]; [reflexivity|].
    simpl in Hk. apply andb_true_iff in Hk as [Hkv Hk].
    apply andb_true_iff in Hkv as [Hne _]. simpl in Hne.
    apply negb_true_iff, is_empty_false in Hne.
    simpl. rewrite replace_nonempty by assumption. now apply IHt.
  - reflexivity.
  - change (Py.join " " (c :: c' :: codes))
      with (c ++ String " " (Py.join " " (c' :: codes))).
    rewrite substitute_token by assumption. rewrite IH. reflexivity.
Qed.

Lemma cmu_to_aic_code (code : string) :
  In code (map fst AIC.cmu_to_aic_table) ->
  AIC.cmu_to_aic code = AIC.aic_symbol code.
Proof.
  intros H.
  assert (Hall : forallb (fun code =>
             String.eqb (AIC.cmu_to_aic code) (AIC.aic_symbol code))
            (map fst AIC.cmu_to_aic_table) = true) by (vm_compute; reflexivity).
  rewrite forallb_forall in Hall. now apply String.eqb_eq, Hall.
Qed.

(** C5.  The chain of [replace] calls of [make_lexicon_aux] makes every
    two-letter substitution before any one-letter substitution, and on every
    sequence of CMU codes separated by spaces its result is the sequence of
    their AIC symbols, each code taken as a whole: no two-letter code is
    broken by a substitution on one of its letters. *)
Theorem cmu_to_aic_longest_match_first :
  map fst AIC.cmu_to_aic_table =
    (AIC.two_letter_codes ++ AIC.one_letter_codes)%list /\
  Forall (fun code => String.length code = 2) AIC.two_letter_codes /\
  Forall (fun code => String.length code = 1) AIC.one_letter_codes /\
  forall codes : list string,
    Forall (fun code => In code (map fst AIC.cmu_to_aic_table)) codes ->
    AIC.cmu_to_aic (Py.join " " codes) =
    Py.join " " (map AIC.aic_symbol codes).
Proof.
  split; [reflexivity|].
  split; [repeat constructor|].
  split; [repeat constructor|].
  intros codes Hcodes. unfold AIC.cmu_to_aic.
  rewrite substitute_join by (vm_compute; reflexivity).
  f_equal. apply map_ext_in. intros code Hin.
  rewrite Forall_forall in Hcodes. now apply cmu_to_aic_code, Hcodes.
Qed.

Lemma cmu_to_aic_longest_match_first_witness :
  AIC.cmu_to_aic "AA AH HH DH D TH T SH S NG N G ZH Z" =
  "a xa h xd d xt t xs s xg n g xz z".
Proof.
  apply (proj2 (proj2 (proj2 cmu_to_aic_longest_match_first))
           ["AA"; "AH"; "HH"; "DH"; "D"; "TH"; "T"; "SH"; "S"; "NG"; "N";
            "G"; "ZH"; "Z"]).
  repeat (apply Forall_cons; [simpl; tauto|]). apply Forall_nil.
Defined.

(** ** Backtracking search *)

Section SearchFacts.
Variable R : Type.
Variable cls : ascii -> bool.
Variable k : string -> string -> option R.

Lemma greedy_stop (cap v : string) :
  stops cls v -> Re.greedy cls k cap v = k cap v.
Proof.
  destruct v as [|c v]; simpl; [reflexivity|]. now intros ->.
Qed.

(** The longest run is tried first: if the search succeeds after the whole
    run [u], that is the answer. *)
Lemma greedy_run (u : string) :
  forall cap v r,
    Py.sall cls u = true ->
    Re.greedy cls k (cap ++ u) v = Some r ->
    Re.greedy cls k cap (u ++ v) = Some r.
Proof.
  induction u as [|c u IH]; intros cap v r Hu Hr.
  - now rewrite append_nil_r in Hr.
  - simpl in Hu. apply andb_true_iff in Hu as [Hc Hu].
    simpl. rewrite Hc.
    rewrite (IH (Py.snoc cap c) v r); auto.
    now rewrite snoc_append.
Qed.

(** If the rest of the pattern fails at every point of the run [u], and
    after it, the search fails. *)
Lemma greedy_fail (u : string) :
  forall cap v,
    stops cls v ->
    (forall u1 u2, u = u1 ++ u2 -> k (cap ++ u1) (u2 ++ v) = None) ->
    Re.greedy cls k cap (u ++ v) = None.
Proof.
  induction u as [|c u IH]; intros cap v Hv Hk.
  - simpl. rewrite greedy_stop by assumption.
    specialize (Hk "" "" eq_refl). now rewrite append_nil_r in Hk.
  - simpl. assert (H0 := Hk "" (String c u) eq_refl).
    rewrite append_nil_r in H0. simpl in H0.
    destruct (cls c); [|exact H0].
    rewrite IH; auto.
    intros u1 u2 ->. rewrite snoc_append.
    apply (Hk (String c u1) u2). reflexivity.
Qed.

End SearchFacts.

(** ** A line of the temporary OOV file *)

Lemma head_not_tab (d v : string) :
  Py.sall no_tab_nl d = true ->
  match d ++ String Py.nl v with
  | String c _ => Re.chr Py.tab c = false
  | EmptyString => False
  end.
Proof.
  destruct d as [|c d]; simpl; [reflexivity|].
  unfold no_tab_nl. rewrite !andb_true_iff, negb_true_iff.
  intros [[_ H] _]. exact H.
Qed.

Lemma append_split_tail (d d1 d2 : string) p :
  d = d1 ++ d2 -> Py.sall p d = true -> Py.sall p d2 = true.
Proof.
  intros ->. rewrite sall_append, andb_true_iff. tauto.
Qed.

Lemma rmatch_oov_line (w d : string) :
  Py.sall Re.dot w = true ->
  Py.sall no_tab_nl d = true ->
  Re.rmatch AIC.re_oov (w ++ AIC.tabulation ++ d ++ AIC.newline)
  = Some [w; d].
Proof.
  intros Hw Hd.
  assert (Hdot : Py.sall Re.dot d = true).
  { revert Hd. apply sall_impl. unfold no_tab_nl. intros c.
    rewrite andb_true_iff. tauto. }
  unfold AIC.re_oov, AIC.tabulation, AIC.newline.
  cbn [Re.rmatch Re.grp Re.lit Re.a_quant Re.a_class Re.a_group append].
  apply greedy_run with (cap := ""); [assumption|].
  cbn [append Re.greedy].
  replace (Re.dot Py.tab) with true by reflexivity.
  rewrite greedy_fail.
  - cbn. replace (Re.chr Py.tab Py.tab) with true by reflexivity.
    cbn. erewrite greedy_run with (cap := "") (r := [d]).
    + reflexivity.
    + assumption.
    + rewrite greedy_stop by reflexivity. reflexivity.
  - reflexivity.
  - intros d1 d2 E. pose proof (@append_split_tail _ _ _ _ E Hd) as Hd2.
    pose proof (@head_not_tab d2 "" Hd2) as Hh.
    cbn [option_map]. 
    destruct (d2 ++ String Py.nl "") as [|c rest]; [contradiction|].
    cbn. now rewrite Hh.
Qed.

(** ** [str] and [int] on integers *)

Lemma lstrip_plain (s : string) : Py.sall plain s = true -> Py.lstrip s = s.
Proof.
  destruct s as [|c s]; simpl; [reflexivity|].
  unfold plain. rewrite andb_true_iff, negb_true_iff. now intros [-> _].
Qed.

Lemma rstrip_plain (s : string) : Py.sall plain s = true -> Py.rstrip s = s.
Proof.
  induction s as [|c s IH]; simpl; [reflexivity|].
  unfold plain at 1. rewrite andb_true_iff, negb_true_iff.
  intros [-> Hs]. simpl. now rewrite IH.
Qed.

Lemma strip_plain (s : string) : Py.sall plain s = true -> Py.strip s = s.
Proof.
  intros H. unfold Py.strip. rewrite lstrip_plain by assumption.
  now apply rstrip_plain.
Qed.

Lemma digits_of_uint (d : Decimal.uint) :
  Py.sall Py.is_digit (NilEmpty.string_of_uint d) = true.
Proof. induction d; simpl; auto. Qed.

Lemma parse_digits_of_uint (d : Decimal.uint) :
  forall d0 : Decimal.uint,
    Py.parse_digits (Z.of_N (DecimalPos.Unsigned.of_lu d0))
      (NilEmpty.string_of_uint d)
    = Some (Z.of_N (DecimalPos.Unsigned.of_lu (Decimal.revapp d d0))).
Proof.
  induction d as [|d IH|d IH|d IH|d IH|d IH|d IH|d IH|d IH|d IH|d IH];
    intros d0; [reflexivity|..];
    cbn [NilEmpty.string_of_uint Py.parse_digits Decimal.revapp];
    match goal with
    | |- context [Py.is_digit ?c] =>
        replace (Py.is_digit c) with true by reflexivity
    end;
    rewrite <- IH; f_equal;
    cbn [DecimalPos.Unsigned.of_lu]; unfold Py.digit_value;
    cbn [N_of_ascii N_of_digits]; lia.
Qed.

Lemma to_uint_not_nil (p : positive) : Pos.to_uint p <> Decimal.Nil.
Proof.
  intros E. pose proof (DecimalPos.Unsigned.of_to p) as H.
  rewrite E in H. discriminate.
Qed.

Lemma parse_unsigned_pos (p : positive) :
  Py.parse_unsigned (NilEmpty.string_of_uint (Pos.to_uint p)) = Some (Z.pos p).
Proof.
  unfold Py.parse_unsigned.
  assert (Hne : Py.is_empty (NilEmpty.string_of_uint (Pos.to_uint p)) = false).
  { pose proof (to_uint_not_nil p).
    destruct (Pos.to_uint p); try reflexivity; congruence. }
  rewrite Hne.
  change 0%Z with (Z.of_N (DecimalPos.Unsigned.of_lu Decimal.Nil)).
  rewrite parse_digits_of_uint.
  change (Decimal.revapp (Pos.to_uint p) Decimal.Nil)
    with (Decimal.rev (Pos.to_uint p)).
  rewrite <- DecimalPos.Unsigned.of_uint_alt, DecimalPos.Unsigned.of_to.
  reflexivity.
Qed.
Lemma digit_is_plain (c : ascii) : Py.is_digit c = true -> plain c = true.
Proof.
  unfold Py.is_digit, plain, Py.is_space.
  rewrite andb_true_iff, negb_true_iff, orb_false_iff, andb_false_iff.
  rewrite !N.leb_le, !N.leb_gt, N.eqb_neq. lia.
Qed.

Lemma digit_not_sign (c : ascii) :
  Py.is_digit c = true -> c <> "-"%char /\ c <> "+"%char.
Proof. intros H; split; intros ->; discriminate. Qed.

Lemma int_of_digits (s : string) :
  Py.sall Py.is_digit s = true ->
  Py.int_of_str s = Py.parse_unsigned s.
Proof.
  intros H. unfold Py.int_of_str.
  rewrite strip_plain by (revert H; apply sall_impl, digit_is_plain).
  destruct s as [|c s]; [reflexivity|].
  simpl in H. apply andb_true_iff in H as [Hc _].
  destruct (@digit_not_sign c Hc) as [H1 H2].
  destruct c as [[] [] [] [] [] [] [] []]; try reflexivity; congruence.
Qed.

Lemma str_of_int_pos (p : positive) :
  Py.str_of_int (Z.pos p) = NilEmpty.string_of_uint (Pos.to_uint p).
Proof.
  unfold Py.str_of_int. cbn [Z.to_int NilZero.string_of_int].
  unfold NilZero.string_of_uint.
  pose proof (to_uint_not_nil p).
  destruct (Pos.to_uint p); try reflexivity; congruence.
Qed.

Lemma str_of_int_neg (p : positive) :
  Py.str_of_int (Z.neg p) =
  String "-" (NilEmpty.string_of_uint (Pos.to_uint p)).
Proof.
  unfold Py.str_of_int. cbn [Z.to_int NilZero.string_of_int].
  unfold NilZero.string_of_uint.
  pose proof (to_uint_not_nil p).
  destruct (Pos.to_uint p); try reflexivity; congruence.
Qed.

(** [int(str(n)) == n] *)
Lemma int_of_str_of_int (n : Z) : Py.int_of_str (Py.str_of_int n) = Some n.
Proof.
  destruct n as [|p|p].
  - reflexivity.
  - rewrite str_of_int_pos, int_of_digits by apply digits_of_uint.
    apply parse_unsigned_pos.
  - rewrite str_of_int_neg. unfold Py.int_of_str.
    rewrite strip_plain.
    + rewrite parse_unsigned_pos. reflexivity.
    + simpl. generalize (digits_of_uint (Pos.to_uint p)).
      apply sall_impl, digit_is_plain.
Qed.

(** [str(n)] has neither a tabulation nor a newline. *)
Lemma str_of_int_no_tab_nl (n : Z) :
  Py.sall no_tab_nl (Py.str_of_int n) = true.
Proof.
  assert (Hd : forall c, Py.is_digit c = true -> no_tab_nl c = true).
  { intros c. unfold Py.is_digit, no_tab_nl, Re.dot.
    rewrite !andb_true_iff, !negb_true_iff, !N.leb_le. intros [H1 H2].
    split; apply Ascii.eqb_neq; intros ->; vm_compute in H1; congruence. }
  destruct n as [|p|p].
  - reflexivity.
  - rewrite str_of_int_pos. generalize (digits_of_uint (Pos.to_uint p)).
    now apply sall_impl.
  - rewrite str_of_int_neg. simpl.
    generalize (digits_of_uint (Pos.to_uint p)). now apply sall_impl.
Qed.

(** ** Reading back the lines that were written *)

Lemma lines_from_line (body : string) :
  forall cur rest,
    Py.sall Re.dot body = true ->
    Py.lines_from cur (body ++ String Py.nl rest) =
    (cur ++ body ++ AIC.newline) :: Py.lines_from "" rest.
Proof.
  induction body as [|c body IH]; intros cur rest Hb.
  - reflexivity.
  - simpl in Hb. apply andb_true_iff in Hb as [Hc Hb].
    cbn [append Py.lines_from].
    unfold Re.dot in Hc. apply negb_true_iff in Hc. rewrite Hc.
    rewrite IH by assumption. now rewrite snoc_append.
Qed.

Lemma readlines_cat (bodies : list string) :
  Forall (fun b => Py.sall Re.dot b = true) bodies ->
  Py.readlines (Py.cat (map (fun b => b ++ AIC.newline) bodies)) =
  map (fun b => b ++ AIC.newline) bodies.
Proof.
  unfold Py.readlines.
  induction 1 as [|b bodies Hb _ IH]; [reflexivity|].
  cbn [map Py.cat fold_right]. unfold AIC.newline at 1.
  rewrite append_assoc. cbn [append].
  rewrite lines_from_line by assumption. cbn [append].
  f_equal. exact IH.
Qed.

(** ** The loop over the temporary OOV file *)

Lemma oov_line_body (word : string) (freq : Z) :
  AIC.oov_line word freq =
  (word ++ AIC.tabulation ++ Py.str_of_int freq) ++ AIC.newline.
Proof. unfold AIC.oov_line. now rewrite !append_assoc. Qed.

Lemma oov_body_no_newline (word : string) (freq : Z) :
  Py.sall Re.dot word = true ->
  Py.sall Re.dot (word ++ AIC.tabulation ++ Py.str_of_int freq) = true.
Proof.
  intros Hw. rewrite !sall_append, Hw. simpl.
  generalize (str_of_int_no_tab_nl freq). apply sall_impl.
  intros c. unfold no_tab_nl. rewrite andb_true_iff. tauto.
Qed.

Lemma rmatch_oov (word : string) (freq : Z) :
  Py.sall Re.dot word = true ->
  Re.rmatch AIC.re_oov (AIC.oov_line word freq) =
  Some [word; Py.str_of_int freq].
Proof.
  intros Hw. unfold AIC.oov_line.
  apply rmatch_oov_line; [assumption | apply str_of_int_no_tab_nl].
Qed.

Lemma oov_step_line (word : string) (freq : Z) :
  Py.sall Re.dot word = true ->
  AIC.oov_step (AIC.oov_line word freq) =
  if (1 <? freq)%Z then AIC.Written (AIC.sound_line (Py.lower word))
  else AIC.Logged (Py.lower word).
Proof.
  intros Hw. unfold AIC.oov_step. rewrite rmatch_oov by assumption.
  cbn [Re.group Nat.sub nth]. now rewrite int_of_str_of_int.
Qed.

Lemma split_from_nonempty sep (s : string) :
  forall cur, Py.split_from sep cur s <> [].
Proof.
  induction s as [|c s IH]; intros cur; simpl; [discriminate|].
  destruct (Ascii.eqb c sep); [discriminate | apply IH].
Qed.

Lemma cat_spaced (parts : list string) :
  parts <> [] ->
  Py.cat (map (fun phn => " " ++ phn) parts) = " " ++ Py.join " " parts.
Proof.
  induction parts as [|p [|q parts] IH]; intros Hne.
  - congruence.
  - simpl. now rewrite append_nil_r.
  - change (Py.join " " (p :: q :: parts))
      with (p ++ " " ++ Py.join " " (q :: parts)).
    cbn [map Py.cat fold_right] in *.
    rewrite IH by discriminate. now rewrite !append_assoc.
Qed.

(** The line written for a sound is the sound, then its parts between
    colons, separated by spaces. *)
Lemma sound_line_entry (sound : string) :
  AIC.sound_line sound =
  AIC.lex_line sound (Py.join " " (Py.split ":" sound)).
Proof.
  unfold AIC.sound_line, AIC.lex_line.
  rewrite cat_spaced by apply split_from_nonempty.
  now rewrite !append_assoc.
Qed.

Lemma oov_loop_candidates (candidates : list (string * Z)) :
  Forall (fun c => Py.sall Re.dot (fst c) = true) candidates ->
  forall out,
    AIC.oov_loop (map candidate_line candidates) out =
    AIC.Ok (out ++ Py.cat (map pseudo_entry (filter retained candidates))).
Proof.
  induction 1 as [|[word freq] candidates Hw _ IH]; intros out.
  - simpl. now rewrite append_nil_r.
  - cbn [map AIC.oov_loop filter]. unfold candidate_line at 1.
    cbn [fst snd] in *. rewrite oov_step_line by assumption.
    unfold retained at 1. cbn [snd].
    destruct (1 <? freq)%Z.
    + rewrite IH. cbn [map Py.cat fold_right]. unfold pseudo_entry at 2.
      cbn [fst]. rewrite sound_line_entry. now rewrite append_assoc.
    + apply IH.
Qed.

Lemma readlines_candidates (candidates : list (string * Z)) :
  Forall (fun c => Py.sall Re.dot (fst c) = true) candidates ->
  Py.readlines (Py.cat (map candidate_line candidates)) =
  map candidate_line candidates.
Proof.
  intros H.
  assert (E : map candidate_line candidates =
              map (fun b => b ++ AIC.newline)
                (map (fun c => fst c ++ AIC.tabulation ++
                               Py.str_of_int (snd c)) candidates)).
  { rewrite map_map. apply map_ext. intros [w f].
    unfold candidate_line. apply oov_line_body. }
  rewrite E. apply readlines_cat.
  rewrite Forall_map. revert H. apply Forall_impl.
  intros [w f]. apply oov_body_no_newline.
Qed.

(** C6.  Of the OOV candidates recorded with their frequencies in the
    temporary OOV file, [make_lexicon_aux] writes to the lexicon exactly
    those of frequency greater than 1, in order, each as the lowercased
    token followed by its parts between colons; with zz seen once and qq
    three times, in the OOV file or in a transcription that no dictionary
    entry covers, the lexicon holds the line of qq only. *)
Theorem oov_frequency_filter :
  (forall (temp_lex : string) (candidates : list (string * Z)),
      Forall (fun c => Py.sall Re.dot (fst c) = true) candidates ->
      AIC.make_lexicon_aux temp_lex (Py.cat (map candidate_line candidates))
      = AIC.Ok (AIC.lexicon_loop (Py.readlines temp_lex) ++
                Py.cat (map pseudo_entry (filter retained candidates)))) /\
  AIC.make_lexicon_aux "" (AIC.oov_line "zz" 1 ++ AIC.oov_line "qq" 3)
  = AIC.Ok ("qq qq" ++ AIC.newline) /\
  AIC.make_lexicon (fun items => items) ""
    ("f01_p_u1 qq zz qq" ++ AIC.newline ++ "m02_s_u2 qq" ++ AIC.newline)
  = AIC.Ok ("qq qq" ++ AIC.newline).
Proof.
  split; [|split].
  - intros temp_lex candidates H. unfold AIC.make_lexicon_aux.
    rewrite readlines_candidates by assumption.
    now apply oov_loop_candidates.
  - vm_compute. reflexivity.
  - vm_compute. reflexivity.
Qed.

Lemma oov_frequency_filter_witness :
  AIC.make_lexicon_aux ""
    (Py.cat (map candidate_line [("a:b", 2%Z); ("zz", 1%Z); ("qq", 3%Z)]))
  = AIC.Ok (Py.cat ["a:b a b" ++ AIC.newline; "qq qq" ++ AIC.newline]).
Proof.
  apply (proj1 oov_frequency_filter ""
           [("a:b", 2%Z); ("zz", 1%Z); ("qq", 3%Z)]).
  repeat constructor.
Defined.

(** ** Sounds without a delimiter *)

Lemma split_from_plain (s : string) :
  forall cur,
    Py.sall (fun c => negb (Ascii.eqb c ":")) s = true ->
    Py.split_from ":" cur s = [cur ++ s].
Proof.
  induction s as [|c s IH]; intros cur Hs; simpl.
  - now rewrite append_nil_r.
  - simpl in Hs. apply andb_true_iff in Hs as [Hc Hs].
    apply negb_true_iff in Hc. rewrite Hc, IH by assumption.
    now rewrite snoc_append.
Qed.

Lemma lower_keeps_colon_free (c : ascii) :
  negb (Ascii.eqb c ":") = true -> negb (Ascii.eqb (Py.chr_lower c) ":") = true.
Proof.
  destruct c as [[] [] [] [] [] [] [] []]; vm_compute; congruence.
Qed.

(** C9.  A token without colon that passes the frequency filter is written
    as the (lowercased) token followed by itself: it is its own and only
    phone. *)
Theorem oov_without_delimiter (token : string) (freq : Z) :
  Py.sall Re.dot token = true ->
  Py.sall (fun c => negb (Ascii.eqb c ":")) token = true ->
  (1 < freq)%Z ->
  Py.split ":" (Py.lower token) = [Py.lower token] /\
  AIC.oov_step (AIC.oov_line token freq) =
  AIC.Written (Py.lower token ++ " " ++ Py.lower token ++ AIC.newline).
Proof.
  intros Hnl Hcolon Hfreq.
  assert (Hsplit : Py.split ":" (Py.lower token) = [Py.lower token]).
  { unfold Py.split. rewrite split_from_plain; [reflexivity|].
    unfold Py.lower. rewrite sall_smap. revert Hcolon.
    apply sall_impl, lower_keeps_colon_free. }
  split; [exact Hsplit|].
  rewrite oov_step_line by assumption.
  apply Z.ltb_lt in Hfreq. rewrite Hfreq.
  rewrite sound_line_entry, Hsplit. reflexivity.
Qed.

Lemma oov_without_delimiter_witness :
  Py.split ":" (Py.lower "QQ") = [Py.lower "QQ"] /\
  AIC.oov_step (AIC.oov_line "QQ" 3) =
  AIC.Written (Py.lower "QQ" ++ " " ++ Py.lower "QQ" ++ AIC.newline).
Proof.
  apply (@oov_without_delimiter "QQ" 3%Z); [reflexivity | reflexivity | lia].
Defined.

(** ** Lines that do not match *)

Lemma fold_left_skip {A B} (step : A -> B -> A) (bad : B) :
  (forall acc, step acc bad = acc) ->
  forall pre post acc,
    fold_left step (pre ++ bad :: post)%list acc =
    fold_left step (pre ++ post)%list acc.
Proof.
  intros Hbad pre post acc.
  rewrite !fold_left_app. simpl. now rewrite Hbad.
Qed.

Lemma oov_loop_skip (bad : string) :
  AIC.oov_step bad = AIC.Skipped ->
  forall pre post out,
    AIC.oov_loop (pre ++ bad :: post)%list out =
    AIC.oov_loop (pre ++ post)%list out.
Proof.
  intros Hbad pre. induction pre as [|line pre IH]; intros post out.
  - simpl. now rewrite Hbad.
  - simpl. destruct (AIC.oov_step line); auto.
Qed.

(** C7.  In each of the four loops of the lexicon stages (over the CMU
    dictionary, the transcription, the temporary lexicon and the temporary
    OOV file) a line that the loop's pattern does not match changes nothing
    and raises nothing: the loop gives the same result as if the line were
    not there. *)
Theorem unmatched_lines_are_skipped (bad : string) (pre post : list string) :
  (Re.rmatch AIC.re_cmu bad = None ->
   forall cmu_dict,
     fold_left AIC.cmu_step (pre ++ bad :: post)%list cmu_dict =
     fold_left AIC.cmu_step (pre ++ post)%list cmu_dict) /\
  (Re.rmatch AIC.re_transcription bad = None ->
   forall dict_word,
     fold_left AIC.transcription_step (pre ++ bad :: post)%list dict_word =
     fold_left AIC.transcription_step (pre ++ post)%list dict_word) /\
  (Re.rmatch AIC.re_lexicon bad = None ->
   AIC.lexicon_loop (pre ++ bad :: post)%list =
   AIC.lexicon_loop (pre ++ post)%list) /\
  (Re.rmatch AIC.re_oov bad = None ->
   forall out,
     AIC.oov_loop (pre ++ bad :: post)%list out =
     AIC.oov_loop (pre ++ post)%list out).
Proof.
  repeat split; intros Hbad.
  - intros d. apply fold_left_skip. intros acc.
    unfold AIC.cmu_step. now rewrite Hbad.
  - intros d. apply fold_left_skip. intros acc.
    unfold AIC.transcription_step. now rewrite Hbad.
  - unfold AIC.lexicon_loop. rewrite !map_app, !cat_app.
    cbn [map Py.cat fold_right]. unfold AIC.lexicon_step at 2.
    now rewrite Hbad.
  - apply oov_loop_skip. unfold AIC.oov_step. now rewrite Hbad.
Qed.

Lemma unmatched_lines_are_skipped_witness :
  AIC.oov_loop
    ([AIC.oov_line "QQ" 3] ++ "no tabulation here" :: [AIC.oov_line "A:B" 2])
    "" =
  AIC.oov_loop ([AIC.oov_line "QQ" 3] ++ [AIC.oov_line "A:B" 2]) "".
Proof.
  apply (proj2 (proj2 (proj2
           (unmatched_lines_are_skipped "no tabulation here"
              [AIC.oov_line "QQ" 3] [AIC.oov_line "A:B" 2])))).
  reflexivity.
Defined.

(** ** Case of the words of the lexicon *)

Lemma lower_is_lowercase (s : string) : lowercase (Py.lower s).
Proof.
  unfold lowercase, Py.lower. rewrite sall_smap.
  induction s as [|c s IH]; simpl; [reflexivity|].
  rewrite IH, andb_true_r.
  destruct c as [[] [] [] [] [] [] [] []]; reflexivity.
Qed.

Lemma upper_is_uppercase (s : string) : uppercase (Py.upper s).
Proof.
  unfold uppercase, Py.upper. rewrite sall_smap.
  induction s as [|c s IH]; simpl; [reflexivity|].
  rewrite IH, andb_true_r.
  destruct c as [[] [] [] [] [] [] [] []]; reflexivity.
Qed.

Lemma lexicon_loop_entries (lines : list string) :
  AIC.lexicon_loop lines = AIC.render (AIC.choose AIC.lexicon_entry lines).
Proof.
  unfold AIC.lexicon_loop, AIC.render, Py.cat.
  induction lines as [|line lines IH]; [reflexivity|].
  cbn [map fold_right AIC.choose].
  unfold AIC.lexicon_step at 1, AIC.lexicon_entry at 1.
  destruct (Re.rmatch AIC.re_lexicon line) as [gs|].
  - cbn [map fold_right fst snd]. now rewrite IH.
  - exact IH.
Qed.

Lemma oov_loop_entries (lines : list string) :
  forall out lexicon,
    AIC.oov_loop lines out = AIC.Ok lexicon ->
    lexicon = out ++ AIC.render (AIC.choose AIC.oov_entry lines).
Proof.
  unfold AIC.render.
  induction lines as [|line lines IH]; intros out lexicon H.
  - simpl in *. injection H as <-. now rewrite append_nil_r.
  - cbn [AIC.oov_loop AIC.choose] in *. unfold AIC.oov_entry at 1.
    destruct (AIC.oov_step line) as [text| | |] eqn:E; try discriminate;
      try (now apply IH).
    unfold AIC.oov_step in E.
    destruct (Re.rmatch AIC.re_oov line) as [gs|]; [|discriminate].
    destruct (Py.int_of_str (Re.group gs 2)) as [freq|]; [|discriminate].
    destruct (1 <? freq)%Z; [|discriminate].
    injection E as <-. apply IH in H. rewrite H.
    cbn [map Py.cat fold_right fst snd].
    now rewrite sound_line_entry, append_assoc.
Qed.

Lemma choose_fst_lower {A} (f : A -> option (string * string)) :
  (forall x e, f x = Some e -> exists raw, fst e = Py.lower raw) ->
  forall l, Forall (fun e => lowercase (fst e)) (AIC.choose f l).
Proof.
  intros Hf. induction l as [|x l IH]; simpl; [constructor|].
  destruct (f x) as [e|] eqn:E; [|exact IH].
  constructor; [|exact IH].
  destruct (Hf x e E) as [raw ->]. apply lower_is_lowercase.
Qed.

Lemma lexicon_entries_lowercase (temp_lex oov : string) :
  Forall (fun e => lowercase (fst e)) (AIC.lexicon_entries temp_lex oov).
Proof.
  unfold AIC.lexicon_entries. apply Forall_app. split.
  - apply choose_fst_lower. intros line e. unfold AIC.lexicon_entry.
    destruct (Re.rmatch AIC.re_lexicon line); [|discriminate].
    intros [= <-]. eexists. reflexivity.
  - apply choose_fst_lower. intros line e. unfold AIC.oov_entry.
    destruct (AIC.oov_step line); try discriminate.
    destruct (Re.rmatch AIC.re_oov line); [|discriminate].
    intros [= <-]. eexists. reflexivity.
Qed.

(** The words counted in the transcription are in upper case. *)

Lemma split_ws_from_all p (s : string) :
  forall cur,
    Py.sall p cur = true -> Py.sall p s = true ->
    Forall (fun t => Py.sall p t = true) (Py.split_ws_from cur s).
Proof.
  induction s as [|c s IH]; intros cur Hcur Hs; simpl.
  - destruct (Py.is_empty cur); auto.
  - simpl in Hs. apply andb_true_iff in Hs as [Hc Hs].
    destruct (Py.is_space c).
    + destruct (Py.is_empty cur); [|constructor]; auto.
    + apply IH; auto. unfold Py.snoc. rewrite sall_append. simpl.
      now rewrite Hcur, Hc.
Qed.

Lemma dict_set_keys {V} (P : string -> Prop) (d : AIC.dict V) key v :
  Forall (fun kv => P (fst kv)) d -> P key ->
  Forall (fun kv => P (fst kv)) (AIC.dict_set d key v).
Proof.
  intros Hd Hk. induction Hd as [|[k w] d Hkw Hd IH]; simpl.
  - constructor; auto.
  - destruct (String.eqb k key); constructor; auto.
Qed.

Lemma count_words_uppercase (transcription_file : string) :
  Forall (fun kv => uppercase (fst kv)) (AIC.count_words transcription_file).
Proof.
  unfold AIC.count_words.
  assert (H : forall lines d,
             Forall (fun kv : string * Z => uppercase (fst kv)) d ->
             Forall (fun kv => uppercase (fst kv))
               (fold_left AIC.transcription_step lines d)).
  { induction lines as [|line lines IH]; intros d Hd; [exact Hd|].
    simpl. apply IH. unfold AIC.transcription_step.
    destruct (Re.rmatch AIC.re_transcription line) as [gs|]; [|exact Hd].
    pose proof (@split_ws_from_all (fun c => negb (Py.is_lower c))
                  (Py.upper (Re.group gs 4)) "" eq_refl
                  (upper_is_uppercase _)) as Hw.
    fold (Py.split_ws (Py.upper (Re.group gs 4))) in Hw.
    revert d Hd. induction Hw as [|w ws Hw _ IHw]; intros d Hd; [exact Hd|].
    simpl. apply IHw. unfold AIC.count_word.
    apply dict_set_keys; assumption. }
  apply H. constructor.
Qed.

(** C10.  Whatever the case of the words in the temporary files, the
    lexicon written by [make_lexicon_aux] is the rendering of its entries,
    and the word of every entry, from the CMU dictionary or from the OOV
    sounds, has no upper case letter; the words counted in the
    transcription, which are those looked up in the dictionary, have no
    lower case letter. *)
Theorem lexicon_words_are_lowercase :
  (forall temp_lex oov lexicon,
      AIC.make_lexicon_aux temp_lex oov = AIC.Ok lexicon ->
      lexicon = AIC.render (AIC.lexicon_entries temp_lex oov) /\
      Forall (fun e => lowercase (fst e)) (AIC.lexicon_entries temp_lex oov)) /\
  (forall transcription_file,
      Forall (fun kv => uppercase (fst kv))
        (AIC.count_words transcription_file)).
Proof.
  split.
  - intros temp_lex oov lexicon H. split.
    + unfold AIC.make_lexicon_aux in H. apply oov_loop_entries in H.
      rewrite H, lexicon_loop_entries.
      unfold AIC.lexicon_entries, AIC.render.
      now rewrite map_app, cat_app.
    + apply lexicon_entries_lowercase.
  - apply count_words_uppercase.
Qed.

(** ** The language-model recipe *)

Import LM.
Open Scope lm_scope.


(** ** Paths *)

Lemma path_eqb_eq (p q : path) : path_eqb p q = true <-> p = q.
Proof.
  revert q. induction p as [|x p IH]; intros [|y q]; simpl;
    try (split; [discriminate | congruence]); [tauto|].
  rewrite andb_true_iff, String.eqb_eq, IH. split.
  - intros [-> ->]. reflexivity.
  - intros [= -> ->]. auto.
Qed.

Lemma path_eqb_refl (p : path) : path_eqb p p = true.
Proof. now apply path_eqb_eq. Qed.

Lemma path_eqb_neq (p q : path) : path_eqb p q = false <-> p <> q.
Proof.
  rewrite <- path_eqb_eq. destruct (path_eqb p q); split; congruence.
Qed.

Lemma strip_prefix_app (d rel : path) :
  strip_prefix d (d ++ rel)%list = Some rel.
Proof.
  induction d as [|x d IH]; simpl; [reflexivity|].
  now rewrite String.eqb_refl.
Qed.

Lemma strip_prefix_some (d p rel : path) :
  strip_prefix d p = Some rel -> p = (d ++ rel)%list.
Proof.
  revert p. induction d as [|x d IH]; intros p; simpl.
  - now intros [= ->].
  - destruct p as [|y p]; [discriminate|].
    destruct (String.eqb_spec x y) as [->|]; [|discriminate].
    intros H. now rewrite (IH _ H).
Qed.

Lemma under_refl (d : path) : under d d = true.
Proof.
  unfold under. rewrite <- (app_nil_r d) at 2.
  now rewrite strip_prefix_app.
Qed.

Lemma under_app (d rel : path) : under d (d ++ rel)%list = true.
Proof. unfold under. now rewrite strip_prefix_app. Qed.

Lemma under_iff (d p : path) :
  under d p = true <-> exists rel, p = (d ++ rel)%list.
Proof.
  unfold under. split.
  - destruct (strip_prefix d p) as [rel|] eqn:E; [|discriminate].
    intros _. exists rel. now apply strip_prefix_some.
  - intros [rel ->]. now rewrite strip_prefix_app.
Qed.

(** Siblings: two different names in one directory. *)
Lemma under_sibling (d : path) (x y : string) (rel : path) :
  x <> y -> under (d ++ [x])%list (d ++ y :: rel)%list = false.
Proof.
  intros Hxy. unfold under.
  induction d as [|z d IH]; simpl.
  - destruct (String.eqb_spec x y); [contradiction | reflexivity].
  - now rewrite String.eqb_refl.
Qed.

Lemma under_trans (a b p : path) :
  under a b = true -> under b p = true -> under a p = true.
Proof.
  rewrite !under_iff. intros [r1 ->] [r2 ->].
  exists (r1 ++ r2)%list. now rewrite app_assoc.
Qed.

(** Nothing below [d] is [a] when [a] is not below [d]. *)
Lemma under_false_neq (d a : path) (rel : path) :
  under d a = false -> path_eqb a (d ++ rel)%list = false.
Proof.
  intros H. apply path_eqb_neq. intros ->.
  now rewrite under_app in H.
Qed.

Lemma under_false_app (d a rel : path) :
  under d a = false -> under (d ++ rel)%list a = false.
Proof.
  intros H. destruct (under (d ++ rel)%list a) eqn:E; [|reflexivity].
  rewrite <- H. symmetry. eapply under_trans; [apply under_app | exact E].
Qed.

(** ** File system operations *)

Lemma put_same (fs : filesystem) p n : put fs p n p = Some n.
Proof. unfold put. now rewrite path_eqb_refl. Qed.

Lemma put_other (fs : filesystem) p n q :
  path_eqb q p = false -> put fs p n q = fs q.
Proof. unfold put. now intros ->. Qed.

Lemma rmtree_under (fs : filesystem) d p :
  under d p = true -> rmtree fs d p = None.
Proof. unfold rmtree. now intros ->. Qed.

Lemma rmtree_other (fs : filesystem) d p :
  under d p = false -> rmtree fs d p = fs p.
Proof. unfold rmtree. now intros ->. Qed.

Lemma rename_other (fs : filesystem) src dst p :
  under src p = false -> under dst p = false -> rename fs src dst p = fs p.
Proof.
  unfold rename, under.
  destruct (strip_prefix dst p); [discriminate|].
  destruct (strip_prefix src p); [discriminate|]. reflexivity.
Qed.

Lemma rename_target (fs : filesystem) src dst rel :
  rename fs src dst (dst ++ rel)%list = fs (src ++ rel)%list.
Proof. unfold rename. now rewrite strip_prefix_app. Qed.

(** ** Running a computation *)

Lemma run_pair {A} (m : M A) (w : world) : m w = (fst (m w), snd (m w)).
Proof. now destruct (m w). Qed.

Lemma bind_return {A B} (m : M A) (k : A -> M B) w a w' :
  m w = (Return a, w') -> bind m k w = k a w'.
Proof. unfold bind. now intros ->. Qed.

Lemma bind_raise {A B} (m : M A) (k : A -> M B) w e w' :
  m w = (Raise e, w') -> bind m k w = (Raise e, w').
Proof. unfold bind. now intros ->. Qed.

(** ** Relations kept along the way *)

Section Keeps.
Variable R : world -> world -> Prop.
Hypothesis R_refl : forall w, R w w.
Hypothesis R_trans : forall a b c, R a b -> R b c -> R a c.

Lemma keeps_ret {A} (a : A) : keeps R (ret a).
Proof. intros w. apply R_refl. Qed.

Lemma keeps_raise {A} (e : exn) : keeps R (@raise A e).
Proof. intros w. apply R_refl. Qed.
Lemma keeps_bind {A B} (m : M A) (k : A -> M B) :
  keeps R m -> (forall a, keeps R (k a)) -> keeps R (bind m k).
Proof.
  intros Hm Hk w. unfold bind. specialize (Hm w).
  destruct (m w) as [[a|e] w']; simpl in *; [|exact Hm].
  eapply R_trans; [exact Hm | apply Hk].
Qed.

Lemma keeps_try_finally {A} (body : M A) (cleanup : M unit) :
  keeps R body -> keeps R cleanup -> keeps R (try_finally body cleanup).
Proof.
  intros Hb Hc w. unfold try_finally. specialize (Hb w).
  destruct (body w) as [r w1]. specialize (Hc w1). simpl in *.
  destruct (cleanup w1) as [[u|e] w2]; simpl in *;
    eapply R_trans; eauto.
Qed.

Lemma keeps_for_each {A} (l : list A) (body : A -> M unit) :
  (forall x, keeps R (body x)) -> keeps R (for_each l body).
Proof.
  intros Hb. induction l as [|x l IH]; simpl.
  - apply keeps_ret.
  - apply keeps_bind; auto.
Qed.
End Keeps.

Lemma extends_refl P w : extends P w w.
Proof. exists []. now rewrite app_nil_r. Qed.

Lemma extends_trans P a b c : extends P a b -> extends P b c -> extends P a c.
Proof.
  intros [d1 [E1 F1]] [d2 [E2 F2]]. exists (d1 ++ d2)%list. split.
  - now rewrite E2, E1, app_assoc.
  - now apply Forall_app.
Qed.

Lemma preserves_refl a w : preserves a w w.
Proof. now intros _. Qed.

Lemma preserves_trans a x y z :
  preserves a x y -> preserves a y z -> preserves a x z.
Proof.
  unfold preserves. intros Hxy Hyz Hx.
  assert (Hy : isfile (files y) a = true).
  { unfold isfile. rewrite (Hxy Hx). exact Hx. }
  now rewrite (Hyz Hy), (Hxy Hx).
Qed.


(** ** The events a computation adds *)

Lemma skipn_added (l d : list event) : skipn (List.length l) (l ++ d) = d.
Proof. induction l; simpl; auto. Qed.

Lemma since_extends P (w w' : world) :
  extends P w w' ->
  trace w' = (trace w ++ since w w')%list /\ Forall P (since w w').
Proof.
  intros [d [E F]]. unfold since. rewrite E, skipn_added. now split.
Qed.

(** ** Choice of the prepare-lang script *)

Lemma scripts_differ (self : recipe) :
  (share_dir self ++ ["prepare_lang_wpdpl.sh"])%list <>
  (recipe_dir self ++ ["utils"; "prepare_lang.sh"])%list.
Proof.
  change (recipe_dir self ++ ["utils"; "prepare_lang.sh"])%list
    with (recipe_dir self ++ ["utils"] ++ ["prepare_lang.sh"])%list.
  rewrite app_assoc. intros E. apply app_inj_tail in E as [_ E].
  discriminate.
Qed.

(** C8.  [_prepare_lang] runs one program; its script is the word position
    dependent variant [prepare_lang_wpdpl.sh] exactly when the level is
    phone and [position_dependent_phones] is set, and the standard
    [utils/prepare_lang.sh] in every other case. *)
Theorem prepare_lang_script_choice (S : system) (self : recipe) (w : world) :
  let variant := (share_dir self ++ ["prepare_lang_wpdpl.sh"])%list in
  let standard := (recipe_dir self ++ ["utils"; "prepare_lang.sh"])%list in
  let selected :=
    level self = "phone" /\ position_dependent_phones self = true in
  (prepare_lang_script self = variant <-> selected) /\
  (prepare_lang_script self = standard <-> ~ selected) /\
  filter is_exec (since w (snd (_prepare_lang S self w))) =
    [Exec (PrepareLang (prepare_lang_script self)
             (position_dependent_phones self) (silence_probability self)
             (local_path self) (output_dir self ++ ["local"])%list
             (output_dir self))
          ToLog].
Proof.
  intros variant standard selected.
  assert (Hsel : prepare_lang_script self =
                 if String.eqb (level self) "phone" &&
                    position_dependent_phones self
                 then variant else standard) by reflexivity.
  assert (Hiff : String.eqb (level self) "phone" &&
                 position_dependent_phones self = true <-> selected).
  { unfold selected. now rewrite andb_true_iff, String.eqb_eq. }
  pose proof (scripts_differ self) as Hd. fold variant standard in Hd.
  split; [|split].
  - rewrite Hsel.
    destruct (String.eqb (level self) "phone" &&
              position_dependent_phones self).
    + split; [intros _; now apply Hiff | reflexivity].
    + split; [intros E; congruence | intros H; apply Hiff in H; discriminate].
  - rewrite Hsel.
    destruct (String.eqb (level self) "phone" &&
              position_dependent_phones self).
    + split; [intros E; congruence|].
      intros H; exfalso; apply H, Hiff; reflexivity.
    + split; [intros _ H; apply Hiff in H; discriminate | reflexivity].
  - unfold since, _prepare_lang, run_job, log, emit, bind, get_files,
      set_files, ret, raise. simpl.
    destruct (job_ok _); simpl;
      rewrite <- !app_assoc; simpl; rewrite skipn_added; reflexivity.
Qed.

Lemma prepare_lang_script_choice_witness :
  prepare_lang_script
    (Recipe ["corpus"] ["out"] ["recipe"] ["recipe"; "local"] ["share"]
            "phone" (Int 3) (1 # 2) true)
  = ["share"; "prepare_lang_wpdpl.sh"].
Proof.
  apply (proj1 (prepare_lang_script_choice Stub.machine
           (Recipe ["corpus"] ["out"] ["recipe"] ["recipe"; "local"]
                   ["share"] "phone" (Int 3) (1 # 2) true)
           (World (fun _ => None) []))).
  split; reflexivity.
Defined.

(** ** Validation of the parameters *)

Lemma check_order_bad (self : recipe) (w : world) :
  match order self with Int n => (n < 1)%Z | Str _ => True end ->
  _check_order self w = (Raise RuntimeError, w).
Proof.
  unfold _check_order. destruct (order self) as [n|s]; intros H.
  - apply Z.ltb_lt in H. now rewrite H.
  - reflexivity.
Qed.

Lemma check_silence_bad (self : recipe) (w : world) :
  (1 < silence_probability self \/ silence_probability self < 0)%Q ->
  _check_silence_probability self w = (Raise RuntimeError, w).
Proof.
  unfold _check_silence_probability. intros H.
  assert (E : negb (Qle_bool (silence_probability self) 1) ||
              negb (Qle_bool 0 (silence_probability self)) = true).
  { apply orb_true_iff. destruct H as [H|H]; [left|right];
      apply negb_true_iff; apply not_true_is_false;
      rewrite Qle_bool_iff; now apply Qlt_not_le. }
  now rewrite E.
Qed.

Lemma check_level_bad (self : recipe) (w : world) :
  level self <> "word" -> level self <> "phone" ->
  _check_level self w = (Raise RuntimeError, w).
Proof.
  unfold _check_level. intros H1 H2. simpl.
  apply String.eqb_neq in H1, H2. now rewrite H1, H2.
Qed.

Lemma check_level_cases (self : recipe) (w : world) :
  _check_level self w = (Return tt, w) \/
  _check_level self w = (Raise RuntimeError, w).
Proof.
  unfold _check_level.
  destruct (negb _); [right | left]; reflexivity.
Qed.

Lemma check_order_cases (self : recipe) (w : world) :
  _check_order self w = (Return tt, w) \/
  _check_order self w = (Raise RuntimeError, w).
Proof.
  unfold _check_order. destruct (order self) as [n|s]; [|now right].
  destruct (n <? 1)%Z; [right | left]; reflexivity.
Qed.

Lemma check_silence_cases (self : recipe) (w : world) :
  _check_silence_probability self w = (Return tt, w) \/
  _check_silence_probability self w = (Raise RuntimeError, w).
Proof.
  unfold _check_silence_probability.
  destruct (_ || _); [right | left]; reflexivity.
Qed.

Lemma check_position_returns (self : recipe) (w : world) :
  fst (_check_position_dependent self w) = Return tt.
Proof.
  unfold _check_position_dependent. now destruct (_ && _).
Qed.

(** A failed validation leaves the world as it found it. *)
Lemma check_parameters_raise (self : recipe) (w : world) e :
  fst (check_parameters self w) = Raise e ->
  check_parameters self w = (Raise e, w).
Proof.
  unfold check_parameters, bind.
  destruct (check_level_cases self w) as [-> | ->];
    [|now intros [= <-]].
  destruct (check_order_cases self w) as [-> | ->];
    [|now intros [= <-]].
  destruct (check_silence_cases self w) as [-> | ->];
    [|now intros [= <-]].
  now rewrite check_position_returns.
Qed.

(** C4.  [check_parameters] raises when the order is not an integer of at
    least 1 (so for 0), when the silence probability lies outside [0, 1]
    (so for 1.5), and when the level is neither word nor phone; the check
    of [position_dependent_phones] never raises, and with the level word it
    logs its warning and the validation succeeds; and when the validation
    raises, [run] raises the same error before any program is run, leaving
    the files and the trace as they were. *)
Theorem check_parameters_validation (S : system) (self : recipe) (w : world) :
  (match order self with Int n => (n < 1)%Z | Str _ => True end ->
   fst (check_parameters self w) = Raise RuntimeError) /\
  ((1 < silence_probability self \/ silence_probability self < 0)%Q ->
   fst (check_parameters self w) = Raise RuntimeError) /\
  (level self <> "word" -> level self <> "phone" ->
   fst (check_parameters self w) = Raise RuntimeError) /\
  fst (_check_position_dependent self w) = Return tt /\
  (level self = "word" -> position_dependent_phones self = true ->
   (exists n, order self = Int n /\ (1 <= n)%Z) ->
   (0 <= silence_probability self /\ silence_probability self <= 1)%Q ->
   check_parameters self w =
   (Return tt,
    World (files w)
      (trace w ++ [Log WARNING Position_dependent_on_word_level]))) /\
  (forall e, fst (check_parameters self w) = Raise e ->
             run S self w = (Raise e, w)).
Proof.
  repeat split.
  - intros H. unfold check_parameters, bind.
    destruct (check_level_cases self w) as [-> | ->]; [|reflexivity].
    now rewrite check_order_bad.
  - intros H. unfold check_parameters, bind.
    destruct (check_level_cases self w) as [-> | ->]; [|reflexivity].
    destruct (check_order_cases self w) as [-> | ->]; [|reflexivity].
    now rewrite check_silence_bad.
  - intros H1 H2. unfold check_parameters, bind.
    now rewrite check_level_bad.
  - apply check_position_returns.
  - intros Hl Hp [n [Ho Hn]] [H0 H1].
    unfold check_parameters, bind, _check_level, _check_order,
      _check_silence_probability, _check_position_dependent.
    rewrite Hl, Hp, Ho. simpl.
    apply Z.ltb_ge in Hn. rewrite Hn.
    apply Qle_bool_iff in H0, H1. rewrite H0, H1. reflexivity.
  - intros e He. unfold run.
    erewrite bind_raise; [reflexivity|].
    now apply check_parameters_raise.
Qed.

Lemma check_parameters_validation_witness :
  fst (check_parameters
         (Recipe ["corpus"] ["out"] ["recipe"] ["recipe"; "local"]
                 ["share"] "word" (Int 0) (1 # 2) false)
         (Stub.created Stub.trigram))
  = Raise RuntimeError.
Proof.
  apply (proj1 (check_parameters_validation Stub.machine
           (Recipe ["corpus"] ["out"] ["recipe"] ["recipe"; "local"]
                   ["share"] "word" (Int 0) (1 # 2) false)
           (Stub.created Stub.trigram))).
  simpl. lia.
Defined.


Lemma under_app_cases (a b rel : path) :
  under a (b ++ rel)%list = true -> under a b = true \/ under b a = true.
Proof.
  unfold under. revert b. induction a as [|x a IH]; intros b; simpl.
  - now left.
  - destruct b as [|y b]; simpl.
    + now right.
    + destruct (String.eqb_spec x y) as [->|Hxy].
      * rewrite String.eqb_refl. apply IH.
      * discriminate.
Qed.
(** ** The formatting stage *)

Section FormatLm.
Variable S : system.
Variable self : recipe.
Variables arpa fst_path : path.
Variable w : world.

(** When the formatter fails [_format_lm] raises, and the file system is
    the one the formatter left, less the temporary directory. *)
Lemma format_lm_failure :
  let tmp_dir := mkdtemp S (files w) in
  let fs1 := put (files w) tmp_dir Dir in
  let formatter :=
    gateway S (FormatLmSri (output_dir self) arpa tmp_dir) fs1 in
  let final := _format_lm S self arpa fst_path w in
  job_ok formatter = false ->
  fst final = Raise RuntimeError /\
  exists_ (files (snd final)) tmp_dir = false /\
  forall p,
    files (snd final) p =
    if exists_ (job_files formatter) tmp_dir
    then rmtree (job_files formatter) tmp_dir p
    else job_files formatter p.
Proof.
  intros tmp_dir fs1 formatter final Hfail. unfold final.
  unfold _format_lm, make_temp_dir, try_finally, run_job, remove, log,
    emit, bind, get_files, set_files, ret, raise.
  cbn. fold tmp_dir. fold fs1. fold formatter. rewrite Hfail. cbn.
  destruct (exists_ (job_files formatter) tmp_dir) eqn:E; cbn.
  - repeat split. unfold exists_.
    now rewrite rmtree_under by apply under_refl.
  - repeat split. exact E.
Qed.

(** When the formatter succeeds the output directory is removed and the
    temporary directory takes its place. *)
Lemma format_lm_success :
  let tmp_dir := mkdtemp S (files w) in
  let fs1 := put (files w) tmp_dir Dir in
  let formatter :=
    gateway S (FormatLmSri (output_dir self) arpa tmp_dir) fs1 in
  let final := _format_lm S self arpa fst_path w in
  job_ok formatter = true ->
  exists_ (job_files formatter) (output_dir self) = true ->
  exists_ (job_files formatter) tmp_dir = true ->
  under (output_dir self) tmp_dir = false ->
  under tmp_dir (output_dir self) = false ->
  fst final = Return tt /\
  exists_ (files (snd final)) tmp_dir = false /\
  forall rel,
    files (snd final) (output_dir self ++ rel)%list =
    job_files formatter (tmp_dir ++ rel)%list.
Proof.
  intros tmp_dir fs1 formatter final Hok Hout Htmp Hot Hto. unfold final.
  unfold _format_lm, make_temp_dir, try_finally, run_job, remove, move,
    log, emit, bind, get_files, set_files, ret, raise.
  cbn. fold tmp_dir. fold fs1. fold formatter. rewrite Hok. cbn.
  rewrite Hout. cbn.
  assert (E1 : exists_ (rmtree (job_files formatter) (output_dir self))
                 tmp_dir = true).
  { unfold exists_. now rewrite rmtree_other. }
  rewrite E1. cbn.
  assert (E2 : isdir (rmtree (job_files formatter) (output_dir self))
                 (output_dir self) = false).
  { unfold isdir. now rewrite rmtree_under by apply under_refl. }
  assert (E3 : isfile (rmtree (job_files formatter) (output_dir self))
                 (output_dir self) = false).
  { unfold isfile. now rewrite rmtree_under by apply under_refl. }
  rewrite E2, E3. cbn.
  assert (E4 : exists_
                 (rename (rmtree (job_files formatter) (output_dir self))
                    tmp_dir (output_dir self)) tmp_dir = false).
  { unfold exists_, rename. unfold under in Hot.
    destruct (strip_prefix (output_dir self) tmp_dir); [discriminate|].
    now rewrite under_refl. }
  rewrite E4. cbn. repeat split; [exact E4|].
  intros rel. rewrite rename_target. apply rmtree_other.
  destruct (under (output_dir self) (tmp_dir ++ rel)%list) eqn:U;
    [|reflexivity].
  apply under_app_cases in U. destruct U; congruence.
Qed.

End FormatLm.

(** C3.  When the formatter fails, [_format_lm] raises; the temporary
    directory it made is gone; and everything at or below the output
    directory is as it was before the call, the formatter having left it
    alone.  The output directory is replaced only when the formatter has
    succeeded: the temporary directory is then moved in its place. *)
Theorem format_lm_failure_is_clean
    (S : system) (self : recipe) (arpa fst_path : path) (w : world) :
  let tmp_dir := mkdtemp S (files w) in
  let fs1 := put (files w) tmp_dir Dir in
  let formatter :=
    gateway S (FormatLmSri (output_dir self) arpa tmp_dir) fs1 in
  let final := _format_lm S self arpa fst_path w in
  (job_ok formatter = false ->
   (forall p, under tmp_dir p = true -> files w p = None) ->
   (forall p, under (output_dir self) p = true ->
              job_files formatter p = fs1 p) ->
   fst final = Raise RuntimeError /\
   exists_ (files (snd final)) tmp_dir = false /\
   forall p, under (output_dir self) p = true ->
             files (snd final) p = files w p) /\
  (job_ok formatter = true ->
   exists_ (job_files formatter) (output_dir self) = true ->
   exists_ (job_files formatter) tmp_dir = true ->
   under (output_dir self) tmp_dir = false ->
   under tmp_dir (output_dir self) = false ->
   fst final = Return tt /\
   exists_ (files (snd final)) tmp_dir = false /\
   forall rel,
     files (snd final) (output_dir self ++ rel)%list =
     job_files formatter (tmp_dir ++ rel)%list).
Proof.
  intros tmp_dir fs1 formatter final. split.
  - intros Hfail Hfresh Hframe.
    destruct (format_lm_failure S self arpa fst_path w Hfail)
      as [Hr [Hgone Hfs]].
    fold tmp_dir fs1 formatter final in Hr, Hgone, Hfs.
    repeat split; [exact Hr | exact Hgone |].
    intros p Hp. rewrite Hfs.
    destruct (exists_ (job_files formatter) tmp_dir) eqn:E.
    + unfold rmtree. destruct (under tmp_dir p) eqn:U.
      * symmetry. now apply Hfresh.
      * rewrite Hframe by assumption. unfold fs1. apply put_other.
        apply path_eqb_neq. intros ->. now rewrite under_refl in U.
    + rewrite Hframe by assumption. unfold fs1. apply put_other.
      apply path_eqb_neq. intros ->.
      unfold exists_ in E. rewrite Hframe in E by assumption.
      unfold fs1 in E. now rewrite put_same in E.
  - apply format_lm_success.
Qed.


(** ** How the trace grows *)

Section Extends.
Variable P : event -> Prop.

Lemma grows_ret {A} (a : A) : keeps (extends P) (ret a).
Proof. apply keeps_ret, extends_refl. Qed.

Lemma grows_raise {A} e : keeps (extends P) (@raise A e).
Proof. apply keeps_raise, extends_refl. Qed.

Lemma grows_bind {A B} (m : M A) (k : A -> M B) :
  keeps (extends P) m ->
  (forall a, keeps (extends P) (k a)) ->
  keeps (extends P) (bind m k).
Proof. apply keeps_bind, extends_trans. Qed.

Lemma grows_try_finally {A} (body : M A) cleanup :
  keeps (extends P) body ->
  keeps (extends P) cleanup ->
  keeps (extends P) (try_finally body cleanup).
Proof. apply keeps_try_finally, extends_trans. Qed.

Lemma grows_for_each {A} (l : list A) body :
  (forall x, keeps (extends P) (body x)) ->
  keeps (extends P) (for_each l body).
Proof. apply keeps_for_each; [apply extends_refl | apply extends_trans]. Qed.

Lemma grows_silent {A} (m : M A) :
  (forall w, trace (snd (m w)) = trace w) -> keeps (extends P) m.
Proof.
  intros H w. exists []. rewrite H, app_nil_r. split; constructor.
Qed.

Lemma grows_emit e : P e -> keeps (extends P) (emit e).
Proof. intros He w. exists [e]. split; [reflexivity | now constructor]. Qed.

Lemma grows_get_files : keeps (extends P) get_files.
Proof. now apply grows_silent. Qed.

Lemma grows_set_files fs : keeps (extends P) (set_files fs).
Proof. now apply grows_silent. Qed.

Lemma grows_write_file p c : keeps (extends P) (write_file p c).
Proof. now apply grows_silent. Qed.

Lemma grows_read_file p : keeps (extends P) (read_file p).
Proof.
  apply grows_silent. intros w. unfold read_file, bind, get_files. simpl.
  now destruct (files w p) as [[c|]|].
Qed.

Lemma grows_remove p safe : keeps (extends P) (remove p safe).
Proof.
  apply grows_silent. intros w. unfold remove, bind, get_files. simpl.
  destruct (exists_ (files w) p); [reflexivity|]. now destruct safe.
Qed.

Lemma grows_move src dst : keeps (extends P) (move src dst).
Proof.
  apply grows_silent. intros w. unfold move, bind, get_files. simpl.
  destruct (exists_ (files w) src); simpl; [|reflexivity].
  destruct (isdir (files w) dst).
  - now destruct (exists_ _ _).
  - now destruct (isfile (files w) dst && isdir (files w) src).
Qed.

Lemma grows_make_temp_dir S : keeps (extends P) (make_temp_dir S).
Proof. now apply grows_silent. Qed.

Lemma grows_named_temporary_file S :
  keeps (extends P) (named_temporary_file S).
Proof. now apply grows_silent. Qed.

Lemma grows_run_job S c out :
  P (Exec c out) -> (forall text, P (Log DEBUG (Output text))) ->
  keeps (extends P) (run_job S c out).
Proof.
  intros Hc Ho. unfold run_job.
  apply grows_bind; [apply grows_get_files | intros fs].
  apply grows_bind; [now apply grows_emit | intros _].
  apply grows_bind; [apply grows_set_files | intros _].
  apply grows_bind.
  - destruct out;
      [apply grows_emit, Ho | apply grows_write_file | apply grows_write_file].
  - intros _. destruct (job_ok _); [apply grows_ret | apply grows_raise].
Qed.

End Extends.

(** ** Which files are left alone *)

Section Preserves.
Variable a : path.

Lemma leaves_ret {A} (x : A) : keeps (preserves a) (ret x).
Proof. apply keeps_ret, preserves_refl. Qed.

Lemma leaves_raise {A} e : keeps (preserves a) (@raise A e).
Proof. apply keeps_raise, preserves_refl. Qed.

Lemma leaves_bind {A B} (m : M A) (k : A -> M B) :
  keeps (preserves a) m ->
  (forall x, keeps (preserves a) (k x)) ->
  keeps (preserves a) (bind m k).
Proof. apply keeps_bind, preserves_trans. Qed.

Lemma leaves_try_finally {A} (body : M A) cleanup :
  keeps (preserves a) body ->
  keeps (preserves a) cleanup ->
  keeps (preserves a) (try_finally body cleanup).
Proof. apply keeps_try_finally, preserves_trans. Qed.

Lemma leaves_for_each {A} (l : list A) body :
  (forall x, In x l ->
  keeps (preserves a) (body x)) ->
  keeps (preserves a) (for_each l body).
Proof.
  induction l as [|x l IH]; intros H; simpl.
  - apply leaves_ret.
  - apply leaves_bind; [apply H; now left | intros _].
    apply IH. intros y Hy. apply H. now right.
Qed.

Lemma leaves_same_files {A} (m : M A) :
  (forall w, files (snd (m w)) = files w) -> keeps (preserves a) m.
Proof. intros H w _. now rewrite H. Qed.

Lemma leaves_emit e : keeps (preserves a) (emit e).
Proof. now apply leaves_same_files. Qed.

Lemma leaves_get_files : keeps (preserves a) get_files.
Proof. now apply leaves_same_files. Qed.

Lemma leaves_write_file p c : path_eqb a p = false ->
keeps (preserves a) (write_file p c).
Proof. intros H w _. simpl. now apply put_other. Qed.

Lemma leaves_read_file p : keeps (preserves a) (read_file p).
Proof.
  apply leaves_same_files. intros w.
  unfold read_file, bind, get_files. simpl.
  now destruct (files w p) as [[c|]|].
Qed.

Lemma leaves_remove p safe : under p a = false ->
keeps (preserves a) (remove p safe).
Proof.
  intros H w _. unfold remove, bind, get_files. simpl.
  destruct (exists_ (files w) p); simpl.
  - now apply rmtree_other.
  - now destruct safe.
Qed.

Lemma leaves_move src dst :
  under src a = false ->
  under dst a = false ->
  keeps (preserves a) (move src dst).
Proof.
  intros Hs Hd w _. unfold move, bind, get_files. simpl.
  destruct (exists_ (files w) src); simpl; [|reflexivity].
  destruct (isdir (files w) dst).
  - destruct (exists_ _ _); simpl; [reflexivity|].
    apply rename_other; [assumption | now apply under_false_app].
  - destruct (isfile (files w) dst && isdir (files w) src); simpl;
      [reflexivity|]. now apply rename_other.
Qed.

Section WithSystem.
Variable S : system.
Hypothesis tmp_dir_elsewhere : forall fs, under (mkdtemp S fs) a = false.
Hypothesis tmp_file_elsewhere : forall fs, under (mktemp S fs) a = false.
Lemma leaves_make_temp_dir : keeps (preserves a) (make_temp_dir S).
Proof.
  intros w _. simpl. apply put_other.
  rewrite <- (app_nil_r (mkdtemp S (files w))).
  now apply under_false_neq.
Qed.

Lemma leaves_named_temporary_file :
  keeps (preserves a) (named_temporary_file S).
Proof.
  intros w _. simpl. apply put_other.
  rewrite <- (app_nil_r (mktemp S (files w))).
  now apply under_false_neq.
Qed.

Lemma leaves_run_job c out :
  (forall fs, isfile fs a = true -> job_files (gateway S c fs) a = fs a) ->
  match out with
  | ToLog => True
  | ToFile p | ToOpenFile p => path_eqb a p = false
  end ->
  keeps (preserves a) (run_job S c out).
Proof.
  intros Hc Hout w Hw. unfold run_job, bind, get_files, emit, set_files, log.
  simpl. destruct out as [|p|p]; simpl.
  - destruct (job_ok _); simpl; now apply Hc.
  - destruct (job_ok _); simpl; rewrite put_other by assumption;
      now apply Hc.
  - destruct (job_ok _); simpl; rewrite put_other by assumption;
      now apply Hc.
Qed.

End WithSystem.

End Preserves.


(** ** The stages and the trace *)

Ltac grows_step :=
  first
    [ apply grows_ret | apply grows_raise | apply grows_get_files
    | apply grows_set_files | apply grows_write_file | apply grows_read_file
    | apply grows_remove | apply grows_move | apply grows_make_temp_dir
    | apply grows_named_temporary_file
    | apply grows_emit; reflexivity
    | apply grows_run_job; [reflexivity | intros; reflexivity]
    | apply grows_try_finally
    | apply grows_for_each; intros ?
    | apply grows_bind; [|intros ?]
    | match goal with
      | |- keeps _ (if ?b then _ else _) => destruct b
      | |- keeps _ (match ?x with _ => _ end) => destruct x
      end ].

Ltac grows := unfold log; repeat grows_step.

Lemma run_stages (S : system) (self : recipe) :
  run S self = (check_parameters self ;; _prepare_lang S self ;; stages S self).
Proof. reflexivity. Qed.

Section Quiet.
Variable S : system.
Variable self : recipe.

Lemma check_parameters_quiet : keeps (extends quiet) (check_parameters self).
Proof.
  unfold check_parameters, _check_level, _check_order,
    _check_silence_probability, _check_position_dependent.
  grows.
Qed.

Lemma prepare_lang_quiet : keeps (extends quiet) (_prepare_lang S self).
Proof. unfold _prepare_lang. grows. Qed.

Lemma compile_fst_quiet txt fst_path :
  keeps (extends quiet) (_compile_fst S self txt fst_path).
Proof. unfold _compile_fst. grows. Qed.

Lemma format_lm_quiet arpa fst_path :
  keeps (extends quiet) (_format_lm S self arpa fst_path).
Proof. unfold _format_lm. grows. Qed.

Lemma compute_lm_grows arpa :
  keeps (extends (fun _ => True)) (_compute_lm S self arpa).
Proof.
  unfold _compute_lm, log.
  repeat first [ apply grows_emit; exact I
               | apply grows_run_job; [exact I | intros; exact I]
               | grows_step ].
Qed.

End Quiet.

(** ** The first events of a stage *)

Ltac grows_any :=
  unfold log;
  repeat first [ apply grows_emit; exact I
               | apply grows_run_job; [exact I | intros; exact I]
               | grows_step ].

Lemma bind_trace {A B} (m : M A) (k : A -> M B) w :
  (forall a, keeps (extends any) (k a)) ->
  exists rest, trace (snd (bind m k w)) = (trace (snd (m w)) ++ rest)%list.
Proof.
  intros Hk. unfold bind. destruct (m w) as [[a|e] w1]; simpl.
  - destruct (Hk a w1) as [d [E _]]. now exists d.
  - exists []. now rewrite app_nil_r.
Qed.

Section FirstEvents.
Variable S : system.
Variable self : recipe.

Lemma compute_lm_trace arpa w :
  exists rest,
    trace (snd (_compute_lm S self arpa w)) =
    (trace w ++ Log INFO (Computing_ngram (level self) (order self)) ::
     rest)%list.
Proof.
  unfold _compute_lm.
  match goal with
  | |- context [bind (log ?s ?m) ?k w] =>
      destruct (@bind_trace _ _ (log s m) k w) as [r ->];
        [intros _; grows_any|]
  end.
  simpl. rewrite <- app_assoc. simpl. eexists. reflexivity.
Qed.

End FirstEvents.


Lemma bind_inv {A B} (m : M A) (k : A -> M B) w b w' :
  bind m k w = (Return b, w') ->
  exists a w1, m w = (Return a, w1) /\ k a w1 = (Return b, w').
Proof.
  unfold bind. destruct (m w) as [[a|e] w1]; [|discriminate].
  intros H. now exists a, w1.
Qed.

Lemma try_finally_inv {A} (body : M A) cleanup w b w' :
  try_finally body cleanup w = (Return b, w') ->
  exists w1 u, body w = (Return b, w1) /\ cleanup w1 = (Return u, w').
Proof.
  unfold try_finally. destruct (body w) as [r w1].
  destruct (cleanup w1) as [[u|e] w2] eqn:E; [|discriminate].
  intros [= -> ->]. now exists w1, u.
Qed.

Lemma sibling_neq (d : path) (x y : string) :
  x <> y -> path_eqb (d ++ [x])%list (d ++ [y])%list = false.
Proof.
  intros H. apply path_eqb_neq. intros E.
  apply app_inv_head in E. congruence.
Qed.

(** ** The n-gram stage leaves its model *)

Lemma compute_lm_returns (S : system) (self : recipe) (w w' : world) :
  _compute_lm S self (G_arpa self) w = (Return tt, w') ->
  isfile (files w') (G_arpa self) = true.
Proof.
  unfold _compute_lm. intros H.
  apply bind_inv in H as (? & w1 & _ & H).
  apply try_finally_inv in H as (wb & u & Hbody & Hclean).
  assert (Hb : isfile (files wb) (G_arpa self) = true).
  { repeat (apply bind_inv in Hbody as (? & ? & _ & Hbody)).
    unfold write_file, bind, get_files, set_files in Hbody.
    injection Hbody as <-. unfold isfile. simpl. now rewrite put_same. }
  assert (Hk : keeps (preserves (G_arpa self))
                 (for_each
                    [(local_path self ++ ["text_ready.txt"])%list;
                     (local_path self ++ ["text_se.txt"])%list;
                     (local_path self ++ ["text_lm.gz"])%list;
                     (local_path self ++ ["text_blm.gz"])%list]
                    (fun f => remove f true))).
  { apply leaves_for_each. intros f Hf. apply leaves_remove.
    simpl in Hf. unfold G_arpa.
    destruct Hf as [<-|[<-|[<-|[<-|[]]]]];
      apply under_sibling; discriminate. }
  specialize (Hk wb Hb). rewrite Hclean in Hk. simpl in Hk.
  unfold isfile. rewrite Hk. exact Hb.
Qed.

(** ** The choice of the stages *)

Section Stages.
Variable S : system.
Variable self : recipe.

Lemma stages_grammar w :
  isfile (files w) (G_txt self) = true ->
  stages S self w = _compile_fst S self (G_txt self) (G_fst self) w.
Proof. intros H. unfold stages, bind, get_files. simpl. now rewrite H. Qed.

Lemma stages_text w :
  isfile (files w) (G_txt self) = false ->
  isfile (files w) (G_arpa self) = false ->
  stages S self w =
  (_compute_lm S self (G_arpa self) ;;
   _format_lm S self (G_arpa self) (G_fst self)) w.
Proof.
  intros H1 H2. unfold stages. unfold bind at 1. unfold get_files.
  now rewrite H1, H2.
Qed.

Lemma stages_arpa w :
  isfile (files w) (G_txt self) = false ->
  isfile (files w) (G_arpa self) = true ->
  stages S self w = _format_lm S self (G_arpa self) (G_fst self) w.
Proof.
  intros H1 H2. unfold stages. unfold bind at 1. unfold get_files.
  now rewrite H1, H2.
Qed.

Lemma run_after_prepare w w1 :
  (check_parameters self ;; _prepare_lang S self) w = (Return tt, w1) ->
  run S self w = stages S self w1.
Proof.
  intros H. rewrite run_stages.
  apply bind_inv in H as ([] & wc & Hc & Hp).
  rewrite (@bind_return _ _ _ _ _ _ _ Hc).
  now rewrite (@bind_return _ _ _ _ _ _ _ Hp).
Qed.

End Stages.

Lemma keeps_impl_any {A} P (m : M A) :
  keeps (extends P) m -> keeps (extends any) m.
Proof.
  intros H w. destruct (H w) as [d [E _]]. exists d. split; [exact E|].
  apply Forall_forall. intros; exact I.
Qed.

Lemma since_app (w w' : world) d :
  trace w' = (trace w ++ d)%list -> since w w' = d.
Proof. intros E. unfold since. now rewrite E, skipn_added. Qed.

(** ** What the stages that make G.fst leave *)

Section Products.
Variable S : system.
Variable self : recipe.

(** [_compile_fst], by the fate of its two programs. *)
Lemma compile_fst_cases txt fst_path w :
  let temp := mktemp S (files w) in
  let compiler := fstcompile_job S self txt (files w) in
  let sorter := fstarcsort_job S self txt fst_path (files w) in
  let compiled :=
    put (job_files compiler) temp (File (flushed S (job_stdout compiler))) in
  let sorted := put (job_files sorter) fst_path (File (job_stdout sorter)) in
  let final := _compile_fst S self txt fst_path w in
  let c1 :=
    Exec (FstCompile (output_dir self ++ ["words.txt"])%list txt)
         (ToOpenFile temp) in
  let c2 := Exec (FstArcSort temp) (ToFile fst_path) in
  (job_ok compiler = false ->
   fst final = Raise RuntimeError /\
   files (snd final) = compiled /\
   filter is_exec (since w (snd final)) = [c1]) /\
  (job_ok compiler = true -> job_ok sorter = false ->
   fst final = Raise RuntimeError /\
   files (snd final) = sorted /\
   filter is_exec (since w (snd final)) = [c1; c2]) /\
  (job_ok compiler = true -> job_ok sorter = true ->
   filter is_exec (since w (snd final)) = [c1; c2] /\
   (exists_ sorted temp = true ->
    fst final = Return tt /\ files (snd final) = rmtree sorted temp) /\
   (exists_ sorted temp = false ->
    fst final = Raise OSError /\ files (snd final) = sorted)).
Proof.
  intros temp compiler sorter compiled sorted final c1 c2.
  subst final c1 c2 sorted compiled sorter compiler.
  unfold fstarcsort_job, fstcompile_job. fold temp.
  set (compiler :=
         gateway S (FstCompile (output_dir self ++ ["words.txt"])%list txt)
           (put (files w) temp (File ""))).
  set (compiled :=
         put (job_files compiler) temp
           (File (flushed S (job_stdout compiler)))).
  set (sorter := gateway S (FstArcSort temp) (put compiled fst_path (File ""))).
  set (sorted := put (job_files sorter) fst_path (File (job_stdout sorter))).
  unfold since, _compile_fst, named_temporary_file, run_job, remove,
    write_file, log, emit, bind, get_files, set_files, ret, raise.
  cbn. fold temp. fold compiler. fold compiled. fold sorter. fold sorted.
  split; [|split].
  - intros Hc. rewrite Hc. cbn.
    split; [reflexivity|]. split; [reflexivity|].
    rewrite <- !app_assoc. cbn. now rewrite skipn_added.
  - intros Hc Hs. rewrite Hc. cbn. fold sorter. fold sorted.
    rewrite Hs. cbn.
    split; [reflexivity|]. split; [reflexivity|].
    rewrite <- !app_assoc. cbn. now rewrite skipn_added.
  - intros Hc Hs. rewrite Hc. cbn. fold sorter. fold sorted.
    rewrite Hs. cbn. split; [|split].
    + destruct (exists_ sorted temp); cbn;
        rewrite <- !app_assoc; cbn; now rewrite skipn_added.
    + intros Ht. rewrite Ht. cbn. now split.
    + intros Ht. rewrite Ht. cbn. now split.
Qed.

(** What the FST file holds once the compiler has succeeded: the output
    of the sorter, whatever becomes of the sorter and of the removal of
    the temporary file. *)
Lemma compile_fst_product txt fst_path w :
  job_ok (fstcompile_job S self txt (files w)) = true ->
  under (mktemp S (files w)) fst_path = false ->
  files (snd (_compile_fst S self txt fst_path w)) fst_path =
  Some (File (job_stdout (fstarcsort_job S self txt fst_path (files w)))).
Proof.
  intros Hc Hu.
  destruct (compile_fst_cases txt fst_path w) as (_ & Hfail & Hok).
  destruct (job_ok (fstarcsort_job S self txt fst_path (files w))) eqn:Hs.
  - destruct (Hok Hc eq_refl) as (_ & Hthere & Hgone).
    destruct (exists_
                (put (job_files (fstarcsort_job S self txt fst_path (files w)))
                   fst_path
                   (File (job_stdout
                            (fstarcsort_job S self txt fst_path (files w)))))
                (mktemp S (files w))) eqn:Et.
    + destruct (Hthere eq_refl) as [_ ->].
      rewrite rmtree_other by assumption. apply put_same.
    + destruct (Hgone eq_refl) as [_ ->]. apply put_same.
  - destruct (Hfail Hc eq_refl) as (_ & -> & _). apply put_same.
Qed.

(** A compilation that returns: both programs have succeeded. *)
Lemma compile_fst_return txt fst_path w w' :
  _compile_fst S self txt fst_path w = (Return tt, w') ->
  job_ok (fstcompile_job S self txt (files w)) = true /\
  job_ok (fstarcsort_job S self txt fst_path (files w)) = true.
Proof.
  intros H. pose proof (f_equal fst H) as Hr. cbn [fst] in Hr.
  destruct (compile_fst_cases txt fst_path w) as (Hc & Hs & _).
  destruct (job_ok (fstcompile_job S self txt (files w))) eqn:Ec.
  - split; [reflexivity|].
    destruct (job_ok (fstarcsort_job S self txt fst_path (files w))) eqn:Es;
      [reflexivity|].
    destruct (Hs eq_refl eq_refl) as [Hx _]. congruence.
  - destruct (Hc eq_refl) as [Hx _]. congruence.
Qed.

(** The formatting stage runs one program, the formatter. *)
Lemma format_lm_execs arpa fst_path w :
  filter is_exec (since w (snd (_format_lm S self arpa fst_path w))) =
  [Exec (FormatLmSri (output_dir self) arpa (mkdtemp S (files w))) ToLog].
Proof.
  unfold since, _format_lm, make_temp_dir, try_finally, run_job, remove, move,
    log, emit, bind, get_files, set_files, ret, raise.
  cbn.
  repeat match goal with
         | |- context [if ?b then _ else _] => destruct b; cbn
         end;
    rewrite <- !app_assoc; cbn; now rewrite skipn_added.
Qed.

(** A formatting that returns: the formatter has succeeded, and the
    output directory is what it left in the temporary directory. *)
Lemma format_lm_return arpa fst_path w w' :
  let tmp_dir := mkdtemp S (files w) in
  let formatter := format_job S self arpa (files w) in
  _format_lm S self arpa fst_path w = (Return tt, w') ->
  under (output_dir self) tmp_dir = false ->
  under tmp_dir (output_dir self) = false ->
  job_ok formatter = true /\
  forall rel,
    files w' (output_dir self ++ rel)%list =
    job_files formatter (tmp_dir ++ rel)%list.
Proof.
  intros tmp_dir formatter H Hot Hto.
  pose proof (f_equal fst H) as Hr. pose proof (f_equal snd H) as Hw.
  cbn [fst snd] in Hr, Hw. subst w'. clear H.
  subst formatter. unfold format_job. fold tmp_dir.
  set (formatter :=
         gateway S (FormatLmSri (output_dir self) arpa tmp_dir)
           (put (files w) tmp_dir Dir)).
  destruct (job_ok formatter) eqn:Hok.
  - split; [reflexivity|].
    destruct (exists_ (job_files formatter) (output_dir self)) eqn:Eo.
    + destruct (exists_ (job_files formatter) tmp_dir) eqn:Et.
      * now destruct (format_lm_success S self arpa fst_path w Hok Eo Et
                        Hot Hto) as (_ & _ & Hrel).
      * exfalso. revert Hr.
        unfold _format_lm, make_temp_dir, try_finally, run_job, remove, move,
          log, emit, bind, get_files, set_files, ret, raise.
        cbn. fold tmp_dir. fold formatter. rewrite Hok. cbn. rewrite Eo. cbn.
        assert (E1 : exists_ (rmtree (job_files formatter) (output_dir self))
                       tmp_dir = false).
        { unfold exists_ in *. now rewrite rmtree_other. }
        rewrite E1. cbn. rewrite E1. cbn. discriminate.
    + exfalso. revert Hr.
      unfold _format_lm, make_temp_dir, try_finally, run_job, remove, move,
        log, emit, bind, get_files, set_files, ret, raise.
      cbn. fold tmp_dir. fold formatter. rewrite Hok. cbn. rewrite Eo. cbn.
      now destruct (exists_ (job_files formatter) tmp_dir).
  - exfalso.
    destruct (format_lm_failure S self arpa fst_path w Hok) as [Hx _].
    congruence.
Qed.

End Products.

(** ** Artifacts out of the way of the recipe *)

Section Sheltered.
Variable S : system.
Variable self : recipe.
Variable a : path.
Hypothesis shelter : sheltered S self a.
Hypothesis not_fst : path_eqb a (G_fst self) = false.

Ltac open_shelter :=
  pose proof shelter
    as (out_elsewhere & tmp_dir_elsewhere & tmp_file_elsewhere &
        programs_leave).

Lemma tmp_file_neq fs : path_eqb a (mktemp S fs) = false.
Proof.
  open_shelter. rewrite <- (app_nil_r (mktemp S fs)).
  apply under_false_neq, tmp_file_elsewhere.
Qed.

Ltac by_shelter :=
  intros ?;
  match goal with
  | H : forall c fs, staging_call _ _ c -> _ |- _ => apply H; constructor
  end.

Ltac leaves_step :=
  first
    [ apply leaves_ret | apply leaves_raise | apply leaves_get_files
    | apply leaves_emit | apply leaves_read_file
    | apply leaves_make_temp_dir; assumption
    | apply leaves_named_temporary_file; assumption
    | apply leaves_run_job; [by_shelter | try exact I]
    | apply leaves_try_finally
    | apply leaves_bind; [|intros ?]
    | match goal with
      | |- keeps _ (if ?b then _ else _) => destruct b
      | |- keeps _ (match ?x with _ => _ end) => destruct x
      end ].

Lemma check_parameters_leaves :
  keeps (preserves a) (check_parameters self).
Proof.
  unfold check_parameters, _check_level, _check_order,
    _check_silence_probability, _check_position_dependent, log.
  repeat leaves_step.
Qed.

Lemma prepare_lang_leaves : keeps (preserves a) (_prepare_lang S self).
Proof.
  open_shelter. unfold _prepare_lang, log. repeat leaves_step.
Qed.

Lemma compile_fst_leaves :
  keeps (preserves a) (_compile_fst S self (G_txt self) (G_fst self)).
Proof.
  open_shelter. unfold _compile_fst, log.
  apply leaves_bind; [apply leaves_emit | intros _].
  intros w Hw. unfold bind at 1.
  set (temp := mktemp S (files w)).
  change (named_temporary_file S w)
    with (Return temp, World (put (files w) temp (File "")) (trace w)).
  cbv iota beta.
  assert (Hn : path_eqb a temp = false) by apply tmp_file_neq.
  assert (H1 : preserves a w
                 (World (put (files w) temp (File "")) (trace w))).
  { intros _. simpl. now apply put_other. }
  eapply preserves_trans; [exact H1| |exact Hw].
  match goal with |- preserves a ?w1 (snd (?m ?w1)) =>
    assert (Hm : keeps (preserves a) m); [|apply Hm] end.
  repeat first
    [ apply leaves_write_file; assumption
    | apply leaves_remove; apply tmp_file_elsewhere
    | apply leaves_run_job; [by_shelter | try assumption]
    | leaves_step ].
Qed.

Lemma format_lm_leaves :
  keeps (preserves a) (_format_lm S self (G_arpa self) (G_fst self)).
Proof.
  open_shelter. unfold _format_lm, log.
  apply leaves_bind; [apply leaves_emit | intros _].
  intros w Hw. unfold bind at 1.
  set (tmp_dir := mkdtemp S (files w)).
  change (make_temp_dir S w)
    with (Return tmp_dir, World (put (files w) tmp_dir Dir) (trace w)).
  cbv iota beta.
  assert (Hu : under tmp_dir a = false) by apply tmp_dir_elsewhere.
  assert (H1 : preserves a w
                 (World (put (files w) tmp_dir Dir) (trace w))).
  { intros _. simpl. apply put_other.
    rewrite <- (app_nil_r tmp_dir). now apply under_false_neq. }
  eapply preserves_trans; [exact H1| |exact Hw].
  match goal with |- preserves a ?w1 (snd (?m ?w1)) =>
    assert (Hm : keeps (preserves a) m); [|apply Hm] end.
  repeat first
    [ apply leaves_remove; assumption
    | apply leaves_move; assumption
    | leaves_step ].
Qed.

End Sheltered.


Lemma isfile_preserved a w w' :
  preserves a w w' -> isfile (files w) a = true -> isfile (files w') a = true.
Proof. intros H Hw. unfold isfile. now rewrite (H Hw). Qed.

Lemma txt_not_fst self : path_eqb (G_txt self) (G_fst self) = false.
Proof. apply sibling_neq. discriminate. Qed.

Lemma arpa_not_fst self : path_eqb (G_arpa self) (G_fst self) = false.
Proof. apply sibling_neq. discriminate. Qed.

Section TwoRuns.
Variable S : system.
Variable self : recipe.
Hypothesis shelter_txt : sheltered S self (G_txt self).
Hypothesis shelter_arpa : sheltered S self (G_arpa self).

Lemma prefix_leaves a :
  sheltered S self a ->
  keeps (preserves a) (check_parameters self ;; _prepare_lang S self).
Proof.
  intros Ha. apply leaves_bind; [apply check_parameters_leaves|].
  intros _. now apply prepare_lang_leaves.
Qed.

Lemma prefix_quiet :
  keeps (extends quiet) (check_parameters self ;; _prepare_lang S self).
Proof.
  apply grows_bind; [apply check_parameters_quiet|].
  intros _. apply prepare_lang_quiet.
Qed.

Lemma prefix_seeded w :
  seeded self w ->
  seeded self (snd ((check_parameters self ;; _prepare_lang S self) w)).
Proof.
  intros [H|H]; [left|right];
    eapply isfile_preserved; try exact H; now apply prefix_leaves.
Qed.

(** After a run that succeeded one of the two artifacts is there. *)
Lemma run_seeds w0 w1 : run S self w0 = (Return tt, w1) -> seeded self w1.
Proof.
  rewrite run_stages. intros H.
  apply bind_inv in H as ([] & wc & Hc & H).
  apply bind_inv in H as ([] & wp & Hp & H).
  destruct (isfile (files wp) (G_txt self)) eqn:Htxt.
  - rewrite stages_grammar in H by assumption. left.
    pose proof (@compile_fst_leaves S self (G_txt self) shelter_txt
                  (txt_not_fst self) wp Htxt) as Hk.
    rewrite H in Hk. simpl in Hk. unfold isfile. now rewrite Hk.
  - right. destruct (isfile (files wp) (G_arpa self)) eqn:Harpa.
    + rewrite stages_arpa in H by assumption.
      pose proof (@format_lm_leaves S self (G_arpa self) shelter_arpa
                    wp Harpa) as Hk.
      rewrite H in Hk. simpl in Hk. unfold isfile. now rewrite Hk.
    + rewrite stages_text in H by assumption.
      apply bind_inv in H as ([] & w2 & Hcomp & H).
      apply compute_lm_returns in Hcomp.
      pose proof (@format_lm_leaves S self (G_arpa self) shelter_arpa
                    w2 Hcomp) as Hk.
      rewrite H in Hk. simpl in Hk. unfold isfile. now rewrite Hk.
Qed.

(** With one of the artifacts there, the stages chosen are quiet and
    leave the artifacts alone. *)
Lemma stages_seeded w :
  seeded self w ->
  extends quiet w (snd (stages S self w)) /\
  preserves (G_txt self) w (snd (stages S self w)) /\
  preserves (G_arpa self) w (snd (stages S self w)).
Proof.
  intros Hs. destruct (isfile (files w) (G_txt self)) eqn:Htxt.
  - rewrite stages_grammar by assumption. repeat split.
    + apply compile_fst_quiet.
    + apply compile_fst_leaves; [assumption | apply txt_not_fst].
    + apply compile_fst_leaves; [assumption | apply arpa_not_fst].
  - destruct Hs as [Hs|Harpa]; [congruence|].
    rewrite stages_arpa by assumption. repeat split.
    + apply format_lm_quiet.
    + now apply format_lm_leaves.
    + now apply format_lm_leaves.
Qed.

Lemma run_world w :
  snd (run S self w) =
  match (check_parameters self ;; _prepare_lang S self) w with
  | (Return _, wp) => snd (stages S self wp)
  | (Raise _, wp) => wp
  end.
Proof.
  rewrite run_stages. unfold bind.
  destruct (check_parameters self w) as [[u|e] wc]; [|reflexivity].
  destruct (_prepare_lang S self wc) as [[u'|e] wp]; reflexivity.
Qed.

Lemma run_seeded w :
  seeded self w ->
  extends quiet w (snd (run S self w)) /\
  preserves (G_txt self) w (snd (run S self w)) /\
  preserves (G_arpa self) w (snd (run S self w)).
Proof.
  intros Hs. rewrite run_world.
  pose proof (prefix_quiet w) as Hq.
  pose proof (@prefix_leaves (G_txt self) shelter_txt w) as Ht.
  pose proof (@prefix_leaves (G_arpa self) shelter_arpa w) as Ha.
  pose proof (prefix_seeded Hs) as Hs'.
  destruct ((check_parameters self ;; _prepare_lang S self) w)
    as [[u|e] wp]; simpl in *; [|now repeat split].
  destruct (stages_seeded Hs') as (Hq' & Ht' & Ha').
  repeat split.
  - eapply extends_trans; eassumption.
  - eapply preserves_trans; eassumption.
  - eapply preserves_trans; eassumption.
Qed.

Lemma stages_model w :
  isfile (files w) (G_txt self) = false ->
  stages S self w =
  ((if negb (isfile (files w) (G_arpa self))
    then _compute_lm S self (G_arpa self) else ret tt) ;;
   _format_lm S self (G_arpa self) (G_fst self)) w.
Proof.
  intros H. unfold stages. unfold bind at 1. unfold get_files.
  now rewrite H.
Qed.

Lemma returned (m : M unit) w :
  fst (m w) = Return tt -> m w = (Return tt, snd (m w)).
Proof. intros H. rewrite (run_pair m w) at 1. now rewrite H. Qed.

(** With G.txt on both runs, G.fst is each time what the sorter
    printed. *)
Lemma second_grammar w0 w1 p1 p2 :
  temporaries_apart S self ->
  run S self w0 = (Return tt, w1) ->
  fst (run S self w1) = Return tt ->
  (check_parameters self ;; _prepare_lang S self) w0 = (Return tt, p1) ->
  (check_parameters self ;; _prepare_lang S self) w1 = (Return tt, p2) ->
  isfile (files p1) (G_txt self) = true ->
  files w1 (G_fst self) =
    Some (File (job_stdout
                  (fstarcsort_job S self (G_txt self) (G_fst self)
                     (files p1)))) /\
  files (snd (run S self w1)) (G_fst self) =
    Some (File (job_stdout
                  (fstarcsort_job S self (G_txt self) (G_fst self)
                     (files p2)))).
Proof.
  intros (Hf & _ & _) Hrun Hret Hp1 Hp2 Htxt.
  rewrite (@run_after_prepare S self _ _ Hp1) in Hrun.
  rewrite (@run_after_prepare S self _ _ Hp2) in Hret |- *.
  rewrite stages_grammar in Hrun by assumption.
  assert (Htxt2 : isfile (files p2) (G_txt self) = true).
  { assert (H1 : isfile (files w1) (G_txt self) = true).
    { pose proof (@compile_fst_leaves S self (G_txt self) shelter_txt
                    (txt_not_fst self) p1 Htxt) as Hk.
      rewrite Hrun in Hk. simpl in Hk. unfold isfile. now rewrite Hk. }
    pose proof (@prefix_leaves (G_txt self) shelter_txt w1 H1) as Hk.
    rewrite Hp2 in Hk. simpl in Hk. unfold isfile. now rewrite Hk. }
  rewrite stages_grammar in Hret |- * by assumption.
  apply returned in Hret.
  destruct (@compile_fst_return S self _ _ _ _ Hrun) as [Hc1 _].
  destruct (@compile_fst_return S self _ _ _ _ Hret) as [Hc2 _].
  split.
  - rewrite <- (compile_fst_product S self (G_txt self) (G_fst self) p1 Hc1
                  (Hf (files p1))).
    now rewrite Hrun.
  - apply compile_fst_product; [exact Hc2 | apply Hf].
Qed.

(** Without G.txt on either run, the output directory is each time what
    the formatter left in its temporary directory. *)
Lemma second_model w0 w1 p1 p2 f1 :
  temporaries_apart S self ->
  run S self w0 = (Return tt, w1) ->
  fst (run S self w1) = Return tt ->
  (check_parameters self ;; _prepare_lang S self) w0 = (Return tt, p1) ->
  (check_parameters self ;; _prepare_lang S self) w1 = (Return tt, p2) ->
  isfile (files p1) (G_txt self) = false ->
  isfile (files p2) (G_txt self) = false ->
  (if negb (isfile (files p1) (G_arpa self))
   then _compute_lm S self (G_arpa self) else ret tt) p1 = (Return tt, f1) ->
  forall rel,
    files w1 (output_dir self ++ rel)%list =
      job_files (format_job S self (G_arpa self) (files f1))
        (mkdtemp S (files f1) ++ rel)%list /\
    files (snd (run S self w1)) (output_dir self ++ rel)%list =
      job_files (format_job S self (G_arpa self) (files p2))
        (mkdtemp S (files p2) ++ rel)%list.
Proof.
  intros (_ & Hot & Hto) Hrun Hret Hp1 Hp2 Hno1 Hno2 Hf1 rel.
  pose proof (@run_seeds w0 w1 Hrun) as Hseed.
  rewrite (@run_after_prepare S self _ _ Hp1) in Hrun.
  rewrite (@run_after_prepare S self _ _ Hp2) in Hret |- *.
  rewrite stages_model in Hrun by assumption.
  rewrite (@bind_return _ _ _ _ _ _ _ Hf1) in Hrun.
  assert (Harpa2 : isfile (files p2) (G_arpa self) = true).
  { destruct Hseed as [H1|H1].
    - pose proof (@prefix_leaves (G_txt self) shelter_txt w1 H1) as Hk.
      rewrite Hp2 in Hk. simpl in Hk. unfold isfile in Hno2.
      rewrite Hk in Hno2. unfold isfile in H1. congruence.
    - pose proof (@prefix_leaves (G_arpa self) shelter_arpa w1 H1) as Hk.
      rewrite Hp2 in Hk. simpl in Hk. unfold isfile. now rewrite Hk. }
  rewrite stages_arpa in Hret |- * by assumption.
  apply returned in Hret.
  split.
  - now destruct (@format_lm_return S self _ _ _ _ Hrun
                    (Hot (files f1)) (Hto (files f1))).
  - now destruct (@format_lm_return S self _ _ _ _ Hret
                    (Hot (files p2)) (Hto (files p2))).
Qed.

End TwoRuns.




(** ** The test doubles *)

Lemma put_new_keeps (fs : filesystem) p n a :
  exists_ fs a = true -> Stub.put_new fs p n a = fs a.
Proof.
  intros Ha. unfold Stub.put_new.
  destruct (exists_ fs p) eqn:Ep; [reflexivity|].
  apply put_other. apply path_eqb_neq. intros ->. congruence.
Qed.

Lemma put_new_exists (fs : filesystem) p n a :
  exists_ fs a = true -> exists_ (Stub.put_new fs p n) a = true.
Proof.
  intros Ha. unfold exists_ at 1. now rewrite put_new_keeps.
Qed.

Lemma isfile_exists (fs : filesystem) a :
  isfile fs a = true -> exists_ fs a = true.
Proof. unfold isfile, exists_. now destruct (fs a). Qed.

Lemma tools_leave c fs a :
  isfile fs a = true -> job_files (Stub.tools c fs) a = fs a.
Proof.
  intros Ha. apply isfile_exists in Ha.
  destruct c; simpl;
    repeat first [ reflexivity
                 | rewrite put_new_keeps
                 | apply put_new_exists
                 | assumption ].
Qed.

Lemma machine_shelters (self : recipe) (a : path) :
  under (output_dir self) a = false ->
  under Stub.temp_dir a = false ->
  under Stub.temp_file a = false ->
  sheltered Stub.machine self a.
Proof.
  intros Ho Hd Hf. split; [exact Ho|]. split; [intros fs; exact Hd|].
  split; [intros fs; exact Hf|]. intros c fs _. apply tools_leave.
Qed.

Lemma under_apart (d p q : path) :
  under d p = true -> under d q = false -> path_eqb p q = false.
Proof.
  intros Hp Hq. apply path_eqb_neq. intros ->. congruence.
Qed.

Lemma mkfs_outside (entries : list (path * node)) (d : path) :
  forallb (fun e => negb (under d (fst e))) entries = true ->
  forall p, under d p = true -> Stub.mkfs entries p = None.
Proof.
  intros H p Hp. induction entries as [|[q n] entries IH]; [reflexivity|].
  simpl in H. apply andb_true_iff in H as [Hq H].
  apply negb_true_iff in Hq. simpl.
  now rewrite (@under_apart d p q Hp Hq), IH.
Qed.

(** ** The theorems at work *)

(** C1.  [run] on a recipe whose working directory holds the grammar
    G.txt, the text "0 1 a a", with programs that succeed.  The stage
    chosen is the compilation and nothing of the n-gram computation
    happens: the programs run are the preparation, the compiler on G.txt
    and the sorter on the temporary file.  But what the compiler
    printed, the compilation of G.txt, has gone through the temporary
    file object, which is neither flushed nor closed before the sorter
    reads the file: G.fst holds the sorting of an empty file, not the
    sorting of the compiled grammar. *)
Theorem grammar_is_sorted_before_it_is_flushed :
  let final := run Stub.machine Stub.trigram Stub.with_grammar in
  let prepared := files (Stub.prepared Stub.with_grammar) in
  let printed :=
    job_stdout
      (fstcompile_job Stub.machine Stub.trigram (G_txt Stub.trigram)
         prepared) in
  fst final = Return tt /\
  since Stub.with_grammar (snd final) =
    [ Log INFO Preprocessing_corpus;
      Exec (PrepareLang ["recipe"; "utils"; "prepare_lang.sh"] false (1 # 2)
              ["recipe"; "local"] ["out"; "local"] ["out"]) ToLog;
      Log DEBUG (Output "prepare_lang: done");
      Log INFO Compiling_text_FST;
      Log DEBUG
        (Running
           (FstCompile ["out"; "words.txt"] ["recipe"; "local"; "G.txt"])
           ["tmp"; "tmpfile"]);
      Exec (FstCompile ["out"; "words.txt"] ["recipe"; "local"; "G.txt"])
           (ToOpenFile ["tmp"; "tmpfile"]);
      Log DEBUG
        (Running (FstArcSort ["tmp"; "tmpfile"])
           ["recipe"; "local"; "G.fst"]);
      Exec (FstArcSort ["tmp"; "tmpfile"])
           (ToFile ["recipe"; "local"; "G.fst"]) ] /\
  printed = "compiled 0 1 a a" /\
  files (snd final) (G_fst Stub.trigram) = Some (File "sorted ") /\
  job_stdout
    (gateway Stub.machine (FstArcSort Stub.temp_file)
       (put prepared Stub.temp_file (File printed))) =
  "sorted compiled 0 1 a a".
Proof. repeat split; vm_compute; reflexivity. Qed.


Lemma format_lm_failure_is_clean_witness :
  fst (_format_lm Stub.broken_machine Stub.trigram (G_arpa Stub.trigram)
         (G_fst Stub.trigram) Stub.with_arpa) = Raise RuntimeError /\
  exists_
    (files (snd (_format_lm Stub.broken_machine Stub.trigram
                   (G_arpa Stub.trigram) (G_fst Stub.trigram)
                   Stub.with_arpa)))
    Stub.temp_dir = false /\
  forall p,
    under ["out"] p = true ->
    files (snd (_format_lm Stub.broken_machine Stub.trigram
                  (G_arpa Stub.trigram) (G_fst Stub.trigram)
                  Stub.with_arpa)) p =
    files Stub.with_arpa p.
Proof.
  apply (proj1 (@format_lm_failure_is_clean Stub.broken_machine Stub.trigram
                  (G_arpa Stub.trigram) (G_fst Stub.trigram) Stub.with_arpa)).
  - reflexivity.
  - intros p Hp. simpl. unfold put.
    rewrite (@under_apart Stub.temp_dir p ["recipe"; "local"; "G.arpa.gz"] Hp
               eq_refl).
    exact (@mkfs_outside
             [(["out"], Dir); (["recipe"; "local"], Dir);
              (["recipe"; "local"; "lm_text.txt"], File Stub.lm_text)]
             Stub.temp_dir eq_refl p Hp).
  - intros p Hp. simpl. unfold Stub.put_new. simpl.
    apply put_other.
    apply (@under_apart ["out"] p); [exact Hp | reflexivity].
Defined.

Lemma lexicon_words_are_lowercase_witness :
  "hello h xa l o" ++ AIC.newline ++ "qq qq" ++ AIC.newline =
  AIC.render
    (AIC.lexicon_entries ("HELLO HH AH L OW" ++ AIC.newline)
       (AIC.oov_line "QQ" 3)) /\
  Forall (fun e => lowercase (fst e))
    (AIC.lexicon_entries ("HELLO HH AH L OW" ++ AIC.newline)
       (AIC.oov_line "QQ" 3)).
Proof.
  apply (proj1 lexicon_words_are_lowercase
           ("HELLO HH AH L OW" ++ AIC.newline) (AIC.oov_line "QQ" 3)
           ("hello h xa l o" ++ AIC.newline ++ "qq qq" ++ AIC.newline)).
  vm_compute. reflexivity.
Defined.

(* ================================================================== *)
(** * Part III.  Further properties                                  *)
(* ================================================================== *)

(** ** More on strings *)

Lemma lines_from_cat (s : string) :
  forall cur, Py.cat (Py.lines_from cur s) = cur ++ s.
Proof.
  unfold Py.cat.
  induction s as [|c s IH]; intros cur; simpl.
  - destruct cur; simpl; [reflexivity|].
    now rewrite !append_nil_r.
  - destruct (Ascii.eqb c Py.nl); simpl; rewrite IH; simpl;
      now rewrite ?snoc_append.
Qed.

Lemma cat_readlines (s : string) : Py.cat (Py.readlines s) = s.
Proof. unfold Py.readlines. now rewrite lines_from_cat. Qed.

Lemma without_ext (p q : ascii -> bool) (s : string) :
  (forall c, p c = q c) -> without p s = without q s.
Proof.
  intros H. induction s as [|c s IH]; simpl; [reflexivity|].
  now rewrite H, IH.
Qed.

Lemma without_without (p q : ascii -> bool) (s : string) :
  without p (without q s) = without (fun c => q c || p c) s.
Proof.
  induction s as [|c s IH]; simpl; [reflexivity|].
  destruct (q c); simpl; [assumption|].
  destruct (p c); now rewrite IH.
Qed.

Lemma without_clean (p : ascii -> bool) (s : string) :
  Py.sall (fun c => negb (p c)) (without p s) = true.
Proof.
  induction s as [|c s IH]; simpl; [reflexivity|].
  destruct (p c) eqn:E; simpl; [assumption|].
  now rewrite E, IH.
Qed.

Lemma without_nothing (p : ascii -> bool) (s : string) :
  Py.sall (fun c => negb (p c)) s = true -> without p s = s.
Proof.
  induction s as [|c s IH]; simpl; [reflexivity|].
  intros H. apply andb_prop in H as [H1 H2].
  destruct (p c); [discriminate|]. now rewrite IH.
Qed.

Lemma without_keeps (p q : ascii -> bool) (s : string) :
  Py.sall q s = true -> Py.sall q (without p s) = true.
Proof.
  induction s as [|c s IH]; simpl; [reflexivity|].
  intros H. apply andb_prop in H as [H1 H2].
  destruct (p c); simpl; [auto|]. now rewrite H1, IH.
Qed.

Lemma replace_char_without (c : ascii) (s : string) :
  Py.replace (String c "") "" s = without (fun x => Ascii.eqb c x) s.
Proof.
  unfold Py.replace.
  induction s as [|x s IH]; simpl; [reflexivity|].
  destruct (Ascii.eqb c x); simpl; now rewrite IH.
Qed.

Lemma strip_stress_without (phn : string) :
  AIC.strip_stress phn = without (Re.one_of "012") phn.
Proof.
  unfold AIC.strip_stress.
  change "0" with (String "0"%char ""); change "1" with (String "1"%char "");
    change "2" with (String "2"%char "").
  rewrite !replace_char_without, !without_without.
  apply without_ext. intros c.
  destruct c as [[] [] [] [] [] [] [] []]; reflexivity.
Qed.

(** X1. The three replacements of [temp_cmu_lexicon] delete every
    stress digit 0, 1 and 2 of a pronunciation and nothing else: what is
    left is the pronunciation without these characters, in the same
    order; none of them remains, and a pronunciation that has none is
    left as it is. *)
Theorem strip_stress_removes_stress_digits (phn : string) :
  AIC.strip_stress phn = without (Re.one_of "012") phn /\
  Py.sall (fun c => negb (Re.one_of "012" c)) (AIC.strip_stress phn) = true /\
  (Py.sall (fun c => negb (Re.one_of "012" c)) phn = true ->
   AIC.strip_stress phn = phn).
Proof.
  rewrite strip_stress_without. split; [reflexivity|]. split.
  - apply without_clean.
  - apply without_nothing.
Qed.

Lemma strip_stress_removes_stress_digits_witness :
  AIC.strip_stress "HH AH L OW" = "HH AH L OW".
Proof.
  apply (strip_stress_removes_stress_digits "HH AH L OW"). reflexivity.
Defined.

(** X2. [make_transcription] writes the two input files one after the
    other, byte for byte: reading a file line by line and writing each
    line gives the file back, whether or not its last line ends with a
    newline. *)
Theorem make_transcription_concatenates (input_file1 input_file2 : string) :
  AICCorpus.make_transcription input_file1 input_file2 =
  input_file1 ++ input_file2.
Proof.
  unfold AICCorpus.make_transcription. now rewrite !cat_readlines.
Qed.

(** ** File names *)

Lemma startswith_refl (s : string) : Py.startswith s s = true.
Proof.
  induction s as [|c s IH]; simpl; [reflexivity|].
  now rewrite Ascii.eqb_refl.
Qed.

Lemma replace_from_skip_all (old new s : string) :
  forall k, String.length s <= k -> Py.replace_from old new k s = "".
Proof.
  induction s as [|c s IH]; intros k Hk; simpl; [reflexivity|].
  destruct k as [|k]; simpl in Hk; [lia|]. apply IH. lia.
Qed.

Lemma replace_suffix (h : ascii) (t new body : string) :
  free_of h body = true ->
  Py.replace (String h t) new (body ++ String h t) = body ++ new.
Proof.
  unfold Py.replace, free_of.
  induction body as [|c body IH]; intros Hfree.
  - cbn [append Py.replace_from].
    rewrite startswith_refl.
    rewrite replace_from_skip_all by (simpl; lia).
    now rewrite append_nil_r.
  - simpl in Hfree. apply andb_prop in Hfree as [Hc Hfree].
    cbn [append Py.replace_from Py.startswith].
    rewrite Ascii.eqb_sym.
    destruct (Ascii.eqb c h); [discriminate|]. simpl.
    now rewrite IH.
Qed.

Lemma split_from_free (sep : ascii) (s : string) :
  forall cur,
    free_of sep s = true -> Py.split_from sep cur s = [cur ++ s].
Proof.
  unfold free_of.
  induction s as [|c s IH]; intros cur H; simpl.
  - now rewrite append_nil_r.
  - simpl in H. apply andb_prop in H as [Hc H].
    destruct (Ascii.eqb c sep); [discriminate|].
    rewrite IH by assumption. now rewrite snoc_append.
Qed.

Lemma split_from_first (sep : ascii) (a rest : string) :
  forall cur,
    free_of sep a = true ->
    Py.split_from sep cur (a ++ String sep rest) =
    (cur ++ a) :: Py.split_from sep "" rest.
Proof.
  unfold free_of.
  induction a as [|c a IH]; intros cur H; simpl.
  - rewrite Ascii.eqb_refl. now rewrite append_nil_r.
  - simpl in H. apply andb_prop in H as [Hc H].
    destruct (Ascii.eqb c sep); [discriminate|].
    rewrite IH by assumption. now rewrite snoc_append.
Qed.

Lemma last_cons_nonempty {A} (x : A) (l : list A) (d : A) :
  l <> [] -> last (x :: l) d = last l d.
Proof. destruct l; [congruence | reflexivity]. Qed.

Lemma last_split_from (dir name : string) :
  forall cur,
    free_of "/" name = true ->
    last (Py.split_from "/" cur (dir ++ String "/" name)) "" = name.
Proof.
  induction dir as [|c dir IH]; intros cur H.
  - cbn [append Py.split_from]. rewrite Ascii.eqb_refl.
    now rewrite split_from_free.
  - cbn [append Py.split_from].
    destruct (Ascii.eqb c "/").
    + rewrite last_cons_nonempty by apply split_from_nonempty.
      now apply IH.
    + now apply IH.
Qed.

Lemma basename_in_directory (dir name : string) :
  free_of "/" name = true ->
  Os.basename (dir ++ "/" ++ name) = name.
Proof. intros H. unfold Os.basename, Py.split. now apply last_split_from. Qed.

Lemma basename_plain (name : string) :
  free_of "/" name = true -> Os.basename name = name.
Proof.
  intros H. unfold Os.basename, Py.split. now rewrite split_from_free.
Qed.

Lemma free_of_append (x : ascii) (a b : string) :
  free_of x (a ++ b) = free_of x a && free_of x b.
Proof. apply sall_append. Qed.

Lemma well_named_parts (u : string * string) :
  well_named u = true ->
  free_of "_" (fst u) = true /\ free_of "." (stem u) = true /\
  free_of "/" (stem u) = true.
Proof.
  unfold well_named. intros H.
  apply andb_prop in H as [H H3]. apply andb_prop in H as [H1 H2]. auto.
Qed.

Lemma utt_id_of_wav (name : string) :
  free_of "." name = true -> Py.replace ".wav" "" (name ++ ".wav") = name.
Proof.
  intros H. change ".wav" with (String "."%char "wav").
  rewrite replace_suffix by assumption. apply append_nil_r.
Qed.

Lemma speaker_of_wav (u : string * string) :
  free_of "_" (fst u) = true ->
  nth 0 (Py.split "_" (stem u ++ ".wav")) "" = fst u.
Proof.
  intros H. unfold stem, Py.split.
  rewrite !append_assoc. cbn [append].
  now rewrite split_from_first.
Qed.

(** X3. [list_audio_files] names the wav of a flac file by the name of
    the flac with its extension changed, whatever directory the flac is
    in, as long as the name has no other dot; it returns the flac paths
    as it found them and as many wav names. *)
Theorem list_audio_files_names (flacs : list string) (names : list string) :
  Forall2 (fun flac name =>
             Os.basename flac = name ++ ".flac" /\ free_of "." name = true)
          flacs names ->
  AICCorpus.list_audio_files flacs =
  (flacs, map (fun name => name ++ ".wav") names).
Proof.
  unfold AICCorpus.list_audio_files. intros H. f_equal.
  induction H as [|flac name flacs names [Hb Hfree] _ IH]; cbn [map];
    [reflexivity|].
  rewrite IH, Hb. f_equal.
  change ".flac" with (String "."%char "flac").
  now rewrite replace_suffix.
Qed.

Lemma list_audio_files_names_witness :
  AICCorpus.list_audio_files ["/corpus/flac/f01_p_ba.flac"; "m02_s_ki.flac"] =
  (["/corpus/flac/f01_p_ba.flac"; "m02_s_ki.flac"],
   ["f01_p_ba.wav"; "m02_s_ki.wav"]).
Proof.
  apply (@list_audio_files_names
           ["/corpus/flac/f01_p_ba.flac"; "m02_s_ki.flac"]
           ["f01_p_ba"; "m02_s_ki"]).
  repeat constructor.
Defined.

(** X4. [make_segment] writes one line for each wav file, in the order
    of the listing: the name of the file without its directory and
    without [.wav] as the utterance id, a space, and the name of the
    file. *)
Theorem make_segment_lines (wavs : list string) (names : list string) :
  Forall2 (fun wav name =>
             Os.basename wav = name ++ ".wav" /\ free_of "." name = true)
          wavs names ->
  AICCorpus.make_segment wavs =
  Py.cat (map (fun name => name ++ " " ++ name ++ ".wav" ++ AIC.newline)
              names).
Proof.
  unfold AICCorpus.make_segment. intros H. f_equal.
  induction H as [|wav name wavs names [Hb Hfree] _ IH]; cbn [map];
    [reflexivity|].
  rewrite IH. f_equal.
  unfold AICCorpus.segment_line. rewrite Hb.
  rewrite utt_id_of_wav by assumption. now rewrite !append_assoc.
Qed.

Lemma make_segment_lines_witness :
  AICCorpus.make_segment ["/corpus/wavs/f01_p_ba.wav"; "m02_s_ki.wav"] =
  Py.cat ["f01_p_ba f01_p_ba.wav" ++ AIC.newline;
          "m02_s_ki m02_s_ki.wav" ++ AIC.newline].
Proof.
  apply (@make_segment_lines
           ["/corpus/wavs/f01_p_ba.wav"; "m02_s_ki.wav"]
           ["f01_p_ba"; "m02_s_ki"]).
  repeat constructor.
Defined.

(** X5. [make_speaker] gives every utterance the speaker its file name
    begins with: for a wav file named speaker, underscore, rest, with
    the extension [.wav], it writes the name without the extension as
    the utterance id and what comes before the first underscore as the
    speaker, so that the speaker is a prefix of the utterance id; a file
    name without any underscore gets the whole name, extension
    included, as its speaker. *)
Theorem make_speaker_lines (wavs : list string) :
  (forall utts : list (string * string),
      Forall2 (fun wav u => Os.basename wav = stem u ++ ".wav") wavs utts ->
      Forall (fun u => well_named u = true) utts ->
      AICCorpus.make_speaker wavs =
      Py.cat (map (fun u => stem u ++ " " ++ fst u ++ AIC.newline) utts)) /\
  (forall names : list string,
      Forall2 (fun wav name => Os.basename wav = name ++ ".wav") wavs names ->
      Forall (fun name => free_of "." name = true /\
                          free_of "_" name = true) names ->
      AICCorpus.make_speaker wavs =
      Py.cat (map (fun name => name ++ " " ++ name ++ ".wav" ++ AIC.newline)
                  names)).
Proof.
  unfold AICCorpus.make_speaker. split.
  - intros utts H Hnamed. f_equal.
    induction H as [|wav u wavs utts Hb _ IH]; cbn [map]; [reflexivity|].
    inversion Hnamed as [|? ? Hu Hrest]; subst.
    rewrite (IH Hrest). f_equal.
    apply well_named_parts in Hu as (H1 & H2 & H3).
    unfold AICCorpus.speaker_line. rewrite Hb.
    now rewrite utt_id_of_wav, speaker_of_wav.
  - intros names H Hnamed. f_equal.
    induction H as [|wav name wavs names Hb _ IH]; cbn [map]; [reflexivity|].
    inversion Hnamed as [|? ? [H1 H2] Hrest]; subst.
    rewrite (IH Hrest). f_equal.
    unfold AICCorpus.speaker_line. rewrite Hb.
    rewrite utt_id_of_wav by assumption.
    unfold Py.split. rewrite split_from_free.
    + cbn [nth]. now rewrite !append_assoc.
    + rewrite free_of_append, H2. reflexivity.
Qed.

Lemma make_speaker_lines_witness :
  AICCorpus.make_speaker ["/corpus/wavs/f01_p_ba.wav"; "m02_s_ki.wav"] =
  Py.cat ["f01_p_ba f01" ++ AIC.newline; "m02_s_ki m02" ++ AIC.newline].
Proof.
  apply (proj1 (make_speaker_lines
                  ["/corpus/wavs/f01_p_ba.wav"; "m02_s_ki.wav"])
           [("f01", "p_ba"); ("m02", "s_ki")]).
  - repeat constructor.
  - repeat constructor.
Defined.

(** ** Sorting, dictionaries and counting *)

Lemma insert_desc_perm (x : string * Z) (l : list (string * Z)) :
  Permutation (AIC.insert_desc x l) (x :: l).
Proof.
  induction l as [|y l IH]; simpl; [apply Permutation_refl|].
  destruct (snd y <=? snd x)%Z; [apply Permutation_refl|].
  eapply Permutation_trans; [apply perm_skip, IH | apply perm_swap].
Qed.

Lemma sorted_desc_perm (l : list (string * Z)) :
  Permutation (AIC.sorted_desc l) l.
Proof.
  unfold AIC.sorted_desc.
  induction l as [|x l IH]; simpl; [apply Permutation_refl|].
  eapply Permutation_trans; [apply insert_desc_perm | apply perm_skip, IH].
Qed.

Lemma insert_desc_descending (x : string * Z) (l : list (string * Z)) :
  descending l -> descending (AIC.insert_desc x l).
Proof.
  unfold descending.
  induction l as [|y l IH]; intros H; simpl.
  - constructor; constructor.
  - inversion H as [|? ? Hl Hy]; subst.
    destruct (snd y <=? snd x)%Z eqn:E.
    + apply Z.leb_le in E. constructor; [assumption|].
      constructor; [assumption|].
      eapply Forall_impl; [|exact Hy]. simpl. intros z Hz. lia.
    + apply Z.leb_gt in E. constructor; [now apply IH|].
      eapply Permutation_Forall.
      * apply Permutation_sym, insert_desc_perm.
      * constructor; [lia | assumption].
Qed.

Lemma sorted_desc_descending (l : list (string * Z)) :
  descending (AIC.sorted_desc l).
Proof.
  unfold AIC.sorted_desc.
  induction l as [|x l IH]; simpl.
  - constructor.
  - now apply insert_desc_descending.
Qed.

Lemma insert_desc_stable (n : Z) (x : string * Z) (l : list (string * Z)) :
  filter (fun kv => (snd kv =? n)%Z) (AIC.insert_desc x l) =
  filter (fun kv => (snd kv =? n)%Z) (x :: l).
Proof.
  induction l as [|y l IH]; [reflexivity|].
  cbn [AIC.insert_desc].
  destruct (snd y <=? snd x)%Z eqn:E; [reflexivity|].
  apply Z.leb_gt in E.
  cbn [filter] in *. rewrite IH.
  destruct (snd x =? n)%Z eqn:Ex, (snd y =? n)%Z eqn:Ey; try reflexivity.
  apply Z.eqb_eq in Ex, Ey. lia.
Qed.

Lemma sorted_desc_stable (n : Z) (l : list (string * Z)) :
  filter (fun kv => (snd kv =? n)%Z) (AIC.sorted_desc l) =
  filter (fun kv => (snd kv =? n)%Z) l.
Proof.
  unfold AIC.sorted_desc.
  induction l as [|x l IH]; [reflexivity|].
  cbn [fold_right]. rewrite insert_desc_stable.
  cbn [filter]. now rewrite IH.
Qed.

(** X6. The order in which [temp_cmu_lexicon] goes through the words:
    the sorted items are the items of the dictionary, each once, the
    counts never increase along the list, and words of equal count stay
    in the order the dictionary gave them. *)
Theorem sorted_desc_is_a_stable_descending_sort (l : list (string * Z)) :
  Permutation (AIC.sorted_desc l) l /\
  descending (AIC.sorted_desc l) /\
  forall n : Z,
    filter (fun kv => (snd kv =? n)%Z) (AIC.sorted_desc l) =
    filter (fun kv => (snd kv =? n)%Z) l.
Proof.
  split; [apply sorted_desc_perm|].
  split; [apply sorted_desc_descending|].
  intros n. apply sorted_desc_stable.
Qed.

Lemma dict_get_set_same {V} (d : AIC.dict V) (key : string) (v : V) :
  AIC.dict_get (AIC.dict_set d key v) key = Some v.
Proof.
  induction d as [|[k w] d IH]; simpl.
  - now rewrite String.eqb_refl.
  - destruct (String.eqb k key) eqn:E; simpl; now rewrite E.
Qed.

Lemma dict_get_set_other {V} (d : AIC.dict V) (key other : string) (v : V) :
  other <> key ->
  AIC.dict_get (AIC.dict_set d key v) other = AIC.dict_get d other.
Proof.
  intros Hne.
  induction d as [|[k w] d IH]; simpl.
  - destruct (String.eqb key other) eqn:E; [|reflexivity].
    apply String.eqb_eq in E. congruence.
  - destruct (String.eqb k key) eqn:E; simpl.
    + apply String.eqb_eq in E. subst k.
      destruct (String.eqb key other) eqn:E'; [|reflexivity].
      apply String.eqb_eq in E'. congruence.
    + now rewrite IH.
Qed.

Lemma dict_set_fst {V} (d : AIC.dict V) (key : string) (v : V) :
  map fst (AIC.dict_set d key v) =
  match AIC.dict_get d key with
  | Some _ => map fst d
  | None => (map fst d ++ [key])%list
  end.
Proof.
  induction d as [|[k w] d IH]; simpl; [reflexivity|].
  destruct (String.eqb k key) eqn:E; simpl; [reflexivity|].
  rewrite IH. now destruct (AIC.dict_get d key).
Qed.

Lemma dict_get_none {V} (d : AIC.dict V) (key : string) :
  AIC.dict_get d key = None -> ~ In key (map fst d).
Proof.
  induction d as [|[k w] d IH]; simpl; [tauto|].
  destruct (String.eqb k key) eqn:E; [discriminate|].
  apply String.eqb_neq in E. intros H [Hk|Hin]; [congruence|].
  now apply IH.
Qed.

Lemma dict_get_in {V} (d : AIC.dict V) (key : string) (v : V) :
  AIC.dict_get d key = Some v -> In (key, v) d.
Proof.
  induction d as [|[k w] d IH]; simpl; [discriminate|].
  destruct (String.eqb k key) eqn:E.
  - apply String.eqb_eq in E. intros [= ->]. left. congruence.
  - intros H. right. now apply IH.
Qed.

Lemma dict_set_nodup {V} (d : AIC.dict V) (key : string) (v : V) :
  NoDup (map fst d) -> NoDup (map fst (AIC.dict_set d key v)).
Proof.
  intros H. rewrite dict_set_fst.
  destruct (AIC.dict_get d key) eqn:E; [assumption|].
  apply dict_get_none in E.
  apply NoDup_rev in H. rewrite <- (rev_involutive (map fst d ++ [key])).
  apply NoDup_rev. rewrite rev_app_distr. simpl.
  constructor; [|assumption]. now rewrite <- in_rev.
Qed.

Lemma dict_get_nodup {V} (d : AIC.dict V) (key : string) (v : V) :
  NoDup (map fst d) -> In (key, v) d -> AIC.dict_get d key = Some v.
Proof.
  induction d as [|[k w] d IH]; simpl; [tauto|].
  intros Hnd [Heq|Hin].
  - inversion Heq; subst. now rewrite String.eqb_refl.
  - inversion Hnd as [|? ? Hk Hd]; subst.
    destruct (String.eqb k key) eqn:E.
    + apply String.eqb_eq in E. subst k. exfalso. apply Hk.
      change key with (fst (key, v)). now apply in_map.
    + now apply IH.
Qed.

Lemma occurrences_cons (w x : string) (ws : list string) :
  occurrences w (x :: ws) =
  ((if String.eqb x w then 1 else 0) + occurrences w ws)%Z.
Proof.
  unfold occurrences. simpl.
  destruct (string_dec x w) as [->|Hne].
  - rewrite String.eqb_refl. lia.
  - apply String.eqb_neq in Hne. rewrite Hne. lia.
Qed.

Lemma occurrences_nonneg (w : string) (ws : list string) :
  (0 <= occurrences w ws)%Z.
Proof. unfold occurrences. lia. Qed.

Lemma occurrences_app (w : string) (l1 l2 : list string) :
  occurrences w (l1 ++ l2) = (occurrences w l1 + occurrences w l2)%Z.
Proof. unfold occurrences. rewrite count_occ_app. lia. Qed.

Lemma count_word_fold (ws : list string) (w : string) :
  forall d : AIC.dict Z,
    AIC.dict_get (fold_left AIC.count_word ws d) w =
    if (occurrences w ws =? 0)%Z then AIC.dict_get d w
    else Some (match AIC.dict_get d w with Some n => n | None => 0 end
               + occurrences w ws)%Z.
Proof.
  induction ws as [|x ws IH]; intros d; [reflexivity|].
  cbn [fold_left]. rewrite IH, occurrences_cons.
  pose proof (occurrences_nonneg w ws) as Hpos.
  unfold AIC.count_word.
  destruct (String.eqb x w) eqn:E.
  - apply String.eqb_eq in E. subst x.
    rewrite dict_get_set_same.
    destruct (1 + occurrences w ws =? 0)%Z eqn:E1;
      [apply Z.eqb_eq in E1; lia|].
    destruct (occurrences w ws =? 0)%Z eqn:E2.
    + apply Z.eqb_eq in E2. rewrite E2.
      destruct (AIC.dict_get d w); f_equal; lia.
    + destruct (AIC.dict_get d w); f_equal; lia.
  - apply String.eqb_neq in E.
    rewrite dict_get_set_other by congruence.
    reflexivity.
Qed.

Lemma count_word_fold_nodup (ws : list string) :
  forall d : AIC.dict Z,
    NoDup (map fst d) -> NoDup (map fst (fold_left AIC.count_word ws d)).
Proof.
  induction ws as [|x ws IH]; intros d H; [assumption|].
  cbn [fold_left]. apply IH. now apply dict_set_nodup.
Qed.

Lemma transcription_step_words (d : AIC.dict Z) (line : string) :
  AIC.transcription_step d line =
  fold_left AIC.count_word (words_of_line line) d.
Proof.
  unfold AIC.transcription_step, words_of_line.
  now destruct (Re.rmatch AIC.re_transcription line).
Qed.

Lemma transcription_fold (lines : list string) :
  forall d : AIC.dict Z,
    fold_left AIC.transcription_step lines d =
    fold_left AIC.count_word (flat_map words_of_line lines) d.
Proof.
  induction lines as [|line lines IH]; intros d; [reflexivity|].
  cbn [fold_left flat_map]. rewrite fold_left_app, IH.
  now rewrite transcription_step_words.
Qed.

Lemma count_words_spoken (transcription_file : string) :
  AIC.count_words transcription_file =
  fold_left AIC.count_word (spoken_words transcription_file) [].
Proof. apply transcription_fold. Qed.

Lemma count_words_get (transcription_file w : string) :
  AIC.dict_get (AIC.count_words transcription_file) w =
  if (occurrences w (spoken_words transcription_file) =? 0)%Z then None
  else Some (occurrences w (spoken_words transcription_file)).
Proof.
  rewrite count_words_spoken, count_word_fold. reflexivity.
Qed.

Lemma count_words_nodup (transcription_file : string) :
  NoDup (map fst (AIC.count_words transcription_file)).
Proof.
  rewrite count_words_spoken. apply count_word_fold_nodup. constructor.
Qed.

(** X7. The count [temp_cmu_lexicon] keeps for a word is the number of
    times the word, in upper case, is among the words of the
    transcription lines that match; a word that never occurs has no
    entry, no word has two entries, and every count is at least 1. *)
Theorem word_frequencies (transcription_file : string) :
  (forall w : string,
      AIC.dict_get (AIC.count_words transcription_file) w =
      if (occurrences w (spoken_words transcription_file) =? 0)%Z then None
      else Some (occurrences w (spoken_words transcription_file))) /\
  NoDup (map fst (AIC.count_words transcription_file)) /\
  Forall (fun kv =>
            snd kv = occurrences (fst kv) (spoken_words transcription_file) /\
            (1 <= snd kv)%Z)
         (AIC.count_words transcription_file).
Proof.
  split; [apply count_words_get|].
  split; [apply count_words_nodup|].
  apply Forall_forall. intros [w n] Hin. simpl.
  apply dict_get_nodup in Hin; [|apply count_words_nodup].
  rewrite count_words_get in Hin.
  pose proof (occurrences_nonneg w (spoken_words transcription_file)).
  destruct (occurrences w (spoken_words transcription_file) =? 0)%Z eqn:E;
    [discriminate|].
  apply Z.eqb_neq in E. injection Hin as <-. lia.
Qed.

(** ** More on the backtracking search *)

Section SearchMore.
Variable R : Type.
Variable cls : ascii -> bool.
Variable k : string -> string -> option R.

(** A greedy search that succeeds has consumed a run of the class and
    handed the rest to the continuation. *)
Lemma greedy_inv (s : string) :
  forall cap r,
    Re.greedy cls k cap s = Some r ->
    exists u v,
      s = u ++ v /\ Py.sall cls u = true /\ k (cap ++ u) v = Some r.
Proof.
  induction s as [|c s IH]; intros cap r H.
  - exists "", "". simpl in H. rewrite (append_nil_r cap). repeat split; auto.
  - simpl in H. destruct (cls c) eqn:Ec.
    + destruct (Re.greedy cls k (Py.snoc cap c) s) as [r'|] eqn:E.
      * injection H as ->. apply IH in E as (u & v & -> & Hu & Hk).
        exists (String c u), v. simpl. rewrite Ec, Hu.
        rewrite snoc_append in Hk. repeat split; auto.
      * exists "", (String c s). rewrite (append_nil_r cap). repeat split; auto.
    + exists "", (String c s). rewrite (append_nil_r cap). repeat split; auto.
Qed.

(** The shortest run is tried first: where the continuation fails, the
    lazy search goes on. *)
Lemma lazy_run (u : string) :
  forall cap v,
    Py.sall cls u = true ->
    (forall u1 u2, u = u1 ++ u2 -> u2 <> "" ->
                   k (cap ++ u1) (u2 ++ v) = None) ->
    Re.lazy cls k cap (u ++ v) = Re.lazy cls k (cap ++ u) v.
Proof.
  induction u as [|c u IH]; intros cap v Hu Hk.
  - now rewrite append_nil_r.
  - simpl in Hu. apply andb_true_iff in Hu as [Hc Hu].
    assert (H0 := Hk "" (String c u) eq_refl).
    rewrite append_nil_r in H0.
    cbn [append Re.lazy]. cbn [append] in H0. rewrite H0 by discriminate.
    rewrite Hc, IH; [now rewrite snoc_append | assumption |].
    intros u1 u2 -> Hne. rewrite snoc_append.
    now apply (Hk (String c u1) u2).
Qed.

Lemma lazy_now (cap s : string) (r : R) :
  k cap s = Some r -> Re.lazy cls k cap s = Some r.
Proof. intros H. destruct s; simpl; now rewrite H. Qed.

End SearchMore.

(** ** A line of the CMU dictionary *)

Lemma single_spaced_tail (a t : string) :
  single_spaced (a ++ t) = true -> single_spaced t = true.
Proof.
  induction a as [|c a IH]; [auto|].
  cbn [append single_spaced].
  destruct (a ++ t) as [|b rest] eqn:E.
  - destruct a; [|discriminate]. simpl in E. now subst t.
  - intros H. apply andb_prop in H as [_ H]. auto.
Qed.

Lemma two_spaces_fail (pat : list Re.atom) (t : string) :
  single_spaced t = true ->
  Re.rmatch (Re.lit Re.space :: Re.lit Re.space :: pat) t = None.
Proof.
  destruct t as [|a [|b t]]; intros H; cbn; [reflexivity| |].
  - now destruct (Re.space a).
  - cbn in H. unfold Re.space.
    destruct (Py.is_space a); [|reflexivity].
    destruct (Py.is_space b); [discriminate|reflexivity].
Qed.

Lemma rmatch_star (cls : ascii -> bool) (pat : list Re.atom) (s : string) :
  Re.rmatch (Re.grp cls Re.Star :: pat) s =
  Re.greedy cls
    (fun cap rest => option_map (fun gs => cap :: gs) (Re.rmatch pat rest))
    "" s.
Proof. reflexivity. Qed.

Lemma rmatch_lazy (cls : ascii -> bool) (pat : list Re.atom) (s : string) :
  Re.rmatch (Re.grp cls Re.LazyStar :: pat) s =
  Re.lazy cls
    (fun cap rest => option_map (fun gs => cap :: gs) (Re.rmatch pat rest))
    "" s.
Proof. reflexivity. Qed.

Lemma rmatch_lit (cls : ascii -> bool) (pat : list Re.atom) (s : string) :
  Re.rmatch (Re.lit cls :: pat) s =
  match s with
  | String c s' => if cls c then Re.rmatch pat s' else None
  | EmptyString => None
  end.
Proof.
  destruct s as [|c s]; [reflexivity|].
  cbn [Re.rmatch Re.lit Re.a_quant Re.a_class Re.a_group].
  destruct (cls c); [|reflexivity].
  now destruct (Re.rmatch pat s).
Qed.

Lemma greedy_step {R} (cls : ascii -> bool) (k : string -> string -> option R)
    (cap : string) (c : ascii) (s : string) :
  cls c = true ->
  Re.greedy cls k cap (String c s) =
  match Re.greedy cls k (Py.snoc cap c) s with
  | Some r => Some r
  | None => k cap (String c s)
  end.
Proof. intros H. simpl. now rewrite H. Qed.

Lemma rmatch_dot_star (phn : string) :
  Py.sall Re.dot phn = true ->
  Re.rmatch [Re.grp Re.dot Re.Star] (phn ++ AIC.newline) = Some [phn].
Proof.
  intros H. rewrite rmatch_star.
  apply greedy_run with (cap := ""); [assumption|].
  rewrite greedy_stop by reflexivity. reflexivity.
Qed.

Lemma rmatch_cmu_line (entry phn : string) :
  Py.sall Re.dot entry = true ->
  Py.sall Re.dot phn = true ->
  single_spaced (" " ++ phn ++ AIC.newline) = true ->
  Re.rmatch AIC.re_cmu (entry ++ "  " ++ phn ++ AIC.newline) =
  Some [entry; phn].
Proof.
  intros He Hp Hs.
  unfold AIC.re_cmu. rewrite rmatch_star.
  apply greedy_run with (cap := ""); [assumption|].
  cbn [append].
  rewrite greedy_step by reflexivity.
  change (String " " (phn ++ AIC.newline))
    with (String " " phn ++ AIC.newline) at 1.
  rewrite greedy_fail.
  - rewrite !rmatch_lit.
    replace (Re.space " ") with true by reflexivity.
    now rewrite rmatch_dot_star.
  - reflexivity.
  - intros u1 u2 E.
    rewrite two_spaces_fail; [reflexivity|].
    apply single_spaced_tail with (a := u1).
    rewrite <- append_assoc, <- E. exact Hs.
Qed.

Lemma rmatch_cmu_inv (line : string) (gs : list string) :
  Re.rmatch AIC.re_cmu line = Some gs ->
  exists entry phn,
    gs = [entry; phn] /\
    Py.sall Re.dot entry = true /\ Py.sall Re.dot phn = true.
Proof.
  unfold AIC.re_cmu. rewrite rmatch_star. intros H.
  apply greedy_inv in H as (u & v & -> & Hu & H).
  rewrite rmatch_lit in H.
  destruct v as [|a v]; [discriminate|].
  destruct (Re.space a); [|discriminate].
  rewrite rmatch_lit in H.
  destruct v as [|b v]; [discriminate|].
  destruct (Re.space b); [|discriminate].
  rewrite rmatch_star in H.
  destruct (Re.greedy _ _ "" v) as [gs'|] eqn:E; [|discriminate].
  apply greedy_inv in E as (u' & v' & -> & Hu' & E).
  cbn in E. injection E as <-. cbn in H. injection H as <-.
  exists u, u'. auto.
Qed.

(** ** A line of the temporary lexicon *)

Lemma plain_is_dot (s : string) :
  Py.sall plain s = true -> Py.sall Re.dot s = true.
Proof.
  apply sall_impl. intros c. unfold plain, Re.dot.
  destruct (Ascii.eqb c Py.nl) eqn:E; [|reflexivity].
  apply Ascii.eqb_eq in E. now subst c.
Qed.

Lemma rmatch_lexicon_line (word phn : string) :
  Py.sall plain word = true ->
  Py.sall Re.dot phn = true ->
  Re.rmatch AIC.re_lexicon (AIC.lex_line word phn) = Some [word; phn].
Proof.
  intros Hw Hp. unfold AIC.re_lexicon, AIC.lex_line.
  rewrite rmatch_lazy, lazy_run.
  - apply lazy_now. cbn [append]. rewrite rmatch_lit.
    replace (Re.space " ") with true by reflexivity.
    now rewrite rmatch_dot_star.
  - now apply plain_is_dot.
  - intros u1 u2 -> Hne. rewrite rmatch_lit.
    destruct u2 as [|c u2]; [congruence|].
    rewrite sall_append in Hw. apply andb_prop in Hw as [_ Hw].
    simpl in Hw. apply andb_prop in Hw as [Hc _].
    cbn [append]. unfold plain in Hc. unfold Re.space.
    destruct (Py.is_space c); [discriminate|reflexivity].
Qed.

(** ** From the CMU dictionary and the transcription to the lexicon *)

(** X8. A line of the CMU dictionary, an entry, two spaces and a
    pronunciation whose codes are separated by single whitespace, puts
    the entry in the dictionary with the pronunciation freed from its
    stress digits, replaces what the dictionary had for that entry and
    leaves the other entries as they are. *)
Theorem cmu_line_enters_dictionary
    (cmu_dict : AIC.dict string) (entry phn : string) :
  Py.sall Re.dot entry = true ->
  Py.sall Re.dot phn = true ->
  single_spaced (" " ++ phn ++ AIC.newline) = true ->
  let after :=
    AIC.cmu_step cmu_dict (entry ++ "  " ++ phn ++ AIC.newline) in
  AIC.dict_get after entry = Some (without (Re.one_of "012") phn) /\
  forall other,
    other <> entry -> AIC.dict_get after other = AIC.dict_get cmu_dict other.
Proof.
  intros He Hp Hs after. subst after. unfold AIC.cmu_step.
  rewrite rmatch_cmu_line by assumption.
  cbn [Re.group Nat.sub nth]. split.
  - now rewrite dict_get_set_same, strip_stress_without.
  - intros other Hne. now apply dict_get_set_other.
Qed.

Lemma cmu_line_enters_dictionary_witness :
  AIC.dict_get
    (AIC.cmu_step [("HELLO", "HH EH L OW")]
       ("HELLO" ++ "  " ++ "HH AH0 L OW1" ++ AIC.newline))
    "HELLO" = Some (without (Re.one_of "012") "HH AH0 L OW1").
Proof.
  apply (@cmu_line_enters_dictionary
           [("HELLO", "HH EH L OW")] "HELLO" "HH AH0 L OW1");
    reflexivity.
Defined.

Lemma filter_partition {A} (p : A -> bool) (l : list A) :
  Permutation (filter p l ++ filter (fun x => negb (p x)) l) l.
Proof.
  induction l as [|x l IH]; simpl; [constructor|].
  destruct (p x); simpl.
  - now constructor.
  - apply Permutation_sym. eapply Permutation_trans.
    + apply perm_skip, Permutation_sym, IH.
    + apply Permutation_middle.
Qed.

Lemma lookup_step_known (cmu_dict : AIC.dict string) out item :
  known cmu_dict item = true ->
  AIC.lookup_step cmu_dict out item =
  (fst out ++ temp_entry cmu_dict item, snd out).
Proof.
  unfold AIC.lookup_step, known, temp_entry, pronunciation.
  destruct item as [word freq]. cbn [fst snd].
  now destruct (AIC.dict_get cmu_dict word).
Qed.

Lemma lookup_step_unknown (cmu_dict : AIC.dict string) out item :
  known cmu_dict item = false ->
  AIC.lookup_step cmu_dict out item =
  (fst out, snd out ++ candidate_line item).
Proof.
  unfold AIC.lookup_step, known, candidate_line.
  destruct item as [word freq]. cbn [fst snd].
  now destruct (AIC.dict_get cmu_dict word).
Qed.

Lemma lookup_fold (cmu_dict : AIC.dict string) (words : list (string * Z)) :
  forall out,
    fold_left (AIC.lookup_step cmu_dict) words out =
    (fst out ++ Py.cat (map (temp_entry cmu_dict)
                            (filter (known cmu_dict) words)),
     snd out ++ Py.cat (map candidate_line
                            (filter (unknown cmu_dict) words))).
Proof.
  induction words as [|item words IH]; intros out.
  - simpl. rewrite !append_nil_r. now destruct out.
  - cbn [fold_left filter]. rewrite IH. unfold unknown at 2.
    destruct (known cmu_dict item) eqn:E; cbn [negb map].
    + rewrite lookup_step_known by assumption. cbn [fst snd].
      unfold Py.cat. cbn [fold_right]. now rewrite append_assoc.
    + rewrite lookup_step_unknown by assumption. cbn [fst snd].
      unfold Py.cat. cbn [fold_right]. now rewrite append_assoc.
Qed.

Lemma temp_cmu_lexicon_files items (cmu_file transcription_file : string) :
  AIC.temp_cmu_lexicon items cmu_file transcription_file =
  let cmu_dict := AIC.read_cmu_dict cmu_file in
  let words :=
    AIC.sorted_desc (items (AIC.count_words transcription_file)) in
  (Py.cat (map (temp_entry cmu_dict) (filter (known cmu_dict) words)),
   Py.cat (map candidate_line (filter (unknown cmu_dict) words))).
Proof. unfold AIC.temp_cmu_lexicon. now rewrite lookup_fold. Qed.

(** X9. [temp_cmu_lexicon] sends every counted word to exactly one of
    its two files, in the order of the sort: the words the CMU
    dictionary has go to the temporary lexicon with the pronunciation
    of the dictionary, the others to the OOV file with their count. *)
Theorem temp_cmu_lexicon_splits_the_words
    items (cmu_file transcription_file : string) :
  let cmu_dict := AIC.read_cmu_dict cmu_file in
  let counted := items (AIC.count_words transcription_file) in
  let words := AIC.sorted_desc counted in
  AIC.temp_cmu_lexicon items cmu_file transcription_file =
  (Py.cat (map (temp_entry cmu_dict) (filter (known cmu_dict) words)),
   Py.cat (map candidate_line (filter (unknown cmu_dict) words))) /\
  Permutation
    (filter (known cmu_dict) words ++ filter (unknown cmu_dict) words)
    counted.
Proof.
  intros cmu_dict counted words. split.
  - apply temp_cmu_lexicon_files.
  - eapply Permutation_trans; [apply filter_partition|].
    apply sorted_desc_perm.
Qed.

(** *** The words and the pronunciations in the temporary files *)

Lemma split_ws_from_plain (s : string) :
  forall cur,
    Py.sall plain cur = true ->
    Forall (fun t => Py.sall plain t = true) (Py.split_ws_from cur s).
Proof.
  induction s as [|c s IH]; intros cur Hcur; simpl.
  - destruct (Py.is_empty cur); auto.
  - destruct (Py.is_space c) eqn:E.
    + destruct (Py.is_empty cur); [|constructor]; auto.
    + apply IH. unfold Py.snoc. rewrite sall_append, Hcur. simpl.
      unfold plain. now rewrite E.
Qed.

Lemma count_words_plain (transcription_file : string) :
  Forall (fun kv => Py.sall plain (fst kv) = true)
         (AIC.count_words transcription_file).
Proof.
  unfold AIC.count_words.
  assert (H : forall lines d,
             Forall (fun kv : string * Z => Py.sall plain (fst kv) = true) d ->
             Forall (fun kv => Py.sall plain (fst kv) = true)
               (fold_left AIC.transcription_step lines d)).
  { induction lines as [|line lines IH]; intros d Hd; [exact Hd|].
    simpl. apply IH. unfold AIC.transcription_step.
    destruct (Re.rmatch AIC.re_transcription line) as [gs|]; [|exact Hd].
    pose proof (@split_ws_from_plain (Py.upper (Re.group gs 4)) ""
                  eq_refl) as Hw.
    fold (Py.split_ws (Py.upper (Re.group gs 4))) in Hw.
    revert d Hd. induction Hw as [|w ws Hw _ IHw]; intros d Hd; [exact Hd|].
    simpl. apply IHw. unfold AIC.count_word.
    now apply (@dict_set_keys _ (fun k => Py.sall plain k = true)). }
  apply H. constructor.
Qed.

Lemma dict_set_values {V} (P : V -> Prop) (d : AIC.dict V) key v :
  Forall (fun kv => P (snd kv)) d -> P v ->
  Forall (fun kv => P (snd kv)) (AIC.dict_set d key v).
Proof.
  intros Hd Hv. induction Hd as [|[k w] d Hkw Hd IH]; simpl.
  - constructor; auto.
  - destruct (String.eqb k key); constructor; auto.
Qed.

Lemma read_cmu_dict_values (cmu_file : string) :
  Forall (fun kv => Py.sall Re.dot (snd kv) = true)
         (AIC.read_cmu_dict cmu_file).
Proof.
  unfold AIC.read_cmu_dict.
  assert (H : forall lines d,
             Forall (fun kv : string * string =>
                       Py.sall Re.dot (snd kv) = true) d ->
             Forall (fun kv => Py.sall Re.dot (snd kv) = true)
               (fold_left AIC.cmu_step lines d)).
  { induction lines as [|line lines IH]; intros d Hd; [exact Hd|].
    simpl. apply IH. unfold AIC.cmu_step.
    destruct (Re.rmatch AIC.re_cmu line) as [gs|] eqn:E; [|exact Hd].
    apply rmatch_cmu_inv in E as (entry & phn & -> & _ & Hphn).
    apply (@dict_set_values _ (fun v => Py.sall Re.dot v = true));
      [assumption|].
    cbn [Re.group Nat.sub nth].
    rewrite strip_stress_without. now apply without_keeps. }
  apply H. constructor.
Qed.

Lemma pronunciation_dot (cmu_file : string) (item : string * Z) :
  Py.sall Re.dot (pronunciation (AIC.read_cmu_dict cmu_file) item) = true.
Proof.
  unfold pronunciation.
  destruct (AIC.dict_get _ (fst item)) as [phn|] eqn:E; [|reflexivity].
  apply dict_get_in in E.
  pose proof (read_cmu_dict_values cmu_file) as H.
  rewrite Forall_forall in H. exact (H _ E).
Qed.

(** *** A line of the temporary lexicon in the lexicon *)

Lemma lexicon_step_line (word phn : string) :
  Py.sall plain word = true ->
  Py.sall Re.dot phn = true ->
  AIC.lexicon_step (AIC.lex_line word phn) =
  AIC.lex_line (Py.lower word) (AIC.cmu_to_aic phn).
Proof.
  intros Hw Hp. unfold AIC.lexicon_step.
  now rewrite rmatch_lexicon_line.
Qed.

Lemma codes_dot (codes : list string) :
  Forall (fun code => In code (map fst AIC.cmu_to_aic_table)) codes ->
  Py.sall Re.dot (Py.join " " codes) = true.
Proof.
  assert (Hall : forallb (fun code => Py.sall Re.dot code)
                   (map fst AIC.cmu_to_aic_table) = true)
    by (vm_compute; reflexivity).
  rewrite forallb_forall in Hall.
  induction codes as [|c [|c' codes] IH]; intros H.
  - reflexivity.
  - inversion H; subst. now apply Hall.
  - inversion H as [|? ? Hc Hrest]; subst.
    change (Py.join " " (c :: c' :: codes))
      with (c ++ String " " (Py.join " " (c' :: codes))).
    rewrite sall_append, (Hall _ Hc). simpl in IH |- *.
    now rewrite IH.
Qed.

Lemma cmu_to_aic_codes (codes : list string) :
  Forall (fun code => In code (map fst AIC.cmu_to_aic_table)) codes ->
  AIC.cmu_to_aic (Py.join " " codes) = Py.join " " (map AIC.aic_symbol codes).
Proof.
  intros Hcodes. unfold AIC.cmu_to_aic.
  rewrite substitute_join by (vm_compute; reflexivity).
  f_equal. apply map_ext_in. intros code Hin.
  rewrite Forall_forall in Hcodes. now apply cmu_to_aic_code, Hcodes.
Qed.

(** X10. What [make_lexicon_aux] makes of a line of the temporary
    lexicon as [temp_cmu_lexicon] writes it, a word without whitespace,
    a space, a pronunciation and a newline: the word in lower case, a
    space, and the pronunciation with its substitutions made; when the
    pronunciation is a sequence of CMU codes, the sequence of their AIC
    symbols. *)
Theorem temp_lexicon_line_in_lexicon (word phn : string) :
  Py.sall plain word = true ->
  (Py.sall Re.dot phn = true ->
   AIC.lexicon_step (AIC.lex_line word phn) =
   AIC.lex_line (Py.lower word) (AIC.cmu_to_aic phn)) /\
  (forall codes : list string,
      Forall (fun code => In code (map fst AIC.cmu_to_aic_table)) codes ->
      AIC.lexicon_step (AIC.lex_line word (Py.join " " codes)) =
      AIC.lex_line (Py.lower word) (Py.join " " (map AIC.aic_symbol codes))).
Proof.
  intros Hw. split.
  - intros Hp. now apply lexicon_step_line.
  - intros codes Hcodes.
    rewrite lexicon_step_line by (auto using codes_dot).
    now rewrite cmu_to_aic_codes.
Qed.

Lemma temp_lexicon_line_in_lexicon_witness :
  AIC.lexicon_step (AIC.lex_line "HELLO" (Py.join " " ["HH"; "AH"; "L"; "OW"]))
  = AIC.lex_line (Py.lower "HELLO")
      (Py.join " " (map AIC.aic_symbol ["HH"; "AH"; "L"; "OW"])).
Proof.
  apply (proj2 (@temp_lexicon_line_in_lexicon "HELLO" "" eq_refl)).
  repeat (apply Forall_cons; [simpl; tauto|]). apply Forall_nil.
Defined.

(** *** The whole of [make_lexicon] *)

Lemma temp_entry_body (cmu_dict : AIC.dict string) (item : string * Z) :
  temp_entry cmu_dict item =
  (fst item ++ " " ++ pronunciation cmu_dict item) ++ AIC.newline.
Proof. unfold temp_entry, AIC.lex_line. now rewrite !append_assoc. Qed.

Lemma readlines_temp_lexicon (cmu_file : string) (words : list (string * Z)) :
  Forall (fun kv => Py.sall plain (fst kv) = true) words ->
  Py.readlines
    (Py.cat (map (temp_entry (AIC.read_cmu_dict cmu_file)) words)) =
  map (temp_entry (AIC.read_cmu_dict cmu_file)) words.
Proof.
  intros H.
  rewrite (map_ext _ _ (temp_entry_body (AIC.read_cmu_dict cmu_file))).
  rewrite <- (map_map (fun item => fst item ++ " " ++
                         pronunciation (AIC.read_cmu_dict cmu_file) item)
                      (fun b => b ++ AIC.newline)).
  apply readlines_cat.
  apply Forall_map. eapply Forall_impl; [|exact H].
  intros item Hitem. cbn beta.
  rewrite sall_append, (plain_is_dot _ Hitem). cbn [append Py.sall andb].
  replace (Re.dot " ") with true by reflexivity.
  apply pronunciation_dot.
Qed.

Lemma lexicon_loop_temp_lexicon (cmu_file : string)
    (words : list (string * Z)) :
  Forall (fun kv => Py.sall plain (fst kv) = true) words ->
  AIC.lexicon_loop (map (temp_entry (AIC.read_cmu_dict cmu_file)) words) =
  Py.cat (map (dictionary_entry (AIC.read_cmu_dict cmu_file)) words).
Proof.
  intros H. unfold AIC.lexicon_loop. rewrite map_map. f_equal.
  apply map_ext_in. intros item Hin.
  rewrite Forall_forall in H.
  unfold temp_entry, dictionary_entry.
  apply lexicon_step_line; [now apply H | apply pronunciation_dot].
Qed.

Lemma Forall_filter {A} (P : A -> Prop) (p : A -> bool) (l : list A) :
  Forall P l -> Forall P (filter p l).
Proof.
  intros H. apply Forall_forall. intros x Hx.
  apply filter_In in Hx as [Hx _].
  rewrite Forall_forall in H. now apply H.
Qed.

(** X11. [make_lexicon] as a whole never raises, whatever the CMU
    dictionary and the transcription hold: the counts it reads back from
    the OOV file are the integers it wrote.  The lexicon has, for the
    counted words in the order of the sort, first a line for every word
    the CMU dictionary has, in lower case with the pronunciation of the
    dictionary converted to AIC symbols, then a line for every other
    word counted more than once, in lower case with its parts between
    colons as phones. *)
Theorem make_lexicon_never_raises
    items (cmu_file transcription_file : string) :
  incl (items (AIC.count_words transcription_file))
       (AIC.count_words transcription_file) ->
  let cmu_dict := AIC.read_cmu_dict cmu_file in
  let words :=
    AIC.sorted_desc (items (AIC.count_words transcription_file)) in
  AIC.make_lexicon items cmu_file transcription_file =
  AIC.Ok
    (Py.cat (map (dictionary_entry cmu_dict)
                 (filter (known cmu_dict) words)) ++
     Py.cat (map pseudo_entry
                 (filter retained (filter (unknown cmu_dict) words)))).
Proof.
  intros Hitems cmu_dict words.
  assert (Hplain : Forall (fun kv => Py.sall plain (fst kv) = true) words).
  { eapply Permutation_Forall.
    - apply Permutation_sym, sorted_desc_perm.
    - apply Forall_forall. intros kv Hin.
      pose proof (count_words_plain transcription_file) as Hc.
      rewrite Forall_forall in Hc. now apply Hc, Hitems. }
  unfold AIC.make_lexicon. rewrite temp_cmu_lexicon_files.
  cbv zeta. fold cmu_dict words. unfold AIC.make_lexicon_aux.
  subst cmu_dict.
  rewrite readlines_temp_lexicon by now apply Forall_filter.
  rewrite lexicon_loop_temp_lexicon by now apply Forall_filter.
  assert (Hdot : Forall (fun c : string * Z => Py.sall Re.dot (fst c) = true)
                        (filter (unknown (AIC.read_cmu_dict cmu_file)) words)).
  { apply Forall_filter. eapply Forall_impl; [|exact Hplain].
    intros kv. apply plain_is_dot. }
  rewrite readlines_candidates by assumption.
  now rewrite oov_loop_candidates.
Qed.

Lemma make_lexicon_never_raises_witness :
  AIC.make_lexicon (fun d => d)
    ("HELLO  HH AH0 L OW1" ++ AIC.newline)
    ("f01_p_u1 hello a:b" ++ AIC.newline ++
     "m02_s_u2 a:b zz" ++ AIC.newline) =
  AIC.Ok ("hello h xa l o" ++ AIC.newline ++ "a:b a b" ++ AIC.newline).
Proof.
  apply (@make_lexicon_never_raises (fun d => d)
           ("HELLO  HH AH0 L OW1" ++ AIC.newline)
           ("f01_p_u1 hello a:b" ++ AIC.newline ++
            "m02_s_u2 a:b zz" ++ AIC.newline)).
  apply incl_refl.
Defined.

(** ** Words separated by whitespace *)

Lemma split_ws_from_token (tok : string) :
  forall cur rest,
    Py.sall plain tok = true ->
    Py.split_ws_from cur (tok ++ rest) = Py.split_ws_from (cur ++ tok) rest.
Proof.
  induction tok as [|c tok IH]; intros cur rest H.
  - now rewrite append_nil_r.
  - simpl in H. apply andb_prop in H as [Hc H].
    cbn [append Py.split_ws_from]. unfold plain in Hc.
    destruct (Py.is_space c); [discriminate|].
    rewrite IH by assumption. now rewrite snoc_append.
Qed.

Lemma split_ws_from_spaces (tail : string) :
  Py.sall Py.is_space tail = true ->
  forall cur,
    Py.split_ws_from cur tail = if Py.is_empty cur then [] else [cur].
Proof.
  induction tail as [|c tail IH]; intros H cur; [reflexivity|].
  simpl in H. apply andb_prop in H as [Hc H].
  cbn [Py.split_ws_from]. rewrite Hc, (IH H "").
  now destruct (Py.is_empty cur).
Qed.

Lemma token_parts (t : string) :
  token t = true -> Py.is_empty t = false /\ Py.sall plain t = true.
Proof.
  unfold token. intros H. apply andb_prop in H as [H1 H2].
  now apply negb_true_iff in H1.
Qed.

Lemma split_ws_join (toks : list string) (tail : string) :
  Forall (fun t => token t = true) toks ->
  Py.sall Py.is_space tail = true ->
  Py.split_ws (Py.join " " toks ++ tail) = toks.
Proof.
  unfold Py.split_ws. intros Htoks Htail.
  induction toks as [|t [|t' toks] IH].
  - simpl. now rewrite split_ws_from_spaces.
  - inversion Htoks as [|? ? Ht _]; subst.
    apply token_parts in Ht as [Hne Hplain].
    cbn [Py.join]. rewrite split_ws_from_token by assumption.
    rewrite split_ws_from_spaces by assumption.
    cbn [append]. now rewrite Hne.
  - inversion Htoks as [|? ? Ht Hrest]; subst.
    apply token_parts in Ht as [Hne Hplain].
    change (Py.join " " (t :: t' :: toks))
      with (t ++ String " " (Py.join " " (t' :: toks))).
    rewrite append_assoc, split_ws_from_token by assumption.
    cbn [append Py.split_ws_from].
    replace (Py.is_space " ") with true by reflexivity.
    rewrite Hne. f_equal. now apply IH.
Qed.

Lemma join_tokens_dot (toks : list string) :
  Forall (fun t => token t = true) toks ->
  Py.sall Re.dot (Py.join " " toks) = true.
Proof.
  induction toks as [|t [|t' toks] IH]; intros H.
  - reflexivity.
  - inversion H as [|? ? Ht _]; subst.
    apply token_parts in Ht as [_ Hp]. now apply plain_is_dot.
  - inversion H as [|? ? Ht Hrest]; subst.
    apply token_parts in Ht as [_ Hp].
    change (Py.join " " (t :: t' :: toks))
      with (t ++ String " " (Py.join " " (t' :: toks))).
    rewrite sall_append, (plain_is_dot _ Hp).
    cbn [Py.sall andb]. replace (Re.dot " ") with true by reflexivity.
    now apply IH.
Qed.

(** ** The phones of the lexicon and the inventory *)

Lemma aic_symbols_are_tokens (codes : list string) :
  Forall (fun code => In code (map fst AIC.cmu_to_aic_table)) codes ->
  Forall (fun t => token t = true) (map AIC.aic_symbol codes).
Proof.
  assert (Hall : forallb (fun code => token (AIC.aic_symbol code))
                   (map fst AIC.cmu_to_aic_table) = true)
    by (vm_compute; reflexivity).
  rewrite forallb_forall in Hall.
  intros H. apply Forall_map. eapply Forall_impl; [|exact H].
  exact Hall.
Qed.

Lemma aic_symbol_in_inventory (code : string) :
  In code (map fst AIC.cmu_to_aic_table) ->
  In (AIC.aic_symbol code) (map fst AICCorpus.phones).
Proof.
  assert (Hall : forallb (fun code =>
                    existsb (String.eqb (AIC.aic_symbol code))
                            (map fst AICCorpus.phones))
                   (map fst AIC.cmu_to_aic_table) = true)
    by (vm_compute; reflexivity).
  rewrite forallb_forall in Hall. intros H.
  apply Hall in H. apply existsb_exists in H as (p & Hp & E).
  apply String.eqb_eq in E. now rewrite E.
Qed.

Lemma inventory_is_covered (phone : string) :
  In phone (map fst AICCorpus.phones) ->
  exists code,
    In code (map fst AIC.cmu_to_aic_table) /\ AIC.aic_symbol code = phone.
Proof.
  assert (Hall : forallb (fun phone =>
                    existsb (fun code =>
                               String.eqb (AIC.aic_symbol code) phone)
                            (map fst AIC.cmu_to_aic_table))
                   (map fst AICCorpus.phones) = true)
    by (vm_compute; reflexivity).
  rewrite forallb_forall in Hall. intros H.
  apply Hall in H. apply existsb_exists in H as (code & Hc & E).
  apply String.eqb_eq in E. eauto.
Qed.

(** X12. The phones of the words found in the CMU dictionary are in
    the inventory of the preparator; those of the out-of-vocabulary
    words need not be.  The pronunciation [make_lexicon_aux] writes for
    a sequence of CMU codes of its substitution table is made of symbols
    that are all keys of [phones]; every key of [phones] is the symbol
    of such a code; no symbol is declared twice and the silence symbols
    are not phones.  An out-of-vocabulary word that is kept is written
    with its own parts for phones: the word qq, seen 3 times, gets the
    pronunciation qq, which is not a key of [phones]. *)
Theorem dictionary_phones_are_in_the_inventory :
  (forall codes : list string,
      Forall (fun code => In code (map fst AIC.cmu_to_aic_table)) codes ->
      Py.split_ws (AIC.cmu_to_aic (Py.join " " codes)) =
        map AIC.aic_symbol codes /\
      Forall (fun phone => In phone (map fst AICCorpus.phones))
             (Py.split_ws (AIC.cmu_to_aic (Py.join " " codes)))) /\
  (forall phone,
      In phone (map fst AICCorpus.phones) ->
      exists code,
        In code (map fst AIC.cmu_to_aic_table) /\
        AIC.aic_symbol code = phone) /\
  NoDup (map fst AICCorpus.phones) /\
  (forall s, In s AICCorpus.silences -> ~ In s (map fst AICCorpus.phones)) /\
  (AIC.make_lexicon_aux "" (AIC.oov_line "qq" 3) =
     AIC.Ok ("qq qq" ++ AIC.newline) /\
   ~ In "qq" (map fst AICCorpus.phones)).
Proof.
  split; [|split; [exact inventory_is_covered|split; [|split]]].
  - intros codes Hcodes.
    assert (E : Py.split_ws (AIC.cmu_to_aic (Py.join " " codes)) =
                map AIC.aic_symbol codes).
    { rewrite cmu_to_aic_codes by assumption.
      rewrite <- (append_nil_r (Py.join " " _)).
      apply split_ws_join; [now apply aic_symbols_are_tokens|reflexivity]. }
    split; [exact E|]. rewrite E.
    apply Forall_map. eapply Forall_impl; [|exact Hcodes].
    exact aic_symbol_in_inventory.
  - apply (NoDup_count_occ' string_dec).
    assert (Hall : forallb (fun p =>
                      Nat.eqb (count_occ string_dec
                                 (map fst AICCorpus.phones) p) 1)
                     (map fst AICCorpus.phones) = true)
      by (vm_compute; reflexivity).
    rewrite forallb_forall in Hall.
    intros p Hp. now apply Nat.eqb_eq, Hall.
  - intros s [<-|[]] Hin.
    assert (Hno : existsb (String.eqb "NSN") (map fst AICCorpus.phones)
                  = false) by (vm_compute; reflexivity).
    apply Bool.not_true_iff_false in Hno. apply Hno.
    apply existsb_exists. exists "NSN". split; [assumption|].
    apply String.eqb_refl.
  - split; [vm_compute; reflexivity|]. intros Hin.
    assert (Hno : existsb (String.eqb "qq") (map fst AICCorpus.phones)
                  = false) by (vm_compute; reflexivity).
    apply Bool.not_true_iff_false in Hno. apply Hno.
    apply existsb_exists. exists "qq". split; [assumption|].
    apply String.eqb_refl.
Qed.

Lemma dictionary_phones_are_in_the_inventory_witness :
  Py.split_ws (AIC.cmu_to_aic (Py.join " " ["HH"; "AH"; "L"; "OW"])) =
    map AIC.aic_symbol ["HH"; "AH"; "L"; "OW"] /\
  Forall (fun phone => In phone (map fst AICCorpus.phones))
         (Py.split_ws (AIC.cmu_to_aic (Py.join " " ["HH"; "AH"; "L"; "OW"]))).
Proof.
  apply (proj1 dictionary_phones_are_in_the_inventory
           ["HH"; "AH"; "L"; "OW"]).
  repeat (apply Forall_cons; [simpl; tauto|]). apply Forall_nil.
Defined.

(** ** The text handed to the n-gram tools *)

Lemma utterance_line_body (utt : string * list string) :
  utterance_line utt = Py.join " " (fst utt :: snd utt) ++ AIC.newline.
Proof. reflexivity. Qed.

(** X13. The text [_compute_lm] prepares for the n-gram tools: from
    lines made of an utterance id and words, it drops the id of every
    line, keeps the words in their order with one space between them,
    and puts a newline between the lines and none after the last. *)
Theorem text_ready_drops_the_utterance_ids
    (utts : list (string * list string)) :
  Forall (fun utt => token (fst utt) = true /\
                     Forall (fun w => token w = true) (snd utt)) utts ->
  text_ready_of (Py.cat (map utterance_line utts)) =
  Py.join AIC.newline (map (fun utt => Py.join " " (snd utt)) utts).
Proof.
  intros H. unfold text_ready_of.
  rewrite <- (map_map (fun utt => Py.join " " (fst utt :: snd utt))
                      (fun b => b ++ AIC.newline)).
  rewrite readlines_cat.
  - rewrite !map_map. f_equal. apply map_ext_in. intros utt Hin.
    rewrite Forall_forall in H. destruct (H _ Hin) as [Hid Hwords].
    rewrite split_ws_join; [reflexivity | now constructor | reflexivity].
  - apply Forall_map. eapply Forall_impl; [|exact H].
    intros utt [Hid Hwords]. apply join_tokens_dot. now constructor.
Qed.

Lemma text_ready_drops_the_utterance_ids_witness :
  text_ready_of
    (Py.cat (map utterance_line
               [("utt1", ["hello"; "world"]); ("utt2", ["hello"])])) =
  Py.join AIC.newline ["hello world"; "hello"].
Proof.
  apply (@text_ready_drops_the_utterance_ids
           [("utt1", ["hello"; "world"]); ("utt2", ["hello"])]).
  repeat constructor.
Defined.

(** ** The parameters the recipe accepts *)

Lemma check_level_iff (self : recipe) (w : world) :
  _check_level self w = (Return tt, w) <->
  (level self = "word" \/ level self = "phone").
Proof.
  unfold _check_level, raise, ret. cbn [existsb]. rewrite orb_false_r.
  destruct (String.eqb (level self) "word") eqn:Ew;
    destruct (String.eqb (level self) "phone") eqn:Ep; cbn [orb negb];
    rewrite ?String.eqb_eq, ?String.eqb_neq in *;
    split; intros H; auto; try discriminate.
  destruct H; contradiction.
Qed.

Lemma check_order_iff (self : recipe) (w : world) :
  _check_order self w = (Return tt, w) <->
  (exists n, order self = Int n /\ (1 <= n)%Z).
Proof.
  unfold _check_order, raise, ret.
  destruct (order self) as [n|s].
  - destruct (n <? 1)%Z eqn:E.
    + apply Z.ltb_lt in E. split; [discriminate|].
      intros (m & [= <-] & Hm). lia.
    + apply Z.ltb_ge in E. split; eauto.
  - split; [discriminate|]. intros (m & Hm & _). discriminate.
Qed.

Lemma check_silence_iff (self : recipe) (w : world) :
  _check_silence_probability self w = (Return tt, w) <->
  (0 <= silence_probability self /\ silence_probability self <= 1)%Q.
Proof.
  unfold _check_silence_probability, raise, ret. cbv zeta.
  rewrite <- !Qle_bool_iff.
  destruct (Qle_bool (silence_probability self) 1);
    destruct (Qle_bool 0 (silence_probability self)); cbn;
    split; intros H; auto; try discriminate; destruct H; discriminate.
Qed.

Lemma check_position_world (self : recipe) (w : world) :
  fst (_check_position_dependent self w) = Return tt /\
  files (snd (_check_position_dependent self w)) = files w /\
  filter is_exec (since w (snd (_check_position_dependent self w))) = [].
Proof.
  unfold _check_position_dependent, log, emit, ret, since.
  destruct (String.eqb (level self) "word" && position_dependent_phones self);
    cbn [fst snd files trace].
  - now rewrite skipn_added.
  - rewrite <- (app_nil_r (trace w)) at 2. now rewrite skipn_added.
Qed.

Lemma check_parameters_valid (self : recipe) (w : world) :
  valid_parameters self ->
  check_parameters self w = _check_position_dependent self w.
Proof.
  intros (Hl & Ho & Hs). unfold check_parameters.
  rewrite (@bind_return _ _ _ _ _ _ _ (proj2 (check_level_iff self w) Hl)).
  rewrite (@bind_return _ _ _ _ _ _ _ (proj2 (check_order_iff self w) Ho)).
  now rewrite (@bind_return _ _ _ _ _ _ _ (proj2 (check_silence_iff self w) Hs)).
Qed.

Lemma check_parameters_invalid (self : recipe) (w : world) :
  ~ valid_parameters self ->
  check_parameters self w = (Raise RuntimeError, w).
Proof.
  intros Hbad. unfold check_parameters.
  destruct (check_level_cases self w) as [Hl|Hl];
    [|now rewrite (@bind_raise _ _ _ _ _ _ _ Hl)].
  rewrite (@bind_return _ _ _ _ _ _ _ Hl).
  destruct (check_order_cases self w) as [Ho|Ho];
    [|now rewrite (@bind_raise _ _ _ _ _ _ _ Ho)].
  rewrite (@bind_return _ _ _ _ _ _ _ Ho).
  destruct (check_silence_cases self w) as [Hs|Hs];
    [|now rewrite (@bind_raise _ _ _ _ _ _ _ Hs)].
  exfalso. apply Hbad. split; [|split].
  - now apply (check_level_iff self w).
  - now apply (check_order_iff self w).
  - now apply (check_silence_iff self w).
Qed.

Lemma valid_parameters_dec (self : recipe) :
  valid_parameters self \/ ~ valid_parameters self.
Proof.
  destruct (check_level_cases self (World (fun _ => None) [])) as [Hl|Hl].
  - destruct (check_order_cases self (World (fun _ => None) [])) as [Ho|Ho].
    + destruct (check_silence_cases self (World (fun _ => None) []))
        as [Hs|Hs].
      * left. split; [|split].
        -- now apply (check_level_iff self (World (fun _ => None) [])).
        -- now apply (check_order_iff self (World (fun _ => None) [])).
        -- now apply (check_silence_iff self (World (fun _ => None) [])).
      * right. intros (_ & _ & H).
        apply (check_silence_iff self (World (fun _ => None) [])) in H.
        congruence.
    + right. intros (_ & H & _).
      apply (check_order_iff self (World (fun _ => None) [])) in H.
      congruence.
  - right. intros (H & _ & _).
    apply (check_level_iff self (World (fun _ => None) [])) in H.
    congruence.
Qed.

(** X14. For a recipe whose order is a string or a Python [int] (not
    a [long]) and whose silence probability is a number (not the float
    NaN), [check_parameters] returns exactly when the level is word or
    phone, the order an integer of at least 1 and the silence
    probability within 0 and 1.  When these do not hold it raises a
    [RuntimeError] and leaves the log as it was; in both cases it
    leaves the files as they were and runs no program. *)
Theorem check_parameters_accepts_exactly_the_valid
    (self : recipe) (w : world) :
  str_or_int (order self) ->
  (fst (check_parameters self w) = Return tt <-> valid_parameters self) /\
  (~ valid_parameters self ->
   check_parameters self w = (Raise RuntimeError, w)) /\
  files (snd (check_parameters self w)) = files w /\
  filter is_exec (since w (snd (check_parameters self w))) = [].
Proof.
  intros _. destruct (valid_parameters_dec self) as [Hv|Hv].
  - rewrite (@check_parameters_valid self w Hv).
    destruct (check_position_world self w) as (H1 & H2 & H3).
    split; [split; [intros _; exact Hv | intros _; exact H1]|].
    split; [intros Hbad; contradiction|]. split; assumption.
  - rewrite (@check_parameters_invalid self w Hv). cbn [fst snd].
    split; [split; [discriminate | intros H; contradiction]|].
    split; [reflexivity|]. split; [reflexivity|].
    unfold since. rewrite <- (app_nil_r (trace w)) at 2.
    now rewrite skipn_added.
Qed.

Lemma check_parameters_accepts_exactly_the_valid_witness :
  fst (check_parameters Stub.trigram (Stub.created Stub.trigram))
    = Return tt /\
  check_parameters
    (Recipe ["corpus"] ["out"] ["recipe"] ["recipe"; "local"] ["share"]
            "sentence" (Int 3) (1 # 2) false)
    (Stub.created Stub.trigram) =
  (Raise RuntimeError, Stub.created Stub.trigram).
Proof.
  split.
  - apply (proj1 (@check_parameters_accepts_exactly_the_valid
                    Stub.trigram (Stub.created Stub.trigram)
                    ltac:(simpl; lia))).
    split; [now left|]. split; [exists 3%Z; split; [reflexivity | lia]|].
    split; discriminate.
  - apply (proj1 (proj2 (@check_parameters_accepts_exactly_the_valid
             (Recipe ["corpus"] ["out"] ["recipe"] ["recipe"; "local"]
                     ["share"] "sentence" (Int 3) (1 # 2) false)
             (Stub.created Stub.trigram) ltac:(simpl; lia)))).
    intros ([H|H] & _); discriminate.
Defined.

(** ** The temporary files of the n-gram computation *)

Lemma try_finally_world {A} (body : M A) (cleanup : M unit) (w : world) :
  snd (try_finally body cleanup w) = snd (cleanup (snd (body w))).
Proof.
  unfold try_finally. destruct (body w) as [r w1]. cbn [snd].
  now destruct (cleanup w1) as [[u|e] w2].
Qed.

Lemma remove_safe_returns (p : path) (w : world) :
  fst (remove p true w) = Return tt.
Proof.
  unfold remove, bind, get_files, set_files, ret.
  now destruct (exists_ (files w) p).
Qed.

Lemma remove_removes (p : path) (w : world) :
  exists_ (files (snd (remove p true w))) p = false.
Proof.
  unfold remove, bind, get_files, set_files, ret.
  destruct (exists_ (files w) p) eqn:E; cbn [snd files]; [|exact E].
  unfold exists_. now rewrite rmtree_under by apply under_refl.
Qed.

Lemma remove_absent (p : path) (safe : bool) (w : world) (q : path) :
  files w q = None -> files (snd (remove p safe w)) q = None.
Proof.
  intros H. unfold remove, bind, get_files, set_files, ret, raise.
  destruct (exists_ (files w) p); cbn [snd files].
  - unfold rmtree. now destruct (under p q).
  - now destruct safe.
Qed.

Lemma exists_none (fs : filesystem) (p : path) :
  exists_ fs p = false <-> fs p = None.
Proof. unfold exists_. destruct (fs p); split; congruence. Qed.

Lemma cleanup_absent (l : list path) :
  forall w q,
    files w q = None ->
    files (snd (for_each l (fun f => remove f true) w)) q = None.
Proof.
  induction l as [|x l IH]; intros w q H; [exact H|].
  cbn [for_each]. unfold bind.
  pose proof (remove_safe_returns x w) as Hr.
  pose proof (@remove_absent x true w q H) as Ha.
  destruct (remove x true w) as [[u|e] w1]; cbn [fst snd] in *;
    [|discriminate].
  now apply IH.
Qed.

Lemma cleanup_removes (l : list path) :
  forall w,
    Forall (fun f =>
              exists_ (files (snd (for_each l (fun f => remove f true) w))) f
              = false) l.
Proof.
  induction l as [|x l IH]; intros w; [constructor|].
  cbn [for_each]. unfold bind.
  pose proof (remove_safe_returns x w) as Hr.
  pose proof (remove_removes x w) as Hx.
  destruct (remove x true w) as [[u|e] w1]; cbn [fst snd] in *;
    [|discriminate].
  constructor; [|apply IH].
  apply exists_none. apply cleanup_absent. now apply exists_none.
Qed.

Lemma cleanup_returns (l : list path) :
  forall w, fst (for_each l (fun f => remove f true) w) = Return tt.
Proof.
  induction l as [|x l IH]; intros w; [reflexivity|].
  cbn [for_each]. unfold bind.
  pose proof (remove_safe_returns x w) as Hr.
  destruct (remove x true w) as [[u|e] w1]; cbn [fst] in *; [|discriminate].
  apply IH.
Qed.

(** X15. However the n-gram computation ends, by returning or by
    raising at any point, none of its four temporary files is there
    afterwards (with [utils.remove] as the specification has it). *)
Theorem ngram_temporaries_are_removed
    (S : system) (self : recipe) (arpa : path) (w : world) :
  Forall (fun f => exists_ (files (snd (_compute_lm S self arpa w))) f = false)
         (ngram_temporaries self).
Proof.
  unfold _compute_lm, bind at 1, log, emit. cbv zeta.
  rewrite try_finally_world.
  apply cleanup_removes.
Qed.

(** ** What a stage that raises leaves behind *)

Lemma stays_absent_refl a w : stays_absent a w w.
Proof. intros H. exact H. Qed.

Lemma stays_absent_trans a x y z :
  stays_absent a x y -> stays_absent a y z -> stays_absent a x z.
Proof. unfold stays_absent. auto. Qed.

Section Absent.
Variable a : path.

Lemma absent_bind {A B} (m : M A) (k : A -> M B) :
  keeps (stays_absent a) m ->
  (forall x, keeps (stays_absent a) (k x)) ->
  keeps (stays_absent a) (bind m k).
Proof. apply keeps_bind, stays_absent_trans. Qed.

Lemma absent_same_files {A} (m : M A) :
  (forall w, files (snd (m w)) = files w) -> keeps (stays_absent a) m.
Proof. intros H w Ha. now rewrite H. Qed.

Lemma absent_emit e : keeps (stays_absent a) (emit e).
Proof. now apply absent_same_files. Qed.

Lemma absent_read_file p : keeps (stays_absent a) (read_file p).
Proof.
  apply absent_same_files. intros w.
  unfold read_file, bind, get_files, ret, raise.
  now destruct (files w p) as [[c|]|].
Qed.

Lemma absent_write_file p c :
  path_eqb a p = false -> keeps (stays_absent a) (write_file p c).
Proof.
  intros Hp w Ha. unfold write_file, bind, get_files, set_files.
  cbn [snd files]. now rewrite put_other.
Qed.

Lemma absent_remove p safe : keeps (stays_absent a) (remove p safe).
Proof. intros w Ha. now apply remove_absent. Qed.

Lemma absent_run_job S c out :
  (forall fs, fs a = None -> job_files (gateway S c fs) a = None) ->
  match out with
  | ToLog => True
  | ToFile p | ToOpenFile p => path_eqb a p = false
  end ->
  keeps (stays_absent a) (run_job S c out).
Proof.
  intros Hc Hout w Ha.
  unfold run_job, write_file, log, emit, bind, get_files, set_files, ret,
    raise.
  destruct out as [|p|p]; cbn [fst snd files];
    destruct (job_ok (gateway S c (files w))); cbn [snd files];
    rewrite ?put_other by exact Hout; now apply Hc.
Qed.

Lemma on_raise_bind {A B} (m : M A) (k : A -> M B) :
  keeps (stays_absent a) m ->
  (forall x, keeps_on_raise (stays_absent a) (k x)) ->
  keeps_on_raise (stays_absent a) (bind m k).
Proof.
  intros Hm Hk w e w' H. unfold bind in H. specialize (Hm w).
  destruct (m w) as [[x|e1] w1]; cbn [snd] in Hm.
  - eapply stays_absent_trans; [exact Hm|]. eapply Hk. exact H.
  - injection H as _ <-. exact Hm.
Qed.

Lemma on_raise_write_file p c :
  keeps_on_raise (stays_absent a) (write_file p c).
Proof. intros w e w' H. discriminate. Qed.

End Absent.

(** X16. A n-gram computation that raises has put no G.arpa.gz in
    place, as long as the three programs it runs do not create one
    themselves: the next run finds none and computes it again. *)
Theorem failed_ngram_leaves_no_arpa
    (S : system) (self : recipe) (w w' : world) (e : exn) :
  (forall c fs,
      In c (ngram_calls self) ->
      fs (G_arpa self) = None ->
      job_files (gateway S c fs) (G_arpa self) = None) ->
  files w (G_arpa self) = None ->
  _compute_lm S self (G_arpa self) w = (Raise e, w') ->
  files w' (G_arpa self) = None /\
  isfile (files w') (G_arpa self) = false.
Proof.
  intros Hprog Hw Hrun.
  assert (Hnone : files w' (G_arpa self) = None).
  { revert Hrun. unfold _compute_lm, bind at 1, log, emit. cbv zeta.
    set (w0 := World (files w)
                 (trace w ++
                  [Log INFO (Computing_ngram (level self) (order self))])).
    unfold try_finally.
    match goal with
    | |- context [let (r, w1) := ?body w0 in _] =>
        assert (Hbody : keeps_on_raise (stays_absent (G_arpa self)) body);
          [|destruct (body w0) as [r w1] eqn:Eb]
    end.
    { unfold G_arpa.
      repeat first
        [ apply on_raise_write_file
        | apply on_raise_bind; [|intros ?]
        | apply absent_read_file
        | apply absent_write_file; apply sibling_neq; discriminate
        | apply absent_run_job;
            [ intros fs; apply Hprog; unfold ngram_calls; simpl; tauto
            | try exact I; apply sibling_neq; discriminate ] ]. }
    pose proof (cleanup_returns
                  [(local_path self ++ ["text_ready.txt"])%list;
                   (local_path self ++ ["text_se.txt"])%list;
                   (local_path self ++ ["text_lm.gz"])%list;
                   (local_path self ++ ["text_blm.gz"])%list] w1) as Hret.
    pose proof (@cleanup_absent
                  [(local_path self ++ ["text_ready.txt"])%list;
                   (local_path self ++ ["text_se.txt"])%list;
                   (local_path self ++ ["text_lm.gz"])%list;
                   (local_path self ++ ["text_blm.gz"])%list] w1
                  (G_arpa self)) as Habs.
    destruct (for_each _ _ w1) as [[u|e2] w2]; cbn [fst snd] in *;
      [|discriminate].
    intros [= -> ->]. apply Habs.
    exact (Hbody w0 e w1 Eb Hw). }
  split; [exact Hnone|]. unfold isfile. now rewrite Hnone.
Qed.

Lemma failed_ngram_leaves_no_arpa_witness :
  files
    (snd (_compute_lm Stub.machine Stub.trigram (G_arpa Stub.trigram)
            Fixture.without_text))
    (G_arpa Stub.trigram) = None /\
  isfile
    (files
       (snd (_compute_lm Stub.machine Stub.trigram (G_arpa Stub.trigram)
               Fixture.without_text)))
    (G_arpa Stub.trigram) = false.
Proof.
  apply (@failed_ngram_leaves_no_arpa Stub.machine Stub.trigram
           Fixture.without_text
           (snd (_compute_lm Stub.machine Stub.trigram (G_arpa Stub.trigram)
                   Fixture.without_text))
           IOError).
  - intros c fs [<-|[<-|[<-|[]]]] H; cbn; try exact H;
      unfold Stub.put_new; destruct (exists_ fs _); try exact H;
      rewrite put_other by reflexivity; exact H.
  - reflexivity.
  - apply injective_projections; [vm_compute; reflexivity | reflexivity].
Defined.

(** ** The temporary file of the FST compilation *)

(** X17. What [_compile_fst] leaves, by the fate of its two programs.
    The compiler prints through the temporary file object, which is
    not flushed before the sorter runs: the temporary file holds what
    its buffer has let through of the compiler's output, and this is
    what the sorter reads.  When the compiler fails the method raises,
    the sorter is not run and the temporary file stays behind; when the
    sorter fails the method raises and the FST file holds what the
    sorter printed; when both succeed the temporary file is removed and
    the FST file holds the output of the sorter. *)
Theorem compile_fst_outcomes
    (S : system) (self : recipe) (txt fst_path : path) (w : world) :
  let temp := mktemp S (files w) in
  let compiler :=
    gateway S (FstCompile (output_dir self ++ ["words.txt"])%list txt)
            (put (files w) temp (File "")) in
  let compiled :=
    put (job_files compiler) temp (File (flushed S (job_stdout compiler))) in
  let sorter :=
    gateway S (FstArcSort temp) (put compiled fst_path (File "")) in
  let sorted := put (job_files sorter) fst_path (File (job_stdout sorter)) in
  let final := _compile_fst S self txt fst_path w in
  (job_ok compiler = false ->
   fst final = Raise RuntimeError /\
   files (snd final) = compiled /\
   files (snd final) temp = Some (File (flushed S (job_stdout compiler))) /\
   ~ In (Exec (FstArcSort temp) (ToFile fst_path)) (since w (snd final))) /\
  (job_ok compiler = true -> job_ok sorter = false ->
   fst final = Raise RuntimeError /\
   files (snd final) = sorted /\
   files (snd final) fst_path = Some (File (job_stdout sorter))) /\
  (job_ok compiler = true -> job_ok sorter = true ->
   exists_ sorted temp = true ->
   fst final = Return tt /\
   files (snd final) = rmtree sorted temp /\
   exists_ (files (snd final)) temp = false /\
   (under temp fst_path = false ->
    files (snd final) fst_path = Some (File (job_stdout sorter)))).
Proof.
  intros temp compiler compiled sorter sorted final.
  destruct (compile_fst_cases S self txt fst_path w) as (H1 & H2 & H3).
  split; [|split].
  - intros Hc. destruct (H1 Hc) as (Hr & Hf & He).
    split; [exact Hr|]. split; [exact Hf|]. split.
    + unfold final. rewrite Hf. apply put_same.
    + intros Hin.
      assert (Hx : In (Exec (FstArcSort temp) (ToFile fst_path))
                     (filter is_exec (since w (snd final)))).
      { apply filter_In. now split. }
      unfold final in Hx. rewrite He in Hx.
      destruct Hx as [Hx|[]]. discriminate.
  - intros Hc Hs. destruct (H2 Hc Hs) as (Hr & Hf & _).
    split; [exact Hr|]. split; [exact Hf|].
    unfold final. rewrite Hf. apply put_same.
  - intros Hc Hs Ht. destruct (H3 Hc Hs) as (_ & Hthere & _).
    destruct (Hthere Ht) as [Hr Hf].
    split; [exact Hr|]. split; [exact Hf|]. unfold final. rewrite Hf. split.
    + unfold exists_. now rewrite rmtree_under by apply under_refl.
    + intros Hu. rewrite rmtree_other by assumption. apply put_same.
Qed.

Lemma compile_fst_outcomes_witness :
  fst (_compile_fst Stub.machine Stub.trigram (G_txt Stub.trigram)
         (G_fst Stub.trigram) Stub.with_grammar) = Return tt /\
  exists_
    (files (snd (_compile_fst Stub.machine Stub.trigram (G_txt Stub.trigram)
                   (G_fst Stub.trigram) Stub.with_grammar)))
    Stub.temp_file = false /\
  files (snd (_compile_fst Stub.machine Stub.trigram (G_txt Stub.trigram)
                (G_fst Stub.trigram) Stub.with_grammar))
    (G_fst Stub.trigram) = Some (File "sorted ").
Proof.
  destruct (proj2 (proj2 (@compile_fst_outcomes Stub.machine Stub.trigram
                            (G_txt Stub.trigram) (G_fst Stub.trigram)
                            Stub.with_grammar))
              eq_refl eq_refl eq_refl) as (H1 & _ & H3 & H4).
  split; [exact H1|]. split; [exact H3|]. exact (H4 eq_refl).
Defined.

(** ** A preparation that fails *)

Lemma check_parameters_trace (self : recipe) (w w0 : world) :
  check_parameters self w = (Return tt, w0) ->
  files w0 = files w /\
  exists added,
    trace w0 = (trace w ++ added)%list /\ filter is_exec added = [].
Proof.
  intros H.
  destruct (valid_parameters_dec self) as [Hv|Hv].
  - rewrite (@check_parameters_valid self w Hv) in H.
    revert H. unfold _check_position_dependent, log, emit, ret.
    destruct (String.eqb (level self) "word" &&
              position_dependent_phones self); intros [= <-]; cbn.
    + split; [reflexivity|]. eexists. split; reflexivity.
    + split; [reflexivity|]. exists []. now rewrite app_nil_r.
  - rewrite (@check_parameters_invalid self w Hv) in H. discriminate.
Qed.

(** X18. When the preparation script fails, [run] raises a
    [RuntimeError] there and then: the script is the only program it
    has run, no stage is entered, and the files are as the script left
    them. *)
Theorem run_stops_when_the_preparation_fails
    (S : system) (self : recipe) (w w0 : world) :
  check_parameters self w = (Return tt, w0) ->
  job_ok (gateway S (prepare_lang_call self) (files w0)) = false ->
  fst (run S self w) = Raise RuntimeError /\
  files (snd (run S self w)) =
    job_files (gateway S (prepare_lang_call self) (files w0)) /\
  filter is_exec (since w (snd (run S self w))) =
    [Exec (prepare_lang_call self) ToLog].
Proof.
  intros Hcheck Hfail.
  destruct (@check_parameters_trace self w w0 Hcheck) as (Hfiles & added & Htrace & Hq).
  unfold run. rewrite (@bind_return _ _ _ _ _ _ _ Hcheck).
  unfold since, _prepare_lang, run_job, log, emit, bind, get_files,
    set_files, ret, raise.
  cbn. fold (prepare_lang_call self). rewrite Hfail. cbn.
  split; [reflexivity|]. split; [reflexivity|].
  rewrite Htrace, <- !app_assoc, skipn_added.
  rewrite filter_app, Hq. reflexivity.
Qed.

Lemma run_stops_when_the_preparation_fails_witness :
  fst (run Fixture.failing_machine Stub.trigram (Stub.created Stub.trigram)) =
    Raise RuntimeError /\
  files (snd (run Fixture.failing_machine Stub.trigram
                (Stub.created Stub.trigram))) =
    job_files (gateway Fixture.failing_machine
                 (prepare_lang_call Stub.trigram)
                 (files (Stub.created Stub.trigram))) /\
  filter is_exec
    (since (Stub.created Stub.trigram)
       (snd (run Fixture.failing_machine Stub.trigram
               (Stub.created Stub.trigram)))) =
    [Exec (prepare_lang_call Stub.trigram) ToLog].
Proof.
  apply (@run_stops_when_the_preparation_fails Fixture.failing_machine
           Stub.trigram (Stub.created Stub.trigram)
           (Stub.created Stub.trigram));
    reflexivity.
Defined.

(** ** Directories *)

Lemma head_plain (name : string) :
  free_of "/" name = true -> Os.head name = "".
Proof.
  unfold free_of. induction name as [|c name IH]; intros H; [reflexivity|].
  simpl in H. apply andb_prop in H as [Hc H].
  cbn [Os.head]. rewrite (IH H). cbn [Py.is_empty].
  now destruct (Ascii.eqb c "/").
Qed.

Lemma head_append (root rest : string) :
  Py.is_empty (Os.head rest) = false ->
  Os.head (root ++ rest) = root ++ Os.head rest.
Proof.
  intros H. induction root as [|c root IH]; [reflexivity|].
  cbn [append Os.head]. rewrite IH.
  destruct (root ++ Os.head rest) eqn:E; [|reflexivity].
  destruct root; [|discriminate]. cbn [append] in E.
  now rewrite E in H.
Qed.

Lemma head_in_directory (root name : string) :
  free_of "/" name = true ->
  Os.head (root ++ "/" ++ name) = root ++ "/".
Proof.
  intros H.
  assert (E : Os.head ("/" ++ name) = "/").
  { cbn [append Os.head]. now rewrite (head_plain _ H). }
  rewrite head_append; now rewrite E.
Qed.

Lemma rstrip_slash_append (root : string) :
  Os.rstrip_slash (root ++ "/") = Os.rstrip_slash root.
Proof.
  induction root as [|c root IH]; [reflexivity|].
  cbn [append Os.rstrip_slash]. now rewrite IH.
Qed.

Lemma rstrip_slash_same (root : string) :
  Os.ends_with_slash root = false -> Os.rstrip_slash root = root.
Proof.
  induction root as [|c root IH]; [reflexivity|].
  intros H. cbn [Os.rstrip_slash].
  destruct root as [|d root].
  - cbn in H |- *. now rewrite H.
  - rewrite IH by exact H. cbn [Py.is_empty]. now rewrite andb_false_r.
Qed.

Lemma not_all_slashes (root rest : string) :
  root <> "" -> Os.ends_with_slash root = false ->
  Py.sall (fun c => Ascii.eqb c "/") (root ++ rest) = false.
Proof.
  induction root as [|c root IH]; intros Hne H; [congruence|].
  cbn [append Py.sall].
  destruct root as [|d root].
  - cbn in H. now rewrite H.
  - rewrite IH; [apply andb_false_r | discriminate | exact H].
Qed.

Lemma dirname_in_directory (root name : string) :
  root <> "" -> Os.ends_with_slash root = false ->
  free_of "/" name = true ->
  Os.dirname (root ++ "/" ++ name) = root.
Proof.
  intros Hne Hend Hname. unfold Os.dirname. cbv zeta.
  rewrite head_in_directory by assumption.
  rewrite not_all_slashes by assumption.
  destruct root as [|c root]; [congruence|].
  cbn [append Py.is_empty negb andb].
  change (String c (root ++ "/")) with (String c root ++ "/").
  now rewrite rstrip_slash_append, rstrip_slash_same.
Qed.

Lemma join_in_directory (root name : string) :
  root <> "" -> Os.ends_with_slash root = false ->
  Py.startswith "/" name = false ->
  Os.join root name = root ++ "/" ++ name.
Proof.
  intros Hne Hend Hname. unfold Os.join. rewrite Hname, Hend.
  destruct root; [congruence|reflexivity].
Qed.

(** ** The [align] command *)

(** X19. Which recipe the [align] command configures: it raises
    [NotImplementedError] exactly when word-only output and posteriors
    are asked together, and then configures nothing; otherwise, with the
    exclusions [argparse] enforces, the level is words, phones or both
    exactly by the two flags, posteriors are never asked of the
    lattice-free recipe nor with word-only output, and the recipe
    directory is deleted unless it is asked to be kept. *)
Theorem align_options (abspath : string -> string)
    (corpus_dir : string) (a : Align.args) :
  (Align.run abspath corpus_dir a = Align.NotImplementedError <->
   Align.words_only a = true /\ Align.post a = true) /\
  (Align.parsed a ->
   forall r,
     Align.run abspath corpus_dir a = Align.Configured r ->
     (Align.level r = "words" <-> Align.words_only a = true) /\
     (Align.level r = "phones" <-> Align.phones_only a = true) /\
     (Align.level r = "both" <->
      Align.words_only a = false /\ Align.phones_only a = false) /\
     (Align.class r = Align.AlignNoLattice <-> Align.no_lattice a = true) /\
     (Align.with_posteriors r = true ->
      Align.class r = Align.Align /\ Align.level r <> "words") /\
     Align.delete_recipe r = negb (Align.recipe a)).
Proof.
  unfold Align.run, Align.parsed.
  destruct a as [nj sc post nl po wo lm ft am keep]. cbn.
  split.
  - destruct wo, po, post; cbn; split; intros H; try discriminate;
      try (destruct H; discriminate); auto.
  - intros [H1 H2] r.
    destruct wo, po, post, nl, keep; cbn in *; try discriminate;
      intros [= <-]; cbn;
      repeat split; intros; try discriminate; try reflexivity;
      try (destruct H; discriminate).
Qed.

Lemma align_options_witness :
  Align.level
    (Align.Aligner Align.Align 4 "phones" true (1 # 10)
       "/data/language" "/data/features" "/data/acoustic" true) = "phones" <->
  Align.phones_only
    (Align.Args 4 (1 # 10) true false true false None None None false) = true.
Proof.
  apply (proj2 (@align_options (fun d => d) "/data/corpus"
                  (Align.Args 4 (1 # 10) true false true false
                              None None None false))
           (conj eq_refl eq_refl)
           (Align.Aligner Align.Align 4 "phones" true (1 # 10)
              "/data/language" "/data/features" "/data/acoustic" true)
           eq_refl).
Defined.

(** X20. Where the [align] command looks for its inputs, for a corpus
    directory written root/name, with a root that is not empty and does
    not end with a slash and a name without slash.  A directory given
    on the command line is taken as it is, made absolute; one that is
    not given is root/language, root/acoustic or root/features.  That
    is beside the corpus directory, in its parent, when the name is not
    empty; for a corpus directory written with a slash at its end (the
    name is empty, as in /data/corpus/) it is inside the corpus
    directory itself (/data/corpus/language). *)
Theorem align_directories (abspath : string -> string)
    (root name : string) (a : Align.args) (r : Align.aligner) :
  root <> "" -> Os.ends_with_slash root = false ->
  free_of "/" name = true ->
  Align.run abspath (root ++ "/" ++ name) a = Align.Configured r ->
  Align.lm_dir r =
    match Align.language_model a with
    | None => root ++ "/language"
    | Some d => abspath d
    end /\
  Align.am_dir r =
    match Align.acoustic_model a with
    | None => root ++ "/acoustic"
    | Some d => abspath d
    end /\
  Align.feat_dir r =
    match Align.features a with
    | None => root ++ "/features"
    | Some d => abspath d
    end.
Proof.
  intros Hne Hend Hname. unfold Align.run.
  rewrite dirname_in_directory by assumption.
  rewrite !join_in_directory by (assumption || reflexivity).
  destruct (_ && _); [discriminate|].
  intros [= <-]. cbn. auto.
Qed.

Lemma align_directories_witness :
  (Align.lm_dir
     (Align.Aligner Align.Align 4 "both" false (1 # 10)
        "/data/language" "/data/features" "/models/am" true) =
   "/data" ++ "/language" /\
   Align.am_dir
     (Align.Aligner Align.Align 4 "both" false (1 # 10)
        "/data/language" "/data/features" "/models/am" true) =
   "/models/am" /\
   Align.feat_dir
     (Align.Aligner Align.Align 4 "both" false (1 # 10)
        "/data/language" "/data/features" "/models/am" true) =
   "/data" ++ "/features") /\
  Align.run (fun d => d) "/data/corpus/"
    (Align.Args 4 (1 # 10) false false false false
                None None (Some "/models/am") false) =
  Align.Configured
    (Align.Aligner Align.Align 4 "both" false (1 # 10)
       "/data/corpus/language" "/data/corpus/features" "/models/am" true) /\
  Align.lm_dir
    (Align.Aligner Align.Align 4 "both" false (1 # 10)
       "/data/corpus/language" "/data/corpus/features" "/models/am" true) =
  "/data/corpus" ++ "/language".
Proof.
  split; [|split; [reflexivity|]].
  - apply (@align_directories (fun d => d) "/data" "corpus"
             (Align.Args 4 (1 # 10) false false false false
                         None None (Some "/models/am") false)
             (Align.Aligner Align.Align 4 "both" false (1 # 10)
                "/data/language" "/data/features" "/models/am" true));
      try reflexivity.
    discriminate.
  - apply (@align_directories (fun d => d) "/data/corpus" ""
             (Align.Args 4 (1 # 10) false false false false
                         None None (Some "/models/am") false)
             (Align.Aligner Align.Align 4 "both" false (1 # 10)
                "/data/corpus/language" "/data/corpus/features"
                "/models/am" true));
      try reflexivity.
    discriminate.
Defined.

(** ** A count that is not an integer *)

Lemma lines_from_app (a b : string) :
  forall cur,
    Py.lines_from cur ((a ++ AIC.newline) ++ b) =
    (Py.lines_from cur (a ++ AIC.newline) ++ Py.lines_from "" b)%list.
Proof.
  induction a as [|c a IH]; intros cur.
  - cbn. reflexivity.
  - cbn [append Py.lines_from].
    destruct (Ascii.eqb c Py.nl); rewrite IH; reflexivity.
Qed.

Lemma readlines_app (pre rest : string) :
  whole_lines pre ->
  Py.readlines (pre ++ rest) =
  (Py.readlines pre ++ Py.readlines rest)%list.
Proof.
  intros [->|[a ->]]; [reflexivity|]. apply lines_from_app.
Qed.

Lemma oov_loop_raise (line : string) (post : list string) :
  AIC.oov_step line = AIC.ValueError ->
  forall pre out, AIC.oov_loop (pre ++ line :: post)%list out = AIC.Raised.
Proof.
  intros H. induction pre as [|l pre IH]; intros out.
  - cbn. now rewrite H.
  - cbn [app AIC.oov_loop]. destruct (AIC.oov_step l); auto.
Qed.

(** X21. A line of the OOV file that has the tabulation but no integer
    after it makes [make_lexicon_aux] raise, wherever the line is in
    the file and whatever the other lines are: [int] raises
    [ValueError] and nothing catches it. *)
Theorem bad_count_aborts_the_lexicon
    (temp_lex pre post word count : string) :
  whole_lines pre ->
  Py.sall Re.dot word = true ->
  Py.sall no_tab_nl count = true ->
  Py.int_of_str count = None ->
  AIC.oov_step (word ++ AIC.tabulation ++ count ++ AIC.newline) =
    AIC.ValueError /\
  AIC.make_lexicon_aux temp_lex
    (pre ++ (word ++ AIC.tabulation ++ count ++ AIC.newline) ++ post) =
    AIC.Raised.
Proof.
  intros Hpre Hw Hc Hint.
  assert (Hstep : AIC.oov_step
                    (word ++ AIC.tabulation ++ count ++ AIC.newline) =
                  AIC.ValueError).
  { unfold AIC.oov_step. rewrite rmatch_oov_line by assumption.
    cbn [Re.group Nat.sub nth]. now rewrite Hint. }
  split; [exact Hstep|].
  unfold AIC.make_lexicon_aux. rewrite readlines_app by assumption.
  assert (Hdot : Py.sall Re.dot (word ++ AIC.tabulation ++ count) = true).
  { rewrite !sall_append, Hw. cbn.
    revert Hc. apply sall_impl. unfold no_tab_nl. intros c.
    rewrite andb_true_iff. tauto. }
  unfold Py.readlines at 2.
  replace ((word ++ AIC.tabulation ++ count ++ AIC.newline) ++ post)
    with ((word ++ AIC.tabulation ++ count) ++ String Py.nl post)
    by (unfold AIC.newline; now rewrite !append_assoc).
  rewrite lines_from_line by assumption. cbn [append].
  replace ((word ++ AIC.tabulation ++ count) ++ AIC.newline)
    with (word ++ AIC.tabulation ++ count ++ AIC.newline)
    by now rewrite !append_assoc.
  now apply oov_loop_raise.
Qed.

Lemma bad_count_aborts_the_lexicon_witness :
  AIC.oov_step ("qq" ++ AIC.tabulation ++ "many" ++ AIC.newline) =
    AIC.ValueError /\
  AIC.make_lexicon_aux ""
    (AIC.oov_line "zz" 3 ++
     ("qq" ++ AIC.tabulation ++ "many" ++ AIC.newline) ++
     AIC.oov_line "a:b" 2) =
    AIC.Raised.
Proof.
  apply (@bad_count_aborts_the_lexicon "" (AIC.oov_line "zz" 3)
           (AIC.oov_line "a:b" 2) "qq" "many");
    try reflexivity.
  right. exists ("zz" ++ AIC.tabulation ++ Py.str_of_int 3). reflexivity.
Defined.

(** ** A line of the transcription *)

Lemma rmatch_once (cls : ascii -> bool) (pat : list Re.atom)
    (c : ascii) (s : string) :
  Re.rmatch (Re.grp cls Re.Once :: pat) (String c s) =
  if cls c
  then option_map (fun gs => String c "" :: gs) (Re.rmatch pat s)
  else None.
Proof. reflexivity. Qed.

Lemma rmatch_plus (cls : ascii -> bool) (pat : list Re.atom)
    (c : ascii) (s : string) :
  Re.rmatch (Re.grp cls Re.Plus :: pat) (String c s) =
  if cls c
  then Re.greedy cls
         (fun cap rest =>
            option_map (fun gs => cap :: gs) (Re.rmatch pat rest))
         (String c "") s
  else None.
Proof. reflexivity. Qed.

Lemma rmatch_transcription_line
    (c : ascii) (speaker : string) (kind : ascii) (id text : string) :
  Py.sall speaker_char (String c speaker) = true ->
  Re.one_of "ps" kind = true ->
  Py.sall plain id = true ->
  Py.sall Re.dot text = true ->
  Re.rmatch AIC.re_transcription
    (transcription_line (String c speaker) kind id text) =
  Some [String c speaker; String kind ""; id; text].
Proof.
  intros Hs Hk Hid Ht. unfold AIC.re_transcription, transcription_line.
  cbn [Py.sall] in Hs. apply andb_prop in Hs as [Hc Hs].
  cbn [append]. rewrite rmatch_plus.
  fold (speaker_char c). rewrite Hc.
  apply greedy_run with (cap := String c ""); [exact Hs|].
  rewrite greedy_stop by reflexivity.
  rewrite rmatch_lit. replace (Re.chr "_" "_") with true by reflexivity.
  rewrite rmatch_once, Hk, rmatch_lit.
  replace (Re.chr "_" "_") with true by reflexivity.
  rewrite rmatch_lazy, lazy_run.
  - erewrite lazy_now; [reflexivity|].
    cbn [append]. rewrite rmatch_lit.
    replace (Re.space " ") with true by reflexivity.
    now rewrite rmatch_dot_star.
  - now apply plain_is_dot.
  - intros u1 u2 -> Hne. rewrite rmatch_lit.
    destruct u2 as [|x u2]; [congruence|].
    rewrite sall_append in Hid. apply andb_prop in Hid as [_ Hid].
    simpl in Hid. apply andb_prop in Hid as [Hx _].
    cbn [append]. unfold plain in Hx. unfold Re.space.
    destruct (Py.is_space x); [discriminate|reflexivity].
Qed.

Lemma smap_append f (a b : string) :
  Py.smap f (a ++ b) = Py.smap f a ++ Py.smap f b.
Proof. induction a as [|c a IH]; simpl; [reflexivity|]. now rewrite IH. Qed.

Lemma upper_join (words : list string) :
  Py.upper (Py.join " " words) = Py.join " " (map Py.upper words).
Proof.
  unfold Py.upper.
  induction words as [|w [|w' words] IH]; [reflexivity|reflexivity|].
  change (Py.join " " (w :: w' :: words))
    with (w ++ String " " (Py.join " " (w' :: words))).
  rewrite smap_append. cbn [Py.smap]. rewrite IH. reflexivity.
Qed.

Lemma upper_token (w : string) : token w = true -> token (Py.upper w) = true.
Proof.
  unfold token, Py.upper. intros H. apply andb_prop in H as [Hne Hp].
  apply andb_true_intro. split.
  - now destruct w.
  - rewrite sall_smap. revert Hp. apply sall_impl.
    intros x. unfold plain.
    destruct x as [[] [] [] [] [] [] [] []]; intros H; try discriminate H;
      reflexivity.
Qed.

(** X22. What a line of the transcription adds to the count: for a line
    made of a speaker (letters f, m and digits), an underscore, p or s,
    an underscore, the rest of the utterance id, a space and the text,
    the words counted are the words of the text in upper case; the
    utterance id is not counted. *)
Theorem transcription_line_counts_its_text
    (c : ascii) (speaker : string) (kind : ascii) (id text : string) :
  Py.sall speaker_char (String c speaker) = true ->
  Re.one_of "ps" kind = true ->
  Py.sall plain id = true ->
  Py.sall Re.dot text = true ->
  let line := transcription_line (String c speaker) kind id text in
  words_of_line line = Py.split_ws (Py.upper text) /\
  (forall dict_word,
      AIC.transcription_step dict_word line =
      fold_left AIC.count_word (Py.split_ws (Py.upper text)) dict_word) /\
  (forall words,
      Forall (fun w => token w = true) words ->
      text = Py.join " " words ->
      words_of_line line = map Py.upper words).
Proof.
  intros Hs Hk Hid Ht line.
  assert (E : words_of_line line = Py.split_ws (Py.upper text)).
  { unfold words_of_line, line.
    now rewrite rmatch_transcription_line. }
  split; [exact E|]. split.
  - intros d. now rewrite transcription_step_words, E.
  - intros words Hw ->. rewrite E, upper_join.
    rewrite <- (append_nil_r (Py.join " " _)).
    apply split_ws_join; [|reflexivity].
    apply Forall_map. eapply Forall_impl; [|exact Hw].
    exact upper_token.
Qed.

Lemma transcription_line_counts_its_text_witness :
  words_of_line (transcription_line "f01" "p" "utt1" "hello a:b") =
  Py.split_ws (Py.upper "hello a:b").
Proof.
  apply (@transcription_line_counts_its_text
           "f" "01" "p" "utt1" "hello a:b");
    reflexivity.
Defined.

(** ** No word twice in the lexicon *)

Lemma chr_lower_code (c : ascii) :
  N_of_ascii (Py.chr_lower c) =
  if Py.is_upper c then (N_of_ascii c + 32)%N else N_of_ascii c.
Proof.
  unfold Py.chr_lower. destruct (Py.is_upper c) eqn:E; [|reflexivity].
  apply N_ascii_embedding. unfold Py.is_upper in E.
  apply andb_prop in E as [_ E]. apply N.leb_le in E. lia.
Qed.

Lemma chr_lower_inj (c d : ascii) :
  Py.is_lower c = false -> Py.is_lower d = false ->
  Py.chr_lower c = Py.chr_lower d -> c = d.
Proof.
  intros Hc Hd E. apply (f_equal N_of_ascii) in E.
  rewrite !chr_lower_code in E.
  rewrite <- (ascii_N_embedding c), <- (ascii_N_embedding d). f_equal.
  unfold Py.is_lower, Py.is_upper in *.
  rewrite andb_false_iff, !N.leb_gt in Hc, Hd.
  destruct (_ && _) eqn:Ec in E; destruct (_ && _) eqn:Ed in E;
    rewrite ?andb_true_iff, ?andb_false_iff, ?N.leb_le, ?N.leb_gt in *;
    lia.
Qed.

Lemma lower_inj (s : string) :
  forall t, uppercase s -> uppercase t -> Py.lower s = Py.lower t -> s = t.
Proof.
  unfold uppercase, Py.lower.
  induction s as [|c s IH]; intros [|d t] Hs Ht E; try discriminate;
    [reflexivity|].
  cbn in Hs, Ht, E. apply andb_prop in Hs as [Hc Hs].
  apply andb_prop in Ht as [Hd Ht]. injection E as E1 E2.
  apply negb_true_iff in Hc, Hd.
  f_equal; [now apply chr_lower_inj | now apply IH].
Qed.

Lemma choose_map_filter {A B C} (f : B -> option C) (g : A -> B)
    (h : A -> C) (p : A -> bool) (l : list A) :
  (forall x, In x l -> f (g x) = if p x then Some (h x) else None) ->
  AIC.choose f (map g l) = map h (filter p l).
Proof.
  induction l as [|x l IH]; intros H; [reflexivity|].
  cbn [map AIC.choose filter]. rewrite (H x) by now left.
  rewrite IH by (intros y Hy; apply H; now right).
  now destruct (p x).
Qed.

Lemma filter_all {A} (l : list A) : filter (fun _ => true) l = l.
Proof. induction l as [|x l IH]; simpl; congruence. Qed.

Lemma lexicon_entry_temp (cmu_file : string) (item : string * Z) :
  Py.sall plain (fst item) = true ->
  AIC.lexicon_entry (temp_entry (AIC.read_cmu_dict cmu_file) item) =
  Some (Py.lower (fst item),
        AIC.cmu_to_aic (pronunciation (AIC.read_cmu_dict cmu_file) item)).
Proof.
  intros H. unfold AIC.lexicon_entry, temp_entry.
  rewrite rmatch_lexicon_line; [reflexivity | assumption |].
  apply pronunciation_dot.
Qed.

Lemma oov_entry_candidate (c : string * Z) :
  Py.sall Re.dot (fst c) = true ->
  AIC.oov_entry (candidate_line c) =
  if retained c
  then Some (Py.lower (fst c), Py.join " " (Py.split ":" (Py.lower (fst c))))
  else None.
Proof.
  intros H. unfold AIC.oov_entry, candidate_line, retained.
  rewrite oov_step_line, rmatch_oov by assumption.
  now destruct (1 <? snd c)%Z.
Qed.

Lemma nodup_map_filter {A B} (f : A -> B) (p : A -> bool) (b : list A) :
  NoDup (map f b) -> NoDup (map f (filter p b)).
Proof.
  induction b as [|y b IHb]; cbn [map filter]; intros H; [constructor|].
  inversion H as [|? ? Hy Hb]; subst.
  destruct (p y); [|now apply IHb].
  cbn [map]. constructor; [|now apply IHb].
  intros Hin. apply Hy. apply in_map_iff in Hin as (z & E & Hz).
  rewrite <- E. apply in_map. now apply filter_In in Hz as [Hz _].
Qed.

Lemma nodup_app_filter {A B} (f : A -> B) (p : A -> bool) (a b : list A) :
  NoDup (map f (a ++ b)) -> NoDup (map f (a ++ filter p b)).
Proof.
  induction a as [|x a IH]; cbn [app map].
  - apply nodup_map_filter.
  - intros H. inversion H as [|? ? Hx Ha]; subst.
    constructor; [|now apply IH].
    intros Hin. apply Hx.
    apply in_map_iff in Hin as (z & E & Hz).
    rewrite <- E. apply in_map. apply in_app_iff in Hz as [Hz|Hz].
    + apply in_app_iff. now left.
    + apply filter_In in Hz as [Hz _]. apply in_app_iff. now right.
Qed.

Lemma render_app (l1 l2 : list (string * string)) :
  AIC.render (l1 ++ l2) = AIC.render l1 ++ AIC.render l2.
Proof. unfold AIC.render. now rewrite map_app, cat_app. Qed.

(** X23. No word is twice in the lexicon [make_lexicon] writes: the
    words counted are distinct and in upper case, each goes to one of
    the two temporary files, and putting them in lower case keeps them
    apart.  The lexicon is the rendering of these entries. *)
Theorem lexicon_words_are_distinct
    items (cmu_file transcription_file : string) :
  Permutation (items (AIC.count_words transcription_file))
              (AIC.count_words transcription_file) ->
  let temp := AIC.temp_cmu_lexicon items cmu_file transcription_file in
  AIC.make_lexicon items cmu_file transcription_file =
    AIC.Ok (AIC.render (AIC.lexicon_entries (fst temp) (snd temp))) /\
  NoDup (map fst (AIC.lexicon_entries (fst temp) (snd temp))).
Proof.
  intros Hitems temp.
  set (cmu_dict := AIC.read_cmu_dict cmu_file).
  set (counted := items (AIC.count_words transcription_file)) in *.
  set (words := AIC.sorted_desc counted).
  assert (Hperm : Permutation words (AIC.count_words transcription_file)).
  { eapply Permutation_trans; [apply sorted_desc_perm | exact Hitems]. }
  assert (Hplain : Forall (fun kv => Py.sall plain (fst kv) = true) words).
  { eapply Permutation_Forall;
      [apply Permutation_sym, Hperm | apply count_words_plain]. }
  assert (Hupper : Forall (fun kv => uppercase (fst kv)) words).
  { eapply Permutation_Forall;
      [apply Permutation_sym, Hperm | apply count_words_uppercase]. }
  assert (Hdot : Forall (fun c : string * Z => Py.sall Re.dot (fst c) = true)
                        (filter (unknown cmu_dict) words)).
  { apply Forall_filter. eapply Forall_impl; [|exact Hplain].
    intros kv. apply plain_is_dot. }
  assert (Etemp : temp =
            (Py.cat (map (temp_entry cmu_dict)
                         (filter (known cmu_dict) words)),
             Py.cat (map candidate_line
                         (filter (unknown cmu_dict) words))))
    by apply temp_cmu_lexicon_files.
  assert (Eentries :
            AIC.lexicon_entries (fst temp) (snd temp) =
            (map (fun item =>
                    (Py.lower (fst item),
                     AIC.cmu_to_aic (pronunciation cmu_dict item)))
                 (filter (known cmu_dict) words) ++
             map (fun c =>
                    (Py.lower (fst c),
                     Py.join " " (Py.split ":" (Py.lower (fst c)))))
                 (filter retained (filter (unknown cmu_dict) words)))%list).
  { rewrite Etemp. cbn [fst snd]. unfold AIC.lexicon_entries, cmu_dict.
    rewrite readlines_temp_lexicon by now apply Forall_filter.
    rewrite readlines_candidates by assumption.
    f_equal.
    - rewrite <- (filter_all (filter (known _) words)) at 2.
      apply choose_map_filter. intros item Hin.
      apply lexicon_entry_temp.
      apply filter_In in Hin as [Hin _].
      rewrite Forall_forall in Hplain. now apply Hplain.
    - apply choose_map_filter. intros c Hin.
      apply oov_entry_candidate.
      rewrite Forall_forall in Hdot. now apply Hdot. }
  split.
  - unfold AIC.make_lexicon. fold temp.
    rewrite (surjective_pairing temp) at 1.
    unfold AIC.make_lexicon_aux.
    destruct (AIC.oov_loop (Py.readlines (snd temp))
                (AIC.lexicon_loop (Py.readlines (fst temp))))
      as [lexicon|] eqn:E.
    + apply oov_loop_entries in E. rewrite E, lexicon_loop_entries.
      unfold AIC.lexicon_entries. now rewrite render_app.
    + exfalso. rewrite Etemp in E. cbn [fst snd] in E.
      rewrite readlines_candidates in E by assumption.
      rewrite oov_loop_candidates in E by assumption. discriminate.
  - rewrite Eentries, map_app, !map_map. cbn [fst].
    rewrite <- map_app.
    rewrite <- (map_map fst Py.lower).
    apply NoDup_map_NoDup_ForallPairs.
    + intros x y Hx Hy. apply lower_inj.
      * apply in_map_iff in Hx as (kv & <- & Hkv).
        rewrite Forall_forall in Hupper. apply Hupper.
        apply in_app_iff in Hkv as [Hkv|Hkv];
          repeat (apply filter_In in Hkv as [Hkv _]); exact Hkv.
      * apply in_map_iff in Hy as (kv & <- & Hkv).
        rewrite Forall_forall in Hupper. apply Hupper.
        apply in_app_iff in Hkv as [Hkv|Hkv];
          repeat (apply filter_In in Hkv as [Hkv _]); exact Hkv.
    + apply nodup_app_filter.
      eapply Permutation_NoDup.
      * apply Permutation_map, Permutation_sym.
        eapply Permutation_trans; [apply filter_partition | exact Hperm].
      * apply count_words_nodup.
Qed.

Lemma lexicon_words_are_distinct_witness :
  AIC.make_lexicon (fun d => d)
    ("HELLO  HH AH0 L OW1" ++ AIC.newline)
    ("f01_p_u1 hello a:b" ++ AIC.newline ++
     "m02_s_u2 a:b Hello" ++ AIC.newline) =
  AIC.Ok
    (AIC.render
       (AIC.lexicon_entries
          (fst (AIC.temp_cmu_lexicon (fun d => d)
                  ("HELLO  HH AH0 L OW1" ++ AIC.newline)
                  ("f01_p_u1 hello a:b" ++ AIC.newline ++
                   "m02_s_u2 a:b Hello" ++ AIC.newline)))
          (snd (AIC.temp_cmu_lexicon (fun d => d)
                  ("HELLO  HH AH0 L OW1" ++ AIC.newline)
                  ("f01_p_u1 hello a:b" ++ AIC.newline ++
                   "m02_s_u2 a:b Hello" ++ AIC.newline))))) /\
  NoDup
    (map fst
       (AIC.lexicon_entries
          (fst (AIC.temp_cmu_lexicon (fun d => d)
                  ("HELLO  HH AH0 L OW1" ++ AIC.newline)
                  ("f01_p_u1 hello a:b" ++ AIC.newline ++
                   "m02_s_u2 a:b Hello" ++ AIC.newline)))
          (snd (AIC.temp_cmu_lexicon (fun d => d)
                  ("HELLO  HH AH0 L OW1" ++ AIC.newline)
                  ("f01_p_u1 hello a:b" ++ AIC.newline ++
                   "m02_s_u2 a:b Hello" ++ AIC.newline))))).
Proof.
  apply (@lexicon_words_are_distinct (fun d => d)
           ("HELLO  HH AH0 L OW1" ++ AIC.newline)
           ("f01_p_u1 hello a:b" ++ AIC.newline ++
            "m02_s_u2 a:b Hello" ++ AIC.newline)).
  apply Permutation_refl.
Defined.

(** ** A n-gram computation that succeeds *)

Lemma write_file_trace (p : path) (c : string) (w : world) r w' :
  write_file p c w = (r, w') -> trace w' = trace w.
Proof.
  unfold write_file, bind, get_files, set_files. now intros [= _ <-].
Qed.

Lemma read_file_trace (p : path) (w : world) r w' :
  read_file p w = (r, w') -> trace w' = trace w.
Proof.
  unfold read_file, bind, get_files, ret, raise.
  destruct (files w p) as [[c|]|]; now intros [= _ <-].
Qed.

Lemma remove_trace (p : path) (safe : bool) (w : world) :
  trace (snd (remove p safe w)) = trace w.
Proof.
  unfold remove, bind, get_files, set_files, ret, raise.
  destruct (exists_ (files w) p); [reflexivity|]. now destruct safe.
Qed.

Lemma cleanup_trace (l : list path) :
  forall w, trace (snd (for_each l (fun f => remove f true) w)) = trace w.
Proof.
  induction l as [|x l IH]; intros w; [reflexivity|].
  cbn [for_each]. unfold bind.
  pose proof (remove_trace x true w) as Hx.
  destruct (remove x true w) as [[u|e] w1]; cbn [snd] in *; [|exact Hx].
  now rewrite IH.
Qed.

Lemma run_job_return (S : system) (c : call) (out : sink) (w w' : world) :
  run_job S c out w = (Return tt, w') ->
  exists extra,
    trace w' = (trace w ++ Exec c out :: extra)%list /\
    filter is_exec extra = [].
Proof.
  unfold run_job, write_file, log, emit, bind, get_files, set_files, ret,
    raise.
  destruct out as [|p|p]; cbn [fst snd files trace];
    destruct (job_ok (gateway S c (files w))); intros [= <-];
    cbn [trace]; rewrite <- ?app_assoc; cbn [app];
    eexists; split; reflexivity.
Qed.

Lemma compute_lm_success (S : system) (self : recipe) (w w' : world) :
  _compute_lm S self (G_arpa self) w = (Return tt, w') ->
  filter is_exec (since w w') =
    [ Exec (AddStartEnd (local_path self ++ ["text_ready.txt"])%list)
           (ToFile (local_path self ++ ["text_se.txt"])%list);
      Exec (BuildLm (local_path self ++ ["text_se.txt"])%list (order self)
                    (local_path self ++ ["text_lm.gz"])%list) ToLog;
      Exec (CompileLm (local_path self ++ ["text_lm.gz"])%list
                      (local_path self ++ ["text_blm.gz"])%list) ToLog ] /\
  exists blm, files w' (G_arpa self) = Some (File (gzip S blm)).
Proof.
  unfold _compute_lm. intros H.
  apply bind_inv in H as (? & w0 & Hlog & H).
  unfold log, emit in Hlog. injection Hlog as _ <-.
  apply try_finally_inv in H as (wb & u & Hbody & Hclean).
  apply bind_inv in Hbody as (? & w1 & H1 & Hbody).
  apply write_file_trace in H1.
  apply bind_inv in Hbody as (text & w2 & H2 & Hbody).
  apply read_file_trace in H2.
  apply bind_inv in Hbody as (? & w3 & H3 & Hbody).
  apply write_file_trace in H3.
  apply bind_inv in Hbody as (? & w4 & H4 & Hbody).
  apply read_file_trace in H4.
  apply bind_inv in Hbody as (? & w5 & H5 & Hbody).
  apply write_file_trace in H5.
  apply bind_inv in Hbody as ([] & w6 & H6 & Hbody).
  apply run_job_return in H6 as (x6 & H6 & Q6).
  apply bind_inv in Hbody as ([] & w7 & H7 & Hbody).
  apply run_job_return in H7 as (x7 & H7 & Q7).
  apply bind_inv in Hbody as ([] & w8 & H8 & Hbody).
  apply run_job_return in H8 as (x8 & H8 & Q8).
  apply bind_inv in Hbody as (blm & w9 & H9 & Hbody).
  apply read_file_trace in H9.
  pose proof (@write_file_trace _ _ _ _ _ Hbody) as H10.
  pose proof (f_equal (fun r => trace (snd r)) Hclean) as Hc.
  cbn beta in Hc. rewrite cleanup_trace in Hc. cbn [snd] in Hc.
  split.
  - unfold since.
    rewrite <- Hc, H10, H9, H8, H7, H6, H5, H4, H3, H2, H1. cbn [trace].
    rewrite <- !app_assoc. rewrite skipn_added.
    cbn [app filter is_exec]. rewrite !filter_app. cbn [filter is_exec].
    rewrite !filter_app. cbn [filter is_exec].
    now rewrite Q6, Q7, Q8.
  - exists blm.
    assert (Hb : files wb (G_arpa self) = Some (File (gzip S blm))).
    { unfold write_file, bind, get_files, set_files in Hbody.
      injection Hbody as <-. cbn [files]. apply put_same. }
    assert (Hk : keeps (preserves (G_arpa self))
                   (for_each
                      [(local_path self ++ ["text_ready.txt"])%list;
                       (local_path self ++ ["text_se.txt"])%list;
                       (local_path self ++ ["text_lm.gz"])%list;
                       (local_path self ++ ["text_blm.gz"])%list]
                      (fun f => remove f true))).
    { apply leaves_for_each. intros f Hf. apply leaves_remove.
      simpl in Hf. unfold G_arpa.
      destruct Hf as [<-|[<-|[<-|[<-|[]]]]];
        apply under_sibling; discriminate. }
    specialize (Hk wb). rewrite Hclean in Hk. cbn [snd] in Hk.
    rewrite Hk; [exact Hb|]. unfold isfile. now rewrite Hb.
Qed.

(** X24. A n-gram computation that returns has run its three programs,
    each once and in this order: the start and end markers into
    text_se.txt, the n-gram builder, the n-gram compiler; and G.arpa.gz
    then holds the compression of a text. *)
Theorem ngram_stage_on_success
    (S : system) (self : recipe) (w w' : world) :
  _compute_lm S self (G_arpa self) w = (Return tt, w') ->
  filter is_exec (since w w') =
    [ Exec (AddStartEnd (local_path self ++ ["text_ready.txt"])%list)
           (ToFile (local_path self ++ ["text_se.txt"])%list);
      Exec (BuildLm (local_path self ++ ["text_se.txt"])%list (order self)
                    (local_path self ++ ["text_lm.gz"])%list) ToLog;
      Exec (CompileLm (local_path self ++ ["text_lm.gz"])%list
                      (local_path self ++ ["text_blm.gz"])%list) ToLog ] /\
  exists blm, files w' (G_arpa self) = Some (File (gzip S blm)).
Proof. apply compute_lm_success. Qed.

Lemma ngram_stage_on_success_witness :
  filter is_exec
    (since (Stub.created Stub.trigram)
       (snd (_compute_lm Stub.machine Stub.trigram (G_arpa Stub.trigram)
               (Stub.created Stub.trigram)))) =
    [ Exec (AddStartEnd ["recipe"; "local"; "text_ready.txt"])
           (ToFile ["recipe"; "local"; "text_se.txt"]);
      Exec (BuildLm ["recipe"; "local"; "text_se.txt"] (Int 3)
                    ["recipe"; "local"; "text_lm.gz"]) ToLog;
      Exec (CompileLm ["recipe"; "local"; "text_lm.gz"]
                      ["recipe"; "local"; "text_blm.gz"]) ToLog ] /\
  exists blm,
    files (snd (_compute_lm Stub.machine Stub.trigram (G_arpa Stub.trigram)
                  (Stub.created Stub.trigram)))
      (G_arpa Stub.trigram) = Some (File (gzip Stub.machine blm)).
Proof.
  apply (@ngram_stage_on_success Stub.machine Stub.trigram
           (Stub.created Stub.trigram)
           (snd (_compute_lm Stub.machine Stub.trigram (G_arpa Stub.trigram)
                   (Stub.created Stub.trigram)))).
  apply injective_projections; [vm_compute; reflexivity | reflexivity].
Defined.

(** ** The stage [run] selects, and what it does *)

(** X25. Once the parameters are checked and the corpus is prepared,
    [run] does the work of the stage the files select.  With G.txt it
    is the compilation: nothing of the n-gram computation happens, the
    compiler is run on G.txt and, only if it succeeds, the sorter on
    the temporary file; a compiler that fails makes [run] raise, and
    otherwise G.fst holds what the sorter printed, which is the sorting
    of what the buffer of the temporary file has let through of the
    compiler's output.  With neither G.txt nor G.arpa.gz
    it is the n-gram computation and then the formatting: a computation
    that raises ends the run; one that returns has run its three
    programs and left a compressed text in G.arpa.gz, and the formatter
    is then the one program run, on that G.arpa.gz.  With G.arpa.gz and
    no G.txt it is the formatting alone: nothing of the n-gram
    computation happens, the formatter is the one program run.  In both
    cases a formatter that fails makes [run] raise, and one that
    succeeds, leaving the output directory and its temporary directory
    in place, neither inside the other, has [run] return with its
    temporary directory moved to the output directory. *)
Theorem run_does_the_stage_it_selects
    (S : system) (self : recipe) (w w1 : world) :
  (check_parameters self ;; _prepare_lang S self) w = (Return tt, w1) ->
  let final := snd (run S self w) in
  let formatted (w2 : world) :=
    let tmp_dir := mkdtemp S (files w2) in
    let formatter := format_job S self (G_arpa self) (files w2) in
    filter is_exec (since w2 final) =
      [Exec (FormatLmSri (output_dir self) (G_arpa self) tmp_dir) ToLog] /\
    (job_ok formatter = false -> fst (run S self w) = Raise RuntimeError) /\
    (job_ok formatter = true ->
     exists_ (job_files formatter) (output_dir self) = true ->
     exists_ (job_files formatter) tmp_dir = true ->
     under (output_dir self) tmp_dir = false ->
     under tmp_dir (output_dir self) = false ->
     fst (run S self w) = Return tt /\
     forall rel,
       files final (output_dir self ++ rel)%list =
       job_files formatter (tmp_dir ++ rel)%list) in
  (isfile (files w1) (G_txt self) = true ->
   let temp := mktemp S (files w1) in
   let compiler := fstcompile_job S self (G_txt self) (files w1) in
   let sorter := fstarcsort_job S self (G_txt self) (G_fst self) (files w1) in
   Forall quiet (since w1 final) /\
   filter is_exec (since w1 final) =
     Exec (FstCompile (output_dir self ++ ["words.txt"])%list (G_txt self))
          (ToOpenFile temp) ::
     (if job_ok compiler
      then [Exec (FstArcSort temp) (ToFile (G_fst self))] else []) /\
   (job_ok compiler = false -> fst (run S self w) = Raise RuntimeError) /\
   (job_ok compiler = true ->
    under temp (G_fst self) = false ->
    files final (G_fst self) = Some (File (job_stdout sorter)))) /\
  (isfile (files w1) (G_txt self) = false ->
   isfile (files w1) (G_arpa self) = false ->
   In (Log INFO (Computing_ngram (level self) (order self)))
      (since w1 final) /\
   (forall e w2,
      _compute_lm S self (G_arpa self) w1 = (Raise e, w2) ->
      run S self w = (Raise e, w2)) /\
   (forall w2,
      _compute_lm S self (G_arpa self) w1 = (Return tt, w2) ->
      filter is_exec (since w1 w2) =
        [ Exec (AddStartEnd (local_path self ++ ["text_ready.txt"])%list)
               (ToFile (local_path self ++ ["text_se.txt"])%list);
          Exec (BuildLm (local_path self ++ ["text_se.txt"])%list
                        (order self)
                        (local_path self ++ ["text_lm.gz"])%list) ToLog;
          Exec (CompileLm (local_path self ++ ["text_lm.gz"])%list
                          (local_path self ++ ["text_blm.gz"])%list)
               ToLog ] /\
      (exists blm, files w2 (G_arpa self) = Some (File (gzip S blm))) /\
      formatted w2)) /\
  (isfile (files w1) (G_txt self) = false ->
   isfile (files w1) (G_arpa self) = true ->
   Forall quiet (since w1 final) /\
   formatted w1).
Proof.
  intros Hprep final formatted.
  pose proof (@run_after_prepare S self w w1 Hprep) as Hrun.
  assert (Hformat : forall w2,
             run S self w = _format_lm S self (G_arpa self) (G_fst self) w2 ->
             formatted w2).
  { intros w2 E. unfold formatted, final. rewrite E. split; [|split].
    - apply format_lm_execs.
    - intros Hfail.
      now destruct (format_lm_failure S self (G_arpa self) (G_fst self) w2
                      Hfail).
    - intros Hok Ho Ht Hot Hto.
      destruct (format_lm_success S self (G_arpa self) (G_fst self) w2
                  Hok Ho Ht Hot Hto) as (Hr & _ & Hrel).
      now split. }
  split; [|split].
  - intros Htxt temp compiler sorter.
    rewrite stages_grammar in Hrun by assumption.
    destruct (compile_fst_cases S self (G_txt self) (G_fst self) w1)
      as (H1 & H2 & H3).
    fold temp compiler sorter in H1, H2, H3.
    unfold final. rewrite Hrun. split; [|split; [|split]].
    + apply (@since_extends quiet _ _ (@compile_fst_quiet S self _ _ w1)).
    + destruct (job_ok compiler) eqn:Hc.
      * destruct (job_ok sorter) eqn:Hs.
        -- now destruct (H3 eq_refl eq_refl) as [-> _].
        -- now destruct (H2 eq_refl eq_refl) as (_ & _ & ->).
      * now destruct (H1 eq_refl) as (_ & _ & ->).
    + intros Hc. now destruct (H1 Hc).
    + intros Hc Hu. now apply compile_fst_product.
  - intros Htxt Harpa. rewrite stages_text in Hrun by assumption.
    split; [|split].
    + unfold final. rewrite Hrun.
      destruct (bind_trace (_compute_lm S self (G_arpa self))
                  (fun _ => _format_lm S self (G_arpa self) (G_fst self)) w1)
        as [r E]; [intros _; apply (@keeps_impl_any _ quiet), format_lm_quiet|].
      destruct (compute_lm_trace S self (G_arpa self) w1) as [r' E'].
      rewrite E' in E. rewrite <- app_assoc in E.
      rewrite (@since_app _ _ _ E). simpl. tauto.
    + intros e w2 Hc. rewrite Hrun. unfold bind. now rewrite Hc.
    + intros w2 Hc.
      destruct (@compute_lm_success S self w1 w2 Hc) as [Hexecs Hblm].
      split; [exact Hexecs|]. split; [exact Hblm|].
      apply Hformat. rewrite Hrun.
      exact (@bind_return _ _ _ _ _ _ _ Hc).
  - intros Htxt Harpa. rewrite stages_arpa in Hrun by assumption. split.
    + unfold final. rewrite Hrun.
      apply (@since_extends quiet _ _ (@format_lm_quiet S self _ _ w1)).
    + now apply Hformat.
Qed.

Lemma run_does_the_stage_it_selects_witness :
  Forall quiet
    (since (Stub.prepared Stub.with_grammar)
       (snd (run Stub.machine Stub.trigram Stub.with_grammar))) /\
  filter is_exec
    (since (Stub.prepared Stub.with_grammar)
       (snd (run Stub.machine Stub.trigram Stub.with_grammar))) =
    [ Exec (FstCompile ["out"; "words.txt"] ["recipe"; "local"; "G.txt"])
           (ToOpenFile ["tmp"; "tmpfile"]);
      Exec (FstArcSort ["tmp"; "tmpfile"])
           (ToFile ["recipe"; "local"; "G.fst"]) ] /\
  files (snd (run Stub.machine Stub.trigram Stub.with_grammar))
    (G_fst Stub.trigram) = Some (File "sorted ").
Proof.
  assert (Hprep : (check_parameters Stub.trigram ;;
                   _prepare_lang Stub.machine Stub.trigram) Stub.with_grammar
                  = (Return tt, Stub.prepared Stub.with_grammar)).
  { rewrite (run_pair (check_parameters Stub.trigram ;;
                       _prepare_lang Stub.machine Stub.trigram)
               Stub.with_grammar).
    apply f_equal2; [vm_compute; reflexivity | reflexivity]. }
  destruct (proj1 (@run_does_the_stage_it_selects Stub.machine Stub.trigram
                     Stub.with_grammar (Stub.prepared Stub.with_grammar)
                     Hprep) eq_refl) as (Hq & He & _ & Hfst).
  split; [exact Hq|]. split; [exact He|]. exact (Hfst eq_refl eq_refl).
Defined.
